(** * MySQLdb wrapper: per-thread connection pool and query helpers

    A shallow embedding of [db.py] and the properties of its specification.

    Conventions of the model.
    - The module targets Python 2 ([threading.currentThread], [Thread.isAlive],
      [dict.items()] returning a list): [items()] is a snapshot, so deleting
      entries while looping over it is well defined.
    - Thread, connection and cursor objects are represented by their identity,
      a natural number.  The two module dictionaries are finite maps keyed by
      thread identity.
    - Timestamps are the values of [time.time()]; only their order and the
      subtraction [now - db_connection_timeout] are used, so they are integers
      here (for instance milliseconds).
    - Everything the database client and the run time decide (the clock, thread
      liveness, the cursor class a connection was opened with, whether [close],
      [ping], [connect], [execute] and [fetchone] succeed and what they return)
      is read from an environment [Env].
    - A call runs in a small state-and-exception monad.  One call is one atomic
      step: the lock is observed at call boundaries only. *)

From Stdlib Require Import ZArith Lia.
From stdpp Require Import base gmap strings list fin_maps.

(** ** Exceptions and outcomes *)

Inductive Exn : Type :=
| OperationalError                (* MySQLdb.OperationalError *)
| ClientError (code : nat)        (* any other exception of the database client *)
| KeyError
| IndexError
| TypeError
| SystemExit (status : Z).        (* raised by sys.exit *)

Inductive Outcome (A : Type) : Type :=
| Returns (a : A)                 (* normal return *)
| Raises (e : Exn)                (* an exception leaves the function *)
| Blocks                          (* waits for ever on the pool lock *)
| OutOfFuel.                      (* the bound on loop iterations was reached *)

Arguments Returns {A} a.
Arguments Raises {A} e.
Arguments Blocks {A}.
Arguments OutOfFuel {A}.

(** ** Python values, as far as rows and [dict2obj] need them *)

#[local] Set Warnings "-register-all".

Inductive value : Type :=
| VNone
| VInt (z : Z)
| VStr (s : string)
| VDict (items : list (string * value))
| VTuple (xs : list value)
| VList (xs : list value)
| VSet (xs : list value)
| VFrozenset (xs : list value)
| VObj (attrs : list (string * value)).   (* a class made by type(name, bases, dict) *)

(** ** The database client as seen by the wrapper *)

Inductive CursorClass : Type :=
| TupleCursor                     (* MySQLdb.cursors.Cursor: positional rows *)
| DictCursor.                     (* MySQLdb.cursors.DictCursor: rows keyed by column *)

(** A row as the server sends it: the columns in order, each with its name. *)
Definition RawRow : Type := list (string * value).

Inductive FetchResult : Type :=
| Fetched (r : RawRow)
| FetchRaises (e : Exn).

Inductive ExecResult : Type :=
| Executed (count : Z) (fetches : list FetchResult)
| ExecRaises (e : Exn).

Inductive ConnectResult : Type :=
| Connected (c : nat)
| ConnectFalsy                    (* connect returned a false value *)
| ConnectRaises (e : Exn).

(** The arguments of a statement: its text and its bind parameters. *)
Definition Args : Type := string * list value.

Record Env : Type := {
  time_now : Z;                              (* _time() *)
  isAlive : nat -> bool;                     (* th.isAlive() *)
  conn_close : nat -> option Exn;            (* c.close(): None when it returns *)
  conn_ping : nat -> option Exn;             (* c.ping(): None when it returns *)
  conn_cursorclass : nat -> CursorClass;     (* c.cursorclass, set when c was opened *)
  connect : nat -> ConnectResult;            (* i-th MySQLdb.connect(...) of the call *)
  run_statement : Args -> ExecResult         (* what cursor.execute meets for these arguments *)
}.

Record CursorState : Type := {
  cursor_connection : nat;                   (* the connection it was made from *)
  cursor_class : CursorClass;
  cursor_pending : list FetchResult;         (* what the next fetchone calls meet *)
  cursor_closed : bool
}.

(** ** Module state *)

Record State : Type := {
  db_connection_pool : gmap nat nat;         (* thread -> connection *)
  db_connection_activity : gmap nat Z;       (* thread -> time of last use *)
  db_connection_pool_lock : bool;            (* true while the lock is held *)
  closed_connections : list nat;             (* connections whose close() returned *)
  cursor_table : gmap nat CursorState;       (* every cursor made so far, by identity *)
  next_cursor : nat                          (* identity of the next cursor object *)
}.

Record Config : Type := {
  db_connection_timeout : Z;
  db_cursor_class : CursorClass
}.

Definition default_config : Config :=
  {| db_connection_timeout := 600; db_cursor_class := DictCursor |}.

Definition initial_state : State :=
  {| db_connection_pool := ∅;
     db_connection_activity := ∅;
     db_connection_pool_lock := false;
     closed_connections := [];
     cursor_table := ∅;
     next_cursor := 0 |}.

Definition set_pool (p : gmap nat nat) (s : State) : State :=
  {| db_connection_pool := p;
     db_connection_activity := db_connection_activity s;
     db_connection_pool_lock := db_connection_pool_lock s;
     closed_connections := closed_connections s;
     cursor_table := cursor_table s;
     next_cursor := next_cursor s |}.

Definition set_activity (a : gmap nat Z) (s : State) : State :=
  {| db_connection_pool := db_connection_pool s;
     db_connection_activity := a;
     db_connection_pool_lock := db_connection_pool_lock s;
     closed_connections := closed_connections s;
     cursor_table := cursor_table s;
     next_cursor := next_cursor s |}.

Definition set_lock (b : bool) (s : State) : State :=
  {| db_connection_pool := db_connection_pool s;
     db_connection_activity := db_connection_activity s;
     db_connection_pool_lock := b;
     closed_connections := closed_connections s;
     cursor_table := cursor_table s;
     next_cursor := next_cursor s |}.

Definition set_closed (l : list nat) (s : State) : State :=
  {| db_connection_pool := db_connection_pool s;
     db_connection_activity := db_connection_activity s;
     db_connection_pool_lock := db_connection_pool_lock s;
     closed_connections := l;
     cursor_table := cursor_table s;
     next_cursor := next_cursor s |}.

Definition set_cursors (t : gmap nat CursorState) (n : nat) (s : State) : State :=
  {| db_connection_pool := db_connection_pool s;
     db_connection_activity := db_connection_activity s;
     db_connection_pool_lock := db_connection_pool_lock s;
     closed_connections := closed_connections s;
     cursor_table := t;
     next_cursor := n |}.

(** ** The monad of a call *)

Definition M (A : Type) : Type := State -> Outcome A * State.

Definition ret {A} (a : A) : M A := fun s => (Returns a, s).
Definition raise {A} (e : Exn) : M A := fun s => (Raises e, s).
Definition block {A} : M A := fun s => (Blocks, s).
Definition out_of_fuel {A} : M A := fun s => (OutOfFuel, s).

Definition bind {A B} (m : M A) (k : A -> M B) : M B :=
  fun s =>
    match m s with
    | (Returns a, s') => k a s'
    | (Raises e, s') => (Raises e, s')
    | (Blocks, s') => (Blocks, s')
    | (OutOfFuel, s') => (OutOfFuel, s')
    end.

Notation "x <- m ;; k" := (bind m (fun x => k))
  (at level 100, m at next level, right associativity).
Notation "m ;;; k" := (bind m (fun _ => k))
  (at level 100, right associativity).

Definition get_state : M State := fun s => (Returns s, s).
Definition modify (f : State -> State) : M unit := fun s => (Returns tt, f s).

(** ** Dictionary and lock primitives *)

(** [d[k]]: KeyError when the key is absent. *)
Definition getitem {V} (m : gmap nat V) (k : nat) : M V :=
  match m !! k with
  | Some v => ret v
  | None => raise KeyError
  end.

(** [del db_connection_pool[th]] *)
Definition pool_delitem (th : nat) : M unit :=
  s <- get_state ;;
  match db_connection_pool s !! th with
  | Some _ => modify (set_pool (delete th (db_connection_pool s)))
  | None => raise KeyError
  end.

(** [del db_connection_activity[th]] *)
Definition activity_delitem (th : nat) : M unit :=
  s <- get_state ;;
  match db_connection_activity s !! th with
  | Some _ => modify (set_activity (delete th (db_connection_activity s)))
  | None => raise KeyError
  end.

(** [db_connection_pool[th] = c] *)
Definition pool_setitem (th c : nat) : M unit :=
  modify (fun s => set_pool (<[th := c]> (db_connection_pool s)) s).

(** [db_connection_activity[th] = t] *)
Definition activity_setitem (th : nat) (t : Z) : M unit :=
  modify (fun s => set_activity (<[th := t]> (db_connection_activity s)) s).

(** [db_connection_pool_lock.acquire()]: a plain, non re-entrant lock. *)
Definition lock_acquire : M unit :=
  s <- get_state ;;
  if db_connection_pool_lock s then block else modify (set_lock true).

(** [db_connection_pool_lock.release()] *)
Definition lock_release : M unit := modify (set_lock false).

(** [c.close()] on a connection. *)
Definition connection_close (env : Env) (c : nat) : M unit :=
  match conn_close env c with
  | None => modify (fun s => set_closed (c :: closed_connections s) s)
  | Some e => raise e
  end.

(** [MySQLdb.connect] on the configured parameters, followed by the check
    [if not db_connection: sys.exit(1)]. *)
Definition new_connection (env : Env) (i : nat) : M nat :=
  match connect env i with
  | Connected c => ret c
  | ConnectFalsy => raise (SystemExit 1)
  | ConnectRaises e => raise e
  end.

(** ** get_connection *)

(** The body shared by both arms of the sweep: close, then forget. *)
Definition evict (env : Env) (th : nat) : M unit :=
  s <- get_state ;;
  c <- getitem (db_connection_pool s) th ;;
  connection_close env c ;;;
  pool_delitem th ;;;
  activity_delitem th.

(** [for th, thtime in db_connection_activity.items(): ...] *)
Fixpoint sweep (env : Env) (timeout : Z) (items : list (nat * Z)) : M unit :=
  match items with
  | [] => ret tt
  | (th, thtime) :: rest =>
      (if negb (isAlive env th) then evict env th
       else if (thtime <? timeout)%Z then evict env th
       else ret tt) ;;;
      sweep env timeout rest
  end.

(** [while db_connection: try: db_connection.ping(); break
     except MySQLdb.OperationalError: ...].
    A connection object is true, so the loop is left through [break] or an
    exception only; [i] counts the calls of [connect] made so far. *)
Fixpoint ping_loop (fuel : nat) (env : Env) (current_thread i db_connection : nat)
  : M nat :=
  match fuel with
  | O => out_of_fuel
  | S fuel' =>
      match conn_ping env db_connection with
      | None => ret db_connection
      | Some OperationalError =>
          c <- new_connection env i ;;
          pool_setitem current_thread c ;;;
          ping_loop fuel' env current_thread (S i) c
      | Some e => raise e
      end
  end.

Definition get_connection (fuel : nat) (cfg : Config) (env : Env)
    (current_thread : nat) : M nat :=
  lock_acquire ;;;
  (* try: *)
  let now := time_now env in
  let timeout := (now - db_connection_timeout cfg)%Z in
  s <- get_state ;;
  sweep env timeout (map_to_list (db_connection_activity s)) ;;;
  s <- get_state ;;
  db_connection <-
    match db_connection_pool s !! current_thread with
    | Some c => ping_loop fuel env current_thread 0 c
    | None =>
        c <- new_connection env 0 ;;
        pool_setitem current_thread c ;;;
        ret c
    end ;;
  activity_setitem current_thread now ;;;
  (* finally: pass *)
  lock_release ;;;
  ret db_connection.

(** [close_connections]: with [_debug = 0] the liveness test is not even
    evaluated; it only guards a log message. *)
Fixpoint close_all (env : Env) (items : list (nat * nat)) : M unit :=
  match items with
  | [] => ret tt
  | (t, c) :: rest => connection_close env c ;;; close_all env rest
  end.

Definition close_connections (env : Env) : M unit :=
  s <- get_state ;;
  close_all env (map_to_list (db_connection_pool s)).

(** ** Cursors *)

(** [Connection.default_cursor] of the database client, [cursors.Cursor]:
    the cursor class of a connection that was opened without
    [cursorclass=...].  A connection keeps the class it was opened with as
    its attribute [cursorclass] ([conn_cursorclass] of the environment): the
    caller chooses it for a connection given as [connection=...], and
    [db_connection_kwargs] chooses it for the connections of the pool. *)
Definition default_cursor_class : CursorClass := TupleCursor.

(** [connection.cursor(cursorclass=...)], or [connection.cursor()] when
    [cursorclass] is [None]: a new cursor object, of the class
    [cursorclass or self.cursorclass]. *)
Definition connection_cursor (env : Env) (conn : nat) (cursorclass : option CursorClass)
  : M nat :=
  s <- get_state ;;
  let k := next_cursor s in
  let cls := match cursorclass with
             | Some c => c
             | None => conn_cursorclass env conn
             end in
  modify (set_cursors
            (<[k := {| cursor_connection := conn; cursor_class := cls;
                       cursor_pending := []; cursor_closed := false |}]>
               (cursor_table s))
            (S k)) ;;;
  ret k.

Definition set_pending (l : list FetchResult) (cs : CursorState) : CursorState :=
  {| cursor_connection := cursor_connection cs; cursor_class := cursor_class cs;
     cursor_pending := l; cursor_closed := cursor_closed cs |}.

Definition set_cursor_closed (cs : CursorState) : CursorState :=
  {| cursor_connection := cursor_connection cs; cursor_class := cursor_class cs;
     cursor_pending := cursor_pending cs; cursor_closed := true |}.

(** The object behind a cursor identity.  An identity that was never handed
    out is not a value a caller can pass; the model answers TypeError. *)
Definition the_cursor (k : nat) : M CursorState :=
  s <- get_state ;;
  match cursor_table s !! k with
  | Some cs => ret cs
  | None => raise TypeError
  end.

Definition update_cursor (k : nat) (cs : CursorState) : M unit :=
  modify (fun s => set_cursors (<[k := cs]> (cursor_table s)) (next_cursor s) s).

(** The keyword arguments the helpers look at. *)
Record Kwargs : Type := {
  kw_connection : option nat;                (* connection=... *)
  kw_cursor : option nat                     (* cursor=... *)
}.

Definition no_kwargs : Kwargs := {| kw_connection := None; kw_cursor := None |}.

Definition kwargs_empty (kw : Kwargs) : bool :=
  match kw_connection kw, kw_cursor kw with
  | None, None => true
  | _, _ => false
  end.

(** [cursor.execute] with the statement arguments and whatever keyword
    arguments are left: the client accepts none of the two names above as a
    keyword, so a leftover one is a TypeError. *)
Definition cursor_execute (env : Env) (k : nat) (args : Args) (kwargs : Kwargs) : M Z :=
  cs <- the_cursor k ;;
  if kwargs_empty kwargs then
    match run_statement env args with
    | Executed count fetches =>
        update_cursor k (set_pending fetches cs) ;;;
        ret count
    | ExecRaises e => raise e
    end
  else raise TypeError.

(** How a cursor of each class presents a row. *)
Definition shape_row (cls : CursorClass) (r : RawRow) : value :=
  match cls with
  | TupleCursor => VTuple (map snd r)
  | DictCursor => VDict r
  end.

(** [cursor.fetchone()]: the next row, or [None] when there is none. *)
Definition cursor_fetchone (k : nat) : M value :=
  cs <- the_cursor k ;;
  match cursor_pending cs with
  | [] => ret VNone
  | Fetched r :: rest =>
      update_cursor k (set_pending rest cs) ;;;
      ret (shape_row (cursor_class cs) r)
  | FetchRaises e :: rest =>
      update_cursor k (set_pending rest cs) ;;;
      raise e
  end.

(** [cursor.close()] *)
Definition cursor_close (k : nat) : M unit :=
  cs <- the_cursor k ;;
  update_cursor k (set_cursor_closed cs).

(** ** Row/object adapter *)

(** Attribute and item tables are association lists in insertion order. *)
Fixpoint alist_get (k : string) (l : list (string * value)) : option value :=
  match l with
  | [] => None
  | (k', v) :: rest => if String.eqb k k' then Some v else alist_get k rest
  end.

(** [setattr(top, k, v)] on the attribute table of [top]. *)
Fixpoint setattr (top : list (string * value)) (k : string) (v : value)
  : list (string * value) :=
  match top with
  | [] => [(k, v)]
  | (k', v') :: rest =>
      if String.eqb k k' then (k, v) :: rest else (k', v') :: setattr rest k v
  end.

(** [getattr(o, k)] for an object made by [dict2obj], at an attribute that
    [dict2obj] set: the lookup in the table of the attributes set from the
    dictionary.  A class made by [type] has names of its own as well
    ([__name__], [__doc__], [__module__], those of [object]); they are not
    in the table, and the properties below read attributes at keys of the
    dictionary only. *)
Definition getattr (o : value) (k : string) : option value :=
  match o with
  | VObj attrs => alist_get k attrs
  | _ => None
  end.

(** [dict2obj(v) if isinstance(v, dict) else v].  On a dictionary this is the
    body of [dict2obj]: [type('dict2obj', (object,), d)] starts the attribute
    table as a copy of [d], then the loop over [d.items()] sets each key. *)
Fixpoint dict2obj_if_dict (v : value) : value :=
  match v with
  | VDict d =>
      VObj (fold_left
              (fun top kv =>
                 let '(k, v) := kv in
                 match v with
                 | VDict _ => setattr top k (dict2obj_if_dict v)
                 | VTuple xs => setattr top k (VTuple (map dict2obj_if_dict xs))
                 | VList xs => setattr top k (VList (map dict2obj_if_dict xs))
                 | VSet xs => setattr top k (VSet (map dict2obj_if_dict xs))
                 | VFrozenset xs => setattr top k (VFrozenset (map dict2obj_if_dict xs))
                 | _ => setattr top k v
                 end)
              d d)
  | _ => v
  end.

Definition dict2obj (d : list (string * value)) : value :=
  dict2obj_if_dict (VDict d).

(** [dict2obj(row)] as a call: [type(name, bases, d)] wants a dictionary. *)
Definition dict2obj_call (row : value) : M value :=
  match row with
  | VDict d => ret (dict2obj d)
  | _ => raise TypeError
  end.

(** [len(row)] *)
Definition py_len (row : value) : M nat :=
  match row with
  | VStr s => ret (String.length s)
  | VDict items => ret (length items)
  | VTuple xs | VList xs | VSet xs | VFrozenset xs => ret (length xs)
  | VNone | VInt _ | VObj _ => raise TypeError
  end.

(** [row[0]]: position 0 of a sequence; for a dictionary the key 0, which a
    row keyed by column names does not have. *)
Definition py_getitem0 (row : value) : M value :=
  match row with
  | VTuple xs | VList xs =>
      match xs with
      | x :: _ => ret x
      | [] => raise IndexError
      end
  | VStr s =>
      match s with
      | String a _ => ret (VStr (String a EmptyString))
      | EmptyString => raise IndexError
      end
  | VDict _ => raise KeyError
  | VNone | VInt _ | VSet _ | VFrozenset _ | VObj _ => raise TypeError
  end.

(** [if len(row) == 1: value = row[0] else: value = row] *)
Definition row_value (row : value) : M value :=
  n <- py_len row ;;
  if Nat.eqb n 1 then py_getitem0 row else ret row.

(** ** Query helpers *)

Section Helpers.

Variable fuel : nat.
Variable cfg : Config.
Variable env : Env.
Variable current_thread : nat.

(** The block [# get a cursor] that opens every helper.  The helpers differ
    in the argument of [.cursor(...)] only, here [cursorclass].  Returns
    [local_cursor], [cursor] and the keyword arguments that are left. *)
Definition get_a_cursor (cursorclass : option CursorClass) (kwargs : Kwargs)
  : M (option nat * nat * Kwargs) :=
  match kw_connection kwargs with
  | Some conn =>
      cursor <- connection_cursor env conn cursorclass ;;
      ret (Some cursor, cursor,
           {| kw_connection := None; kw_cursor := kw_cursor kwargs |})
  | None =>
      match kw_cursor kwargs with
      | Some cursor => ret (None, cursor, no_kwargs)
      | None =>
          conn <- get_connection fuel cfg env current_thread ;;
          cursor <- connection_cursor env conn cursorclass ;;
          ret (Some cursor, cursor, kwargs)
      end
  end.

(** [if local_cursor: local_cursor.close()] *)
Definition close_local (local_cursor : option nat) : M unit :=
  match local_cursor with
  | Some k => cursor_close k
  | None => ret tt
  end.

(** [for i in range(count): row = cursor.fetchone(); rslt.append(row)],
    with [k] the number of iterations of [range(count)]. *)
Fixpoint fetch_rows (k : nat) (cursor : nat) : M (list value) :=
  match k with
  | O => ret []
  | S k' =>
      row <- cursor_fetchone cursor ;;
      rslt <- fetch_rows k' cursor ;;
      ret (row :: rslt)
  end.

Definition execute (args : Args) (kwargs : Kwargs) : M Z :=
  r <- get_a_cursor (Some (db_cursor_class cfg)) kwargs ;;
  let '(local_cursor, cursor, kwargs) := r in
  rslt <- cursor_execute env cursor args kwargs ;;
  close_local local_cursor ;;;
  ret rslt.

Definition fetch_one (args : Args) (kwargs : Kwargs) : M value :=
  r <- get_a_cursor (Some (db_cursor_class cfg)) kwargs ;;
  let '(local_cursor, cursor, kwargs) := r in
  count <- cursor_execute env cursor args kwargs ;;
  rslt <- cursor_fetchone cursor ;;
  close_local local_cursor ;;;
  ret rslt.

Definition fetch_all (args : Args) (kwargs : Kwargs) : M (list value) :=
  r <- get_a_cursor (Some (db_cursor_class cfg)) kwargs ;;
  let '(local_cursor, cursor, kwargs) := r in
  count <- cursor_execute env cursor args kwargs ;;
  rslt <- fetch_rows (Z.to_nat count) cursor ;;
  close_local local_cursor ;;;
  ret rslt.

Definition fetch_n (n : Z) (args : Args) (kwargs : Kwargs) : M (list value) :=
  r <- get_a_cursor (Some (db_cursor_class cfg)) kwargs ;;
  let '(local_cursor, cursor, kwargs) := r in
  count <- cursor_execute env cursor args kwargs ;;
  let count := if (count >? n)%Z then n else count in
  rslt <- fetch_rows (Z.to_nat count) cursor ;;
  close_local local_cursor ;;;
  ret rslt.

(** [for i in range(count): row = cursor.fetchone(); ...; valueList.append(value)] *)
Fixpoint fetch_row_values (k : nat) (cursor : nat) : M (list value) :=
  match k with
  | O => ret []
  | S k' =>
      row <- cursor_fetchone cursor ;;
      value <- row_value row ;;
      valueList <- fetch_row_values k' cursor ;;
      ret (value :: valueList)
  end.

Definition fetch_value (args : Args) (kwargs : Kwargs) : M value :=
  r <- get_a_cursor None kwargs ;;
  let '(local_cursor, cursor, kwargs) := r in
  count <- cursor_execute env cursor args no_kwargs ;;
  value <- (if (count =? 0)%Z then ret VNone
            else row <- cursor_fetchone cursor ;; row_value row) ;;
  close_local local_cursor ;;;
  ret value.

Definition fetch_values (args : Args) (kwargs : Kwargs) : M (list value) :=
  r <- get_a_cursor None kwargs ;;
  let '(local_cursor, cursor, kwargs) := r in
  count <- cursor_execute env cursor args no_kwargs ;;
  valueList <- fetch_row_values (Z.to_nat count) cursor ;;
  close_local local_cursor ;;;
  ret valueList.

(** *** Generators

    A generator object is a small machine.  Nothing runs when the generator
    function is called; the first [next] runs the body up to the first
    [yield].  [next] returns [Some v] for a yielded value and [None] for
    StopIteration, with the state of the generator after it.  An exception
    raised by the body ends the generator. *)
Inductive Generator : Type :=
| GenCreated (args : Args) (kwargs : Kwargs)
| GenSuspended (local_cursor : option nat) (cursor : nat) (remaining : nat)
| GenFinished.

(** One turn of [for i in range(count): row = cursor.fetchone(); yield ...],
    and what follows the loop. *)
Definition generator_loop (shape : value -> M value)
    (local_cursor : option nat) (cursor : nat) (remaining : nat)
  : M (option value * Generator) :=
  match remaining with
  | S r =>
      row <- cursor_fetchone cursor ;;
      v <- shape row ;;
      ret (Some v, GenSuspended local_cursor cursor r)
  | O =>
      close_local local_cursor ;;;
      ret (None, GenFinished)
  end.

Definition generator_next (cursorclass : option CursorClass)
    (shape : value -> M value) (g : Generator) : M (option value * Generator) :=
  match g with
  | GenCreated args kwargs =>
      r <- get_a_cursor cursorclass kwargs ;;
      let '(local_cursor, cursor, kwargs) := r in
      count <- cursor_execute env cursor args kwargs ;;
      generator_loop shape local_cursor cursor (Z.to_nat count)
  | GenSuspended local_cursor cursor remaining =>
      generator_loop shape local_cursor cursor remaining
  | GenFinished => ret (None, GenFinished)
  end.

Definition yield_rows : Args -> Kwargs -> Generator := GenCreated.
Definition yield_rows_next : Generator -> M (option value * Generator) :=
  generator_next (Some (db_cursor_class cfg)) ret.

Definition yield_values : Args -> Kwargs -> Generator := GenCreated.
Definition yield_values_next : Generator -> M (option value * Generator) :=
  generator_next None row_value.

Definition yield_objects : Args -> Kwargs -> Generator := GenCreated.
Definition yield_objects_next : Generator -> M (option value * Generator) :=
  generator_next (Some (db_cursor_class cfg)) dict2obj_call.

(** [list(g)]: drive a generator to its end, at most [k] calls of [next]. *)
Fixpoint consume (next : Generator -> M (option value * Generator))
    (k : nat) (g : Generator) : M (list value) :=
  match k with
  | O => out_of_fuel
  | S k' =>
      r <- next g ;;
      match r with
      | (Some v, g') => vs <- consume next k' g' ;; ret (v :: vs)
      | (None, _) => ret []
      end
  end.

End Helpers.

(** * Vocabulary of the properties *)

(** A property of the state that a computation keeps, however it ends. *)
Definition preserves {A} (P : State -> Prop) (m : M A) : Prop :=
  forall s, P s -> P (snd (m s)).

(** A thread is in the activity map exactly when it is in the pool. *)
Definition pool_inv (s : State) : Prop :=
  dom (db_connection_activity s) =@{gset nat} dom (db_connection_pool s).

(** Whether the sweep evicts an entry. *)
Definition stale (env : Env) (timeout : Z) (th : nat) (thtime : Z) : bool :=
  negb (isAlive env th) || (thtime <? timeout)%Z.

(** The state after [evict] has run to its end on thread [th], whose
    connection was [c]: [c] is closed and [th] is in neither map. *)
Definition evicted (th c : nat) (s : State) : State :=
  set_activity (delete th (db_connection_activity s))
    (set_pool (delete th (db_connection_pool s))
       (set_closed (c :: closed_connections s) s)).

(** Inside the ping loop the calling thread keeps its place in the pool. *)
Definition pooled (th : nat) (s : State) : Prop :=
  pool_inv s /\ th ∈ dom (db_connection_pool s).

(** The part of [get_connection] after the sweep: find or make the
    connection of the calling thread, stamp it, release the lock. *)
Definition resolve (fuel : nat) (env : Env) (current_thread : nat) : M nat :=
  s <- get_state ;;
  db_connection <-
    match db_connection_pool s !! current_thread with
    | Some c => ping_loop fuel env current_thread 0 c
    | None =>
        c <- new_connection env 0 ;;
        pool_setitem current_thread c ;;;
        ret c
    end ;;
  activity_setitem current_thread (time_now env) ;;;
  lock_release ;;;
  ret db_connection.

(** A property that does not look at the cursors. *)
Definition cursor_blind (P : State -> Prop) : Prop :=
  forall s t n, P s -> P (set_cursors t n s).

(** The pool lock is held. *)
Definition locked (s : State) : Prop := db_connection_pool_lock s = true.

(** The calls a program can make on the module. *)
Inductive Call : Type :=
| CallGetConnection
| CallCloseConnections
| CallExecute (args : Args) (kwargs : Kwargs)
| CallFetchOne (args : Args) (kwargs : Kwargs)
| CallFetchAll (args : Args) (kwargs : Kwargs)
| CallFetchN (n : Z) (args : Args) (kwargs : Kwargs)
| CallFetchValue (args : Args) (kwargs : Kwargs)
| CallFetchValues (args : Args) (kwargs : Kwargs)
| CallNextRow (g : Generator)
| CallNextValue (g : Generator)
| CallNextObject (g : Generator).

(** The state a call leaves, whatever its outcome; [th] is the calling thread
    and [env] what the world answers during the call. *)
Definition run_call (cfg : Config) (fuel : nat) (env : Env) (th : nat)
    (c : Call) (s : State) : State :=
  match c with
  | CallGetConnection => snd (get_connection fuel cfg env th s)
  | CallCloseConnections => snd (close_connections env s)
  | CallExecute args kw => snd (execute fuel cfg env th args kw s)
  | CallFetchOne args kw => snd (fetch_one fuel cfg env th args kw s)
  | CallFetchAll args kw => snd (fetch_all fuel cfg env th args kw s)
  | CallFetchN n args kw => snd (fetch_n fuel cfg env th n args kw s)
  | CallFetchValue args kw => snd (fetch_value fuel cfg env th args kw s)
  | CallFetchValues args kw => snd (fetch_values fuel cfg env th args kw s)
  | CallNextRow g => snd (yield_rows_next fuel cfg env th g s)
  | CallNextValue g => snd (yield_values_next fuel cfg env th g s)
  | CallNextObject g => snd (yield_objects_next fuel cfg env th g s)
  end.

(** The states the module can be in between two calls, starting from the
    state at import. *)
Inductive reachable (cfg : Config) : State -> Prop :=
| reach_init : reachable cfg initial_state
| reach_step s fuel env th c :
    reachable cfg s -> reachable cfg (run_call cfg fuel env th c s).

(** The sweep only removes entries and only adds to the closed connections. *)
Definition shrinks (s0 s : State) : Prop :=
  db_connection_pool s ⊆ db_connection_pool s0 /\
  db_connection_activity s ⊆ db_connection_activity s0 /\
  closed_connections s0 ⊆ closed_connections s.

(** The same environment with other threads alive. *)
Definition set_isAlive (alive : nat -> bool) (env : Env) : Env :=
  {| time_now := time_now env;
     isAlive := alive;
     conn_close := conn_close env;
     conn_ping := conn_ping env;
     conn_cursorclass := conn_cursorclass env;
     connect := connect env;
     run_statement := run_statement env |}.

(** A later moment: the state after any further calls on the module. *)
Fixpoint run_calls (cfg : Config) (calls : list (nat * Env * nat * Call))
    (s : State) : State :=
  match calls with
  | [] => s
  | (fuel, env, th, c) :: rest => run_calls cfg rest (run_call cfg fuel env th c s)
  end.

(** State [s] has the cursors of [s0]: none was made, none was changed. *)
Definition same_cursors (s0 s : State) : Prop :=
  cursor_table s = cursor_table s0 /\ next_cursor s = next_cursor s0.

(** The class of the cursor that [conn.cursor] makes, by its [cursorclass]
    argument. *)
Definition class_of (env : Env) (conn : nat) (cursorclass : option CursorClass)
  : CursorClass :=
  match cursorclass with
  | Some c => c
  | None => conn_cursorclass env conn
  end.

(** A cursor as [connection.cursor] makes it. *)
Definition new_cursor (conn : nat) (cls : CursorClass) : CursorState :=
  {| cursor_connection := conn; cursor_class := cls;
     cursor_pending := []; cursor_closed := false |}.

(** The state with [cs] as the state of cursor [k]. *)
Definition put_cursor (k : nat) (cs : CursorState) (s : State) : State :=
  set_cursors (<[k := cs]> (cursor_table s)) (next_cursor s) s.

(** A helper owns its cursor unless [cursor=...] was given without
    [connection=...]. *)
Definition owns_cursor (kwargs : Kwargs) : Prop :=
  kw_connection kwargs = None -> kw_cursor kwargs = None.

(** What the specification asks of a row: the bare value of a row with one
    column, the whole row (as its cursor presents it) otherwise. *)
Definition scalar_or_row (cls : CursorClass) (r : RawRow) : value :=
  match r with
  | [(_, v)] => v
  | _ => shape_row cls r
  end.

(** A helper closes the cursor it made before it returns. *)
Definition closes_own_cursor {A} (kwargs : Kwargs) (helper : M A) : Prop :=
  forall s v s',
    owns_cursor kwargs ->
    helper s = (Returns v, s') ->
    exists cs, cursor_table s' !! next_cursor s = Some cs /\ cursor_closed cs = true.

(** Cursor [k] exists and its state satisfies [Q]. *)
Definition cursor_has (Q : CursorState -> Prop) (k : nat) (s : State) : Prop :=
  exists cs, cursor_table s !! k = Some cs /\ Q cs.

(** Cursor [k] exists and has class [cls]. *)
Definition has_class (k : nat) (cls : CursorClass) : State -> Prop :=
  cursor_has (fun cs => cursor_class cs = cls) k.

(** Cursor [k] exists and has not been closed. *)
Definition is_open (k : nat) : State -> Prop :=
  cursor_has (fun cs => cursor_closed cs = false) k.

(** After the call either no cursor was made (the pool gave no connection)
    or the cursor the helper made has class [cls]. *)
Definition own_cursor_class {A} (cls : CursorClass) (kwargs : Kwargs) (helper : M A)
  : Prop :=
  forall s,
    owns_cursor kwargs ->
    same_cursors s (snd (helper s)) \/ has_class (next_cursor s) cls (snd (helper s)).

(** The positional form of a row. *)
Definition positional (r : RawRow) : value := VTuple (map snd r).

(** A cursor made by [conn.cursor()] without a class: it has the cursor
    class of its connection, and its connection is the one given as
    [connection=...] when there is one. *)
Definition made_from (env : Env) (kwargs : Kwargs) (cs : CursorState) : Prop :=
  cursor_class cs = conn_cursorclass env (cursor_connection cs) /\
  forall conn, kw_connection kwargs = Some conn -> cursor_connection cs = conn.

(** After the call either no cursor was made (the pool gave no connection)
    or the cursor the helper made has the class of its connection. *)
Definition own_cursor_connection_class {A} (env : Env) (kwargs : Kwargs) (helper : M A)
  : Prop :=
  forall s,
    owns_cursor kwargs ->
    same_cursors s (snd (helper s)) \/
    cursor_has (made_from env kwargs) (next_cursor s) (snd (helper s)).

(** The connection a helper that owns its cursor works on: the one given as
    [connection=...], or else the one the pool returns. *)
Definition connection_used (fuel : nat) (cfg : Config) (env : Env) (th : nat)
    (kwargs : Kwargs) (s : State) (conn : nat) : Prop :=
  match kw_connection kwargs with
  | Some c => conn = c
  | None => exists s0, get_connection fuel cfg env th s = (Returns conn, s0)
  end.

(** The three value helpers give the rows in the form [shape]: fetch_value
    the first row or None, fetch_values every row, yield_values every row. *)
Definition value_helpers_give (fuel : nat) (cfg : Config) (env : Env) (th : nat)
    (args : Args) (kwargs : Kwargs) (s : State) (shape : RawRow -> value)
    (rows : list RawRow) : Prop :=
  (exists s', fetch_value fuel cfg env th args kwargs s =
     (Returns match rows with
              | [] => VNone
              | r :: _ => shape r
              end, s')) /\
  (exists s', fetch_values fuel cfg env th args kwargs s =
     (Returns (map shape rows), s')) /\
  (kw_cursor kwargs = None ->
   exists s', consume (yield_values_next fuel cfg env th) (S (length rows))
                (yield_values args kwargs) s =
     (Returns (map shape rows), s')).

(** An exception leaves the computation with cursor [k] still open. *)
Definition open_on_raise {A} (k : nat) (m : M A) : Prop :=
  forall s e s', is_open k s -> m s = (Raises e, s') -> is_open k s'.

(** When an exception leaves the helper, either no cursor was made (the
    exception came from the pool) or the cursor the helper made is open. *)
Definition leaves_own_cursor_open {A} (kwargs : Kwargs) (helper : M A) : Prop :=
  forall s e s',
    owns_cursor kwargs ->
    helper s = (Raises e, s') ->
    same_cursors s s' \/ is_open (next_cursor s) s'.

(** The attribute the specification asks for, value by value: a mapping
    among the elements of a collection is converted, any other element is
    passed on. *)
Definition convert_element (sj : value) : value :=
  match sj with
  | VDict d => dict2obj d
  | _ => sj
  end.

(** [dict2obj] of a mapping; a collection of the same kind with its elements
    converted; any other value as it is. *)
Definition expected_attribute (v : value) : value :=
  match v with
  | VDict d => dict2obj d
  | VTuple xs => VTuple (map convert_element xs)
  | VList xs => VList (map convert_element xs)
  | VSet xs => VSet (map convert_element xs)
  | VFrozenset xs => VFrozenset (map convert_element xs)
  | _ => v
  end.

(** The loop [for k, v in d.items(): setattr(top, k, f(v))]. *)
Definition set_loop (f : value -> value) (l top : list (string * value))
  : list (string * value) :=
  fold_left (fun top kv => let '(k, v) := kv in setattr top k (f v)) l top.

(** ** Vocabulary of the further properties *)

(** No entry of the activity map is stale for this clock and these threads. *)
Definition all_fresh (env : Env) (timeout : Z) (s : State) : Prop :=
  forall th thtime,
    db_connection_activity s !! th = Some thtime ->
    stale env timeout th thtime = false.

(** The state in which [get_connection] leaves a pool it did not sweep
    anything from: [c] is the connection of [th], stamped [now], lock free. *)
Definition installed (th c : nat) (now : Z) (s : State) : State :=
  set_lock false
    (set_activity (<[th := now]> (db_connection_activity s))
       (set_pool (<[th := c]> (db_connection_pool s)) s)).

(** State [s] has the pool of [s0]: same maps, same lock, same closed
    connections. *)
Definition same_pool (s0 s : State) : Prop :=
  db_connection_pool s = db_connection_pool s0 /\
  db_connection_activity s = db_connection_activity s0 /\
  db_connection_pool_lock s = db_connection_pool_lock s0 /\
  closed_connections s = closed_connections s0.

(** The computation comes to an end by itself: it returns or raises, it does
    not wait for the lock and does not loop. *)
Definition settles {A} (m : M A) : Prop :=
  forall s, (exists a, fst (m s) = Returns a) \/ (exists e, fst (m s) = Raises e).

(** The helper leaves the pool alone and comes to an end. *)
Definition bypasses_pool {A} (helper : M A) : Prop :=
  (forall s, same_pool s (snd (helper s))) /\ settles helper.

(** [connection=...] or [cursor=...] was given. *)
Definition has_connection_or_cursor (kwargs : Kwargs) : Prop :=
  is_Some (kw_connection kwargs) \/ is_Some (kw_cursor kwargs).

(** State [s] has the cursor objects of [s0], each closed or open as it was. *)
Definition cursors_kept (s0 s : State) : Prop :=
  next_cursor s = next_cursor s0 /\
  forall k, cursor_closed <$> cursor_table s !! k
            = cursor_closed <$> cursor_table s0 !! k.

(** The helper makes no cursor and closes none. *)
Definition keeps_cursors {A} (helper : M A) : Prop :=
  forall s, cursors_kept s (snd (helper s)).

(** The helper waits for the pool lock and changes nothing. *)
Definition blocks_on_lock {A} (helper : M A) : Prop :=
  forall s, locked s -> helper s = (Blocks, s).

(** The helper makes its cursor from the connection given, the client
    refuses the keyword [cursor], and the cursor made is left open. *)
Definition refuses_cursor_keyword {A} (helper : M A) : Prop :=
  forall s, fst (helper s) = Raises TypeError /\ is_open (next_cursor s) (snd (helper s)).

(** [cursor=...] was given and [connection=...] was not: the helper works on
    the caller's cursor. *)
Definition only_cursor (kwargs : Kwargs) : Prop :=
  kw_connection kwargs = None /\ is_Some (kw_cursor kwargs).

(** A generator that works on a cursor of the caller. *)
Definition borrowing (g : Generator) : Prop :=
  match g with
  | GenCreated _ kwargs => only_cursor kwargs
  | GenSuspended local_cursor _ _ => local_cursor = None
  | GenFinished => True
  end.

(** A call of [next] on a borrowing generator makes no cursor, closes none,
    and leaves a borrowing generator. *)
Definition next_keeps_cursors (next : Generator -> M (option value * Generator)) : Prop :=
  forall g, borrowing g ->
    keeps_cursors (next g) /\
    forall s v g' s', next g s = (Returns (v, g'), s') -> borrowing g'.

(** The state after [connection.cursor] has made a cursor. *)
Definition cursor_made (env : Env) (conn : nat) (cc : option CursorClass) (s : State)
  : State :=
  set_cursors (<[next_cursor s := new_cursor conn (class_of env conn cc)]> (cursor_table s))
    (S (next_cursor s)) s.



(** A value that [dict2obj] passes on as it is. *)
Definition plain (v : value) : Prop :=
  match v with
  | VNone | VInt _ | VStr _ | VObj _ => True
  | VDict _ | VTuple _ | VList _ | VSet _ | VFrozenset _ => False
  end.

(** The connections closed so far are those closed at the start and
    connections of stale entries. *)
Definition closed_only_stale (env : Env) (timeout : Z) (s0 s : State) : Prop :=
  shrinks s0 s /\
  forall c, c ∈ closed_connections s ->
    c ∈ closed_connections s0 \/
    exists th thtime,
      db_connection_pool s0 !! th = Some c /\
      db_connection_activity s0 !! th = Some thtime /\
      stale env timeout th thtime = true.

(** * Environments and states for concrete runs *)

(** A quiet environment: every thread alive, nothing fails, the i-th
    [connect] returns connection [100 + i]. *)
Definition quiet_env (now : Z) : Env :=
  {| time_now := now;
     isAlive := fun _ => true;
     conn_close := fun _ => None;
     conn_ping := fun _ => None;
     conn_cursorclass := fun _ => default_cursor_class;
     connect := fun i => Connected (100 + i);
     run_statement := fun _ => Executed 0 [] |}.

(** The statement returns one row of one column. *)
Definition one_row_env : Env :=
  {| time_now := 1000;
     isAlive := fun _ => true;
     conn_close := fun _ => None;
     conn_ping := fun _ => None;
     conn_cursorclass := fun _ => default_cursor_class;
     connect := fun i => Connected (100 + i);
     run_statement := fun _ => Executed 1 [Fetched [("row_int"%string, VInt 100)]] |}.

(** The state in which a caller holds cursor 0, made with
    [connection.cursor(cursorclass=DictCursor)] on a connection of its own. *)
Definition dict_cursor_state : State :=
  snd (connection_cursor (quiet_env 0) 5 (Some DictCursor) initial_state).

Definition select_row_int : Args :=
  ("select row_int from TestTable where row_str = %s"%string, [VStr "a"]).

Definition with_cursor (k : nat) : Kwargs :=
  {| kw_connection := None; kw_cursor := Some k |}.

(** A statement the server rejects, and one whose second fetch fails. *)
Definition failing_statement_env : Env :=
  {| time_now := 1000;
     isAlive := fun _ => true;
     conn_close := fun _ => None;
     conn_ping := fun _ => None;
     conn_cursorclass := fun _ => default_cursor_class;
     connect := fun i => Connected (100 + i);
     run_statement := fun _ => ExecRaises (ClientError 1064) |}.

Definition failing_fetch_env : Env :=
  {| time_now := 1000;
     isAlive := fun _ => true;
     conn_close := fun _ => None;
     conn_ping := fun _ => None;
     conn_cursorclass := fun _ => default_cursor_class;
     connect := fun i => Connected (100 + i);
     run_statement := fun _ =>
       Executed 2 [Fetched [("row_int"%string, VInt 100)]; FetchRaises (ClientError 2013)] |}.

Definition select_all : Args := ("select * from TestTable"%string, []).

(** Thread 1 took a connection at time 0 and thread 2 at time 500; at time
    1000 thread 2 is dead and thread 1 has been idle past the timeout. *)
Definition two_threads : State :=
  snd (get_connection 1 default_config
         {| time_now := 500; isAlive := fun _ => true; conn_close := fun _ => None;
            conn_ping := fun _ => None;
            conn_cursorclass := fun _ => default_cursor_class;
            connect := fun _ => Connected 200;
            run_statement := fun _ => Executed 0 [] |} 2
         (snd (get_connection 1 default_config (quiet_env 0) 1 initial_state))).

Definition thread_2_dead : Env :=
  {| time_now := 1000;
     isAlive := fun th => negb (Nat.eqb th 2);
     conn_close := fun _ => None;
     conn_ping := fun _ => None;
     conn_cursorclass := fun _ => default_cursor_class;
     connect := fun i => Connected (300 + i);
     run_statement := fun _ => Executed 0 [] |}.

(** The rows of the test table below 200, with both columns and with the
    first column only. *)
Definition test_rows : list RawRow :=
  [ [("row_int", VInt 100); ("row_str", VStr "a")];
    [("row_int", VInt 110); ("row_str", VStr "aa")];
    [("row_int", VInt 111); ("row_str", VStr "aaa")] ]%string.

Definition test_ints : list RawRow :=
  [ [("row_int", VInt 100)]; [("row_int", VInt 110)]; [("row_int", VInt 111)];
    [("row_int", VInt 112)]; [("row_int", VInt 120)] ]%string.

Definition test_rows_env : Env :=
  {| time_now := 1000;
     isAlive := fun _ => true;
     conn_close := fun _ => None;
     conn_ping := fun _ => None;
     conn_cursorclass := fun _ => default_cursor_class;
     connect := fun i => Connected (100 + i);
     run_statement := fun _ => Executed 3 (map Fetched test_rows) |}.

Definition test_ints_env : Env :=
  {| time_now := 1000;
     isAlive := fun _ => true;
     conn_close := fun _ => None;
     conn_ping := fun _ => None;
     conn_cursorclass := fun _ => default_cursor_class;
     connect := fun i => Connected (100 + i);
     run_statement := fun _ => Executed 5 (map Fetched test_ints) |}.

Definition with_connection (c : nat) : Kwargs :=
  {| kw_connection := Some c; kw_cursor := None |}.

Definition sample_dict : list (string * value) :=
  [ ("row_int", VInt 100);
    ("tags", VList [VDict [("a", VInt 1)]; VInt 2]);
    ("owner", VDict [("name", VStr "x"); ("ids", VTuple [VInt 1; VDict []])]) ]%string.

(** The server refuses connections. *)
Definition no_server : Env :=
  {| time_now := 1000;
     isAlive := fun _ => true;
     conn_close := fun _ => None;
     conn_ping := fun _ => None;
     conn_cursorclass := fun _ => default_cursor_class;
     connect := fun _ => ConnectRaises OperationalError;
     run_statement := fun _ => Executed 0 [] |}.

(** Thread 7 took connection 100 at time 1000. *)
Definition one_thread : State :=
  snd (get_connection 1 default_config (quiet_env 1000) 7 initial_state).

(** Connection 100 has gone away; the server gives connection 300, which
    answers. *)
Definition connection_lost : Env :=
  {| time_now := 1100;
     isAlive := fun _ => true;
     conn_close := fun _ => None;
     conn_ping := fun c => if Nat.eqb c 100 then Some OperationalError else None;
     conn_cursorclass := fun _ => default_cursor_class;
     connect := fun _ => Connected 300;
     run_statement := fun _ => Executed 0 [] |}.

(** Every connection the server gives fails its ping. *)
Definition every_ping_fails : Env :=
  {| time_now := 1100;
     isAlive := fun _ => true;
     conn_close := fun _ => None;
     conn_ping := fun _ => Some OperationalError;
     conn_cursorclass := fun _ => default_cursor_class;
     connect := fun i => Connected (300 + i);
     run_statement := fun _ => Executed 0 [] |}.

(** A statement that changes two rows: a count and no row to fetch. *)
Definition update_env : Env :=
  {| time_now := 1000;
     isAlive := fun _ => true;
     conn_close := fun _ => None;
     conn_ping := fun _ => None;
     conn_cursorclass := fun _ => default_cursor_class;
     connect := fun i => Connected (100 + i);
     run_statement := fun _ => Executed 2 [] |}.

Definition update_rows : Args :=
  ("update TestTable set row_str = %s where row_int < %s"%string, [VStr "z"; VInt 111]).

(** The close of connection 200 fails, any other close returns. *)
Definition close_200_fails : Env :=
  {| time_now := 2000;
     isAlive := fun _ => true;
     conn_close := fun c => if Nat.eqb c 200 then Some (ClientError 2006) else None;
     conn_ping := fun _ => None;
     conn_cursorclass := fun _ => default_cursor_class;
     connect := fun i => Connected (100 + i);
     run_statement := fun _ => Executed 0 [] |}.

(** The environment [env] with every connection opened with
    [cursorclass=DictCursor]: given so by the caller, or by
    [db_connection_kwargs] for the connections of the pool. *)
Definition dict_connections (env : Env) : Env :=
  {| time_now := time_now env;
     isAlive := isAlive env;
     conn_close := conn_close env;
     conn_ping := conn_ping env;
     conn_cursorclass := fun _ => DictCursor;
     connect := connect env;
     run_statement := run_statement env |}.

Definition with_connection_and_cursor (c k : nat) : Kwargs :=
  {| kw_connection := Some c; kw_cursor := Some k |}.

Definition test_row : list (string * value) :=
  [("row_int", VInt 100); ("row_str", VStr "a")]%string.

(** * Properties *)

(** ** Reasoning about the monad *)

Lemma bind_returns_inv {A B} (m : M A) (k : A -> M B) s b s' :
  bind m k s = (Returns b, s') ->
  exists a s1, m s = (Returns a, s1) /\ k a s1 = (Returns b, s').
Proof.
  unfold bind. destruct (m s) as [[a| | |] s1]; intros H; try discriminate.
  exists a, s1. split; [reflexivity | exact H].
Qed.

Lemma bind_raises_inv {A B} (m : M A) (k : A -> M B) s e s' :
  bind m k s = (Raises e, s') ->
  m s = (Raises e, s') \/
  exists a s1, m s = (Returns a, s1) /\ k a s1 = (Raises e, s').
Proof.
  unfold bind. destruct (m s) as [[a| | |] s1]; intros H; try discriminate.
  - right. exists a, s1. split; [reflexivity | exact H].
  - left. congruence.
Qed.

Lemma preserves_ret {A} P (a : A) : preserves P (ret a).
Proof. intros s H. exact H. Qed.

Lemma preserves_raise {A} P e : preserves P (@raise A e).
Proof. intros s H. exact H. Qed.

Lemma preserves_block {A} P : preserves P (@block A).
Proof. intros s H. exact H. Qed.

Lemma preserves_out_of_fuel {A} P : preserves P (@out_of_fuel A).
Proof. intros s H. exact H. Qed.

Lemma preserves_bind {A B} P (m : M A) (k : A -> M B) :
  preserves P m -> (forall a, preserves P (k a)) -> preserves P (bind m k).
Proof.
  intros Hm Hk s Hs. unfold bind.
  specialize (Hm s Hs). destruct (m s) as [[a| | |] s1]; simpl in *; auto.
  apply Hk. exact Hm.
Qed.

(** The same with the state read by [get_state] at hand. *)
Lemma preserves_get_state {B} (P : State -> Prop) (k : State -> M B) :
  (forall s, P s -> P (snd (k s s))) -> preserves P (bind get_state k).
Proof. intros H s Hs. unfold bind, get_state. apply H. exact Hs. Qed.

Lemma preserves_modify (P : State -> Prop) f :
  (forall s, P s -> P (f s)) -> preserves P (modify f).
Proof. intros H s Hs. apply H. exact Hs. Qed.

(** ** The pool invariant *)

Lemma sweep_step env timeout th thtime rest :
  sweep env timeout ((th, thtime) :: rest) =
  ((if stale env timeout th thtime then evict env th else ret tt) ;;;
   sweep env timeout rest).
Proof.
  unfold stale. simpl. destruct (isAlive env th); simpl; [|reflexivity].
  destruct (thtime <? timeout)%Z; reflexivity.
Qed.

Lemma evict_cases env th s :
  th ∈ dom (db_connection_activity s) ->
  match db_connection_pool s !! th with
  | None => evict env th s = (Raises KeyError, s)
  | Some c =>
      match conn_close env c with
      | Some e => evict env th s = (Raises e, s)
      | None => evict env th s = (Returns tt, evicted th c s)
      end
  end.
Proof.
  intros Hin. apply elem_of_dom in Hin as [t Ht].
  unfold evict, bind, get_state, getitem.
  destruct (db_connection_pool s !! th) as [c|] eqn:Hp; [|reflexivity].
  unfold ret, connection_close.
  destruct (conn_close env c) as [e|] eqn:Hc; [reflexivity|].
  unfold modify, pool_delitem, activity_delitem, bind, get_state, modify. simpl.
  rewrite Hp. simpl. rewrite Ht. reflexivity.
Qed.

Lemma pool_inv_evicted th c s : pool_inv s -> pool_inv (evicted th c s).
Proof.
  unfold pool_inv, evicted. simpl. intros H.
  rewrite !dom_delete_L. rewrite H. reflexivity.
Qed.

Lemma evict_pool_inv env th : preserves pool_inv (evict env th).
Proof.
  intros s Hs.
  destruct (decide (th ∈ dom (db_connection_activity s))) as [Hin|Hout].
  - pose proof (evict_cases env th s Hin) as H.
    destruct (db_connection_pool s !! th) as [c|]; [|rewrite H; exact Hs].
    destruct (conn_close env c); rewrite H; simpl; [exact Hs|].
    apply pool_inv_evicted, Hs.
  - assert (db_connection_pool s !! th = None) as Hp.
    { apply not_elem_of_dom. rewrite <- Hs. exact Hout. }
    unfold evict, bind, get_state, getitem. rewrite Hp. exact Hs.
Qed.

Lemma sweep_pool_inv env timeout items : preserves pool_inv (sweep env timeout items).
Proof.
  induction items as [|[th thtime] rest IH].
  - apply preserves_ret.
  - rewrite sweep_step. apply preserves_bind; [|intros _; exact IH].
    destruct (stale env timeout th thtime);
      [apply evict_pool_inv | apply preserves_ret].
Qed.

Lemma new_connection_state env i s : snd (new_connection env i s) = s.
Proof. unfold new_connection. destruct (connect env i); reflexivity. Qed.

Lemma preserves_new_connection P env i : preserves P (new_connection env i).
Proof. intros s H. rewrite new_connection_state. exact H. Qed.

Lemma pool_setitem_pooled th c : preserves (pooled th) (pool_setitem th c).
Proof.
  apply preserves_modify. intros s [Hinv Hin]. unfold pooled, pool_inv in *. simpl.
  rewrite dom_insert_L, (subseteq_union_1_L {[th]}); [tauto|].
  apply singleton_subseteq_l, Hin.
Qed.

Lemma ping_loop_pooled fuel env th i c : preserves (pooled th) (ping_loop fuel env th i c).
Proof.
  revert i c. induction fuel as [|fuel IH]; intros i c; simpl.
  - apply preserves_out_of_fuel.
  - destruct (conn_ping env c) as [[]|];
      try apply preserves_raise; try apply preserves_ret.
    apply preserves_bind; [apply preserves_new_connection|]. intros c'.
    apply preserves_bind; [apply pool_setitem_pooled|]. intros _. apply IH.
Qed.

Lemma activity_setitem_pooled th t s :
  pooled th s -> pool_inv (snd (activity_setitem th t s)).
Proof.
  intros [Hinv Hin]. unfold pool_inv in *. simpl.
  rewrite dom_insert_L, Hinv. apply subseteq_union_1_L, singleton_subseteq_l, Hin.
Qed.

Lemma get_connection_unfold fuel cfg env th :
  get_connection fuel cfg env th =
  (lock_acquire ;;;
   s <- get_state ;;
   sweep env (time_now env - db_connection_timeout cfg)
     (map_to_list (db_connection_activity s)) ;;;
   resolve fuel env th).
Proof. reflexivity. Qed.

Lemma resolve_pool_inv fuel env th : preserves pool_inv (resolve fuel env th).
Proof.
  intros s Hs. unfold resolve, bind at 1, get_state.
  destruct (db_connection_pool s !! th) as [c|] eqn:Hp.
  - assert (pooled th s) as Hps.
    { split; [exact Hs|]. apply elem_of_dom. eauto. }
    pose proof (ping_loop_pooled fuel env th 0 c s Hps) as H.
    unfold bind at 1. destruct (ping_loop fuel env th 0 c s) as [[c'| | |] s1];
      simpl in *; try apply H.
    apply (activity_setitem_pooled th (time_now env) s1 H).
  - unfold new_connection. destruct (connect env 0) as [c| |e]; simpl; try exact Hs.
    unfold pool_inv in *. simpl. rewrite !dom_insert_L, Hs. reflexivity.
Qed.

Lemma get_connection_pool_inv fuel cfg env th :
  preserves pool_inv (get_connection fuel cfg env th).
Proof.
  rewrite get_connection_unfold. intros s Hs.
  unfold lock_acquire, bind at 1 2, get_state.
  destruct (db_connection_pool_lock s); simpl; [exact Hs|].
  apply (preserves_bind pool_inv (sweep _ _ _) (fun _ => resolve fuel env th)).
  - apply sweep_pool_inv.
  - intros _. apply resolve_pool_inv.
  - exact Hs.
Qed.

Lemma close_all_frame env items s :
  let s' := snd (close_all env items s) in
  db_connection_pool s' = db_connection_pool s /\
  db_connection_activity s' = db_connection_activity s /\
  db_connection_pool_lock s' = db_connection_pool_lock s /\
  cursor_table s' = cursor_table s /\
  next_cursor s' = next_cursor s.
Proof.
  revert s. induction items as [|[t c] rest IH]; intros s; simpl; [auto|].
  unfold bind, connection_close. destruct (conn_close env c); simpl; [auto|].
  apply (IH (set_closed (c :: closed_connections s) s)).
Qed.

Lemma close_connections_frame env s :
  let s' := snd (close_connections env s) in
  db_connection_pool s' = db_connection_pool s /\
  db_connection_activity s' = db_connection_activity s /\
  db_connection_pool_lock s' = db_connection_pool_lock s /\
  cursor_table s' = cursor_table s /\
  next_cursor s' = next_cursor s.
Proof. apply close_all_frame. Qed.

Lemma close_connections_pool_inv env : preserves pool_inv (close_connections env).
Proof.
  intros s Hs. destruct (close_connections_frame env s) as (Hp & Ha & _).
  unfold pool_inv. rewrite Hp, Ha. exact Hs.
Qed.

(** ** Cursor operations and pool operations do not meet *)

Lemma preserves_get {P} : preserves P get_state.
Proof. intros s H. exact H. Qed.

(** Structural steps of a preservation proof. *)
Ltac preserves_step :=
  first
    [ apply preserves_ret | apply preserves_raise | apply preserves_block
    | apply preserves_out_of_fuel | apply preserves_get
    | apply preserves_bind; [|intros ?]
    | match goal with
      | |- preserves _ (match ?x with _ => _ end) => destruct x
      end
    | assumption ].

Lemma pool_inv_cursor_blind : cursor_blind pool_inv.
Proof. intros s t n H. exact H. Qed.

Lemma locked_cursor_blind : cursor_blind locked.
Proof. intros s t n H. exact H. Qed.

Section CursorFrame.

Variable P : State -> Prop.
Hypothesis P_blind : cursor_blind P.

Lemma preserves_connection_cursor env conn cc :
  preserves P (connection_cursor env conn cc).
Proof.
  unfold connection_cursor. apply preserves_bind; [apply preserves_get|]. intros s0.
  apply preserves_bind; [|intros; apply preserves_ret].
  apply preserves_modify. intros s. apply P_blind.
Qed.

Lemma preserves_the_cursor k : preserves P (the_cursor k).
Proof. unfold the_cursor. repeat preserves_step. Qed.

Lemma preserves_update_cursor k cs : preserves P (update_cursor k cs).
Proof. apply preserves_modify. intros s. apply P_blind. Qed.

Lemma preserves_cursor_execute env k args kw : preserves P (cursor_execute env k args kw).
Proof.
  unfold cursor_execute.
  repeat first [apply preserves_the_cursor | apply preserves_update_cursor | preserves_step].
Qed.

Lemma preserves_cursor_fetchone k : preserves P (cursor_fetchone k).
Proof.
  unfold cursor_fetchone.
  repeat first [apply preserves_the_cursor | apply preserves_update_cursor | preserves_step].
Qed.

Lemma preserves_cursor_close k : preserves P (cursor_close k).
Proof.
  unfold cursor_close.
  repeat first [apply preserves_the_cursor | apply preserves_update_cursor | preserves_step].
Qed.

Lemma preserves_close_local lc : preserves P (close_local lc).
Proof. destruct lc; [apply preserves_cursor_close | apply preserves_ret]. Qed.

Lemma preserves_row_value row : preserves P (row_value row).
Proof.
  intros s H. unfold row_value, bind, py_len, py_getitem0.
  destruct row as [| | [] | | [|? []] | [|? []] | | |]; simpl; try exact H;
    repeat match goal with |- context [if ?b then _ else _] => destruct b end;
    exact H.
Qed.

Lemma preserves_dict2obj_call row : preserves P (dict2obj_call row).
Proof. intros s H. destruct row; exact H. Qed.

Lemma preserves_fetch_rows j k : preserves P (fetch_rows j k).
Proof.
  induction j as [|j IH]; simpl;
    repeat first [apply preserves_cursor_fetchone | preserves_step].
Qed.

Lemma preserves_fetch_row_values j k : preserves P (fetch_row_values j k).
Proof.
  induction j as [|j IH]; simpl;
    repeat first [apply preserves_cursor_fetchone | apply preserves_row_value
                 | preserves_step].
Qed.

End CursorFrame.

(** Every helper keeps a property that [get_connection] keeps and that does
    not look at the cursors. *)
Section HelperFrame.

Variable P : State -> Prop.
Hypothesis P_blind : cursor_blind P.
Hypothesis P_get_connection :
  forall fuel cfg env th, preserves P (get_connection fuel cfg env th).

Variables (fuel : nat) (cfg : Config) (env : Env) (th : nat).

Ltac helper_frame :=
  repeat first
    [ apply P_get_connection
    | apply preserves_connection_cursor; assumption
    | apply preserves_cursor_execute; assumption
    | apply preserves_cursor_fetchone; assumption
    | apply preserves_close_local; assumption
    | apply preserves_fetch_rows; assumption
    | apply preserves_fetch_row_values; assumption
    | apply preserves_row_value; assumption
    | apply preserves_dict2obj_call; assumption
    | preserves_step ].

Lemma preserves_get_a_cursor cc kw : preserves P (get_a_cursor fuel cfg env th cc kw).
Proof. unfold get_a_cursor. helper_frame. Qed.

Lemma preserves_execute args kw : preserves P (execute fuel cfg env th args kw).
Proof.
  unfold execute. apply preserves_bind; [apply preserves_get_a_cursor|].
  intros [[lc k] kw']. helper_frame.
Qed.

Lemma preserves_fetch_one args kw : preserves P (fetch_one fuel cfg env th args kw).
Proof.
  unfold fetch_one. apply preserves_bind; [apply preserves_get_a_cursor|].
  intros [[lc k] kw']. helper_frame.
Qed.

Lemma preserves_fetch_all args kw : preserves P (fetch_all fuel cfg env th args kw).
Proof.
  unfold fetch_all. apply preserves_bind; [apply preserves_get_a_cursor|].
  intros [[lc k] kw']. helper_frame.
Qed.

Lemma preserves_fetch_n n args kw : preserves P (fetch_n fuel cfg env th n args kw).
Proof.
  unfold fetch_n. apply preserves_bind; [apply preserves_get_a_cursor|].
  intros [[lc k] kw']. helper_frame.
Qed.

Lemma preserves_fetch_value args kw : preserves P (fetch_value fuel cfg env th args kw).
Proof.
  unfold fetch_value. apply preserves_bind; [apply preserves_get_a_cursor|].
  intros [[lc k] kw']. helper_frame.
Qed.

Lemma preserves_fetch_values args kw : preserves P (fetch_values fuel cfg env th args kw).
Proof.
  unfold fetch_values. apply preserves_bind; [apply preserves_get_a_cursor|].
  intros [[lc k] kw']. helper_frame.
Qed.

Lemma preserves_generator_next cc shape g :
  (forall row, preserves P (shape row)) ->
  preserves P (generator_next fuel cfg env th cc shape g).
Proof.
  intros Hshape. unfold generator_next, generator_loop. destruct g.
  - apply preserves_bind; [apply preserves_get_a_cursor|].
    intros [[lc k] kw']. helper_frame. all: apply Hshape.
  - helper_frame. all: apply Hshape.
  - apply preserves_ret.
Qed.

End HelperFrame.

(** ** Reachable states *)

(** A property kept by the two pool functions and blind to cursors is kept
    by every call. *)
Lemma run_call_preserves (P : State -> Prop) :
  cursor_blind P ->
  (forall fuel cfg env th, preserves P (get_connection fuel cfg env th)) ->
  (forall env, preserves P (close_connections env)) ->
  forall cfg fuel env th c s, P s -> P (run_call cfg fuel env th c s).
Proof.
  intros Hb Hg Hc cfg fuel env th c s Hs. destruct c; simpl.
  - apply Hg, Hs.
  - apply Hc, Hs.
  - apply preserves_execute; assumption.
  - apply preserves_fetch_one; assumption.
  - apply preserves_fetch_all; assumption.
  - apply preserves_fetch_n; assumption.
  - apply preserves_fetch_value; assumption.
  - apply preserves_fetch_values; assumption.
  - unfold yield_rows_next. apply preserves_generator_next; try assumption.
    intros; apply preserves_ret.
  - unfold yield_values_next. apply preserves_generator_next; try assumption.
    intros; apply preserves_row_value; assumption.
  - unfold yield_objects_next. apply preserves_generator_next; try assumption.
    intros; apply preserves_dict2obj_call.
Qed.

(** C3: in every reachable state a thread identity is in the activity map
    if and only if it is in the connection map; in particular a call of
    get_connection (whether it evicts, creates, replaces or only stamps, and
    however it ends) and a call of close_connections lead from such a state
    to a state where this holds again. *)
Theorem pool_invariant_reachable (cfg : Config) (s : State) :
  reachable cfg s ->
  (forall th : nat,
     th ∈ dom (db_connection_activity s) <-> th ∈ dom (db_connection_pool s)) /\
  (forall fuel env th, pool_inv (snd (get_connection fuel cfg env th s))) /\
  (forall env, pool_inv (snd (close_connections env s))).
Proof.
  intros Hr.
  assert (pool_inv s) as Hinv.
  { induction Hr as [|s fuel env th c Hr IH].
    - reflexivity.
    - apply run_call_preserves; try assumption.
      + apply pool_inv_cursor_blind.
      + intros. apply get_connection_pool_inv.
      + intros. apply close_connections_pool_inv. }
  split; [|split].
  - intros th. unfold pool_inv in Hinv. rewrite Hinv. reflexivity.
  - intros. apply get_connection_pool_inv, Hinv.
  - intros. apply close_connections_pool_inv, Hinv.
Qed.

(** ** The eviction sweep *)

Lemma shrinks_refl s : shrinks s s.
Proof. repeat split; reflexivity. Qed.

Lemma evict_shrinks s0 env th : preserves (shrinks s0) (evict env th).
Proof.
  unfold evict. apply preserves_bind; [apply preserves_get|]. intros s1.
  apply preserves_bind; [unfold getitem; repeat preserves_step|]. intros c.
  apply preserves_bind; [|intros _; apply preserves_bind; [|intros _]].
  - unfold connection_close. destruct (conn_close env c); [apply preserves_raise|].
    apply preserves_modify. intros s (Hp & Ha & Hc). repeat split; try assumption.
    simpl. apply list_subseteq_cons, Hc.
  - unfold pool_delitem. apply preserves_get_state. intros s (Hp & Ha & Hc).
    destruct (db_connection_pool s !! th); simpl; repeat split; try assumption.
    etrans; [apply delete_subseteq|exact Hp].
  - unfold activity_delitem. apply preserves_get_state. intros s (Hp & Ha & Hc).
    destruct (db_connection_activity s !! th); simpl; repeat split; try assumption.
    etrans; [apply delete_subseteq|exact Ha].
Qed.

Lemma sweep_shrinks s0 env timeout items : preserves (shrinks s0) (sweep env timeout items).
Proof.
  induction items as [|[th thtime] rest IH].
  - apply preserves_ret.
  - rewrite sweep_step. apply preserves_bind; [|intros _; exact IH].
    destruct (stale env timeout th thtime);
      [apply evict_shrinks | apply preserves_ret].
Qed.

(** An entry the loop meets and finds stale is gone afterwards, and its
    connection has been closed. *)
Lemma sweep_evicts env timeout items : forall s s' th thtime,
  sweep env timeout items s = (Returns tt, s') ->
  (th, thtime) ∈ items ->
  stale env timeout th thtime = true ->
  db_connection_pool s' !! th = None /\
  db_connection_activity s' !! th = None /\
  exists c, db_connection_pool s !! th = Some c /\ c ∈ closed_connections s'.
Proof.
  induction items as [|[th0 t0] rest IH]; intros s s' th thtime Hrun Hin Hstale.
  - inversion Hin.
  - rewrite sweep_step in Hrun.
    apply bind_returns_inv in Hrun as ([] & s1 & Hhead & Hrest).
    pose proof (sweep_shrinks s1 env timeout rest s1 (shrinks_refl s1)) as Hsh.
    rewrite Hrest in Hsh. destruct Hsh as (Hp & Ha & Hc). simpl in *.
    apply elem_of_cons in Hin as [Heq|Hin].
    + injection Heq as -> ->. rewrite Hstale in Hhead.
      unfold evict, bind, get_state, getitem in Hhead.
      destruct (db_connection_pool s !! th0) as [c|] eqn:Hlook; [|discriminate].
      unfold ret, connection_close in Hhead.
      destruct (conn_close env c); [discriminate|].
      unfold modify, pool_delitem, activity_delitem, bind, get_state, modify in Hhead.
      simpl in Hhead. rewrite Hlook in Hhead. simpl in Hhead.
      destruct (db_connection_activity s !! th0); [|discriminate].
      injection Hhead as <-. simpl in *.
      split; [|split].
      * eapply lookup_weaken_None; [|exact Hp]. apply lookup_delete_eq.
      * eapply lookup_weaken_None; [|exact Ha]. apply lookup_delete_eq.
      * exists c. split; [reflexivity|]. apply Hc. left.
    + destruct (IH s1 s' th thtime Hrest Hin Hstale) as (H1 & H2 & c & H3 & H4).
      split; [exact H1|]. split; [exact H2|]. exists c. split; [|exact H4].
      assert (shrinks s s1) as (Hp1 & _).
      { destruct (stale env timeout th0 t0).
        - pose proof (evict_shrinks s env th0 s (shrinks_refl s)) as H.
          rewrite Hhead in H. exact H.
        - injection Hhead as <-. apply shrinks_refl. }
      eapply lookup_weaken; [exact H3|exact Hp1].
Qed.

(** An entry that is not stale wherever the loop meets it is left alone. *)
Lemma evict_other env th0 th (v : option nat) (w : option Z) :
  th0 <> th ->
  preserves (fun s => db_connection_pool s !! th = v /\
                      db_connection_activity s !! th = w) (evict env th0).
Proof.
  intros Hne. unfold evict.
  apply preserves_bind; [apply preserves_get|]. intros s1.
  apply preserves_bind; [unfold getitem; repeat preserves_step|]. intros c.
  apply preserves_bind; [|intros _; apply preserves_bind; [|intros _]].
  - unfold connection_close. destruct (conn_close env c); [apply preserves_raise|].
    apply preserves_modify. intros s H. exact H.
  - unfold pool_delitem. apply preserves_get_state. intros s [Hp Ha].
    destruct (db_connection_pool s !! th0); simpl; split; try assumption.
    rewrite lookup_delete_ne; assumption.
  - unfold activity_delitem. apply preserves_get_state. intros s [Hp Ha].
    destruct (db_connection_activity s !! th0); simpl; split; try assumption.
    rewrite lookup_delete_ne; assumption.
Qed.

Lemma sweep_keeps env timeout items th (v : option nat) (w : option Z) :
  (forall thtime, (th, thtime) ∈ items -> stale env timeout th thtime = false) ->
  preserves (fun s => db_connection_pool s !! th = v /\
                      db_connection_activity s !! th = w) (sweep env timeout items).
Proof.
  induction items as [|[th0 t0] rest IH]; intros Hfresh.
  - apply preserves_ret.
  - rewrite sweep_step. apply preserves_bind.
    + destruct (stale env timeout th0 t0) eqn:Hst; [|apply preserves_ret].
      apply evict_other. intros ->.
      rewrite Hfresh in Hst; [discriminate|left].
    + intros _. apply IH. intros thtime Hin. apply Hfresh. right. exact Hin.
Qed.

(** When the entries to visit are in both maps and the connections of the
    stale ones close without error, the sweep runs to its end. *)
Lemma sweep_total env timeout items : forall s,
  NoDup items.*1 ->
  (forall th thtime, (th, thtime) ∈ items ->
     th ∈ dom (db_connection_activity s) /\
     exists c, db_connection_pool s !! th = Some c /\
               (stale env timeout th thtime = true -> conn_close env c = None)) ->
  exists s', sweep env timeout items s = (Returns tt, s').
Proof.
  induction items as [|[th0 t0] rest IH]; intros s Hnd Hready.
  - exists s. reflexivity.
  - rewrite sweep_step. simpl in Hnd. apply NoDup_cons in Hnd as [Hnotin Hnd].
    destruct (Hready th0 t0) as (Hdom & c0 & Hc0 & Hclose); [left|].
    assert (exists s1, (if stale env timeout th0 t0 then evict env th0 else ret tt) s
                       = (Returns tt, s1) /\
              forall th, th <> th0 ->
                db_connection_pool s1 !! th = db_connection_pool s !! th /\
                db_connection_activity s1 !! th = db_connection_activity s !! th)
      as (s1 & Hs1 & Hsame).
    { destruct (stale env timeout th0 t0).
      - pose proof (evict_cases env th0 s Hdom) as H.
        rewrite Hc0, (Hclose eq_refl) in H.
        eexists. split; [exact H|]. intros th Hne. simpl.
        rewrite !lookup_delete_ne by congruence. auto.
      - exists s. split; [reflexivity|auto]. }
    destruct (IH s1 Hnd) as [s' Hs'].
    { intros th thtime Hin.
      assert (th <> th0) as Hne.
      { intros ->. apply Hnotin. apply list_elem_of_fmap. exists (th0, thtime). auto. }
      destruct (Hready th thtime) as (Hd & c & Hc & Hcl); [right; exact Hin|].
      destruct (Hsame th Hne) as [Hp Ha]. split.
      - apply elem_of_dom. rewrite Ha. apply elem_of_dom. exact Hd.
      - exists c. rewrite Hp. auto. }
    exists s'. unfold bind. rewrite Hs1. exact Hs'.
Qed.

Lemma stale_true env timeout th thtime :
  stale env timeout th thtime = true <->
  isAlive env th = false \/ (thtime < timeout)%Z.
Proof.
  unfold stale. rewrite orb_true_iff, negb_true_iff, Z.ltb_lt. reflexivity.
Qed.

(** With the lock free, the invariant in force and no failing close of a
    stale connection, [get_connection] is its sweep followed by [resolve]. *)
Lemma get_connection_after_sweep fuel cfg env th s :
  db_connection_pool_lock s = false ->
  pool_inv s ->
  (forall th c thtime,
     db_connection_pool s !! th = Some c ->
     db_connection_activity s !! th = Some thtime ->
     stale env (time_now env - db_connection_timeout cfg) th thtime = true ->
     conn_close env c = None) ->
  exists s1,
    sweep env (time_now env - db_connection_timeout cfg)
      (map_to_list (db_connection_activity s)) (set_lock true s) = (Returns tt, s1) /\
    get_connection fuel cfg env th s = resolve fuel env th s1.
Proof.
  intros Hlock Hinv Hclose.
  set (timeout := (time_now env - db_connection_timeout cfg)%Z) in *.
  destruct (sweep_total env timeout (map_to_list (db_connection_activity s))
              (set_lock true s)) as [s1 Hs1].
  { apply NoDup_fst_map_to_list. }
  { intros th' thtime Hin. apply elem_of_map_to_list in Hin. simpl.
    assert (th' ∈ dom (db_connection_activity s)) as Hd by (apply elem_of_dom; eauto).
    split; [exact Hd|]. rewrite Hinv in Hd. apply elem_of_dom in Hd as [c Hc].
    exists c. split; [exact Hc|]. intros Hst. eapply Hclose; eauto. }
  exists s1. split; [exact Hs1|].
  rewrite get_connection_unfold. unfold lock_acquire, bind at 1 2, get_state.
  rewrite Hlock. simpl. unfold bind at 1, get_state. unfold bind at 1.
  change (db_connection_activity (set_lock true s)) with (db_connection_activity s).
  fold timeout. rewrite Hs1. reflexivity.
Qed.

(** C1: a call of get_connection that finds the lock free, on a pool where
    the invariant holds and where closing a stale connection does not fail,
    completes its sweep in a state [s1] in which every entry whose thread is
    not alive or whose time stamp is below now minus the idle timeout has had
    its connection closed and is in neither map; only then, from [s1], is the
    connection of the calling thread looked up, pinged or created. *)
Theorem get_connection_evicts_first
    (fuel : nat) (cfg : Config) (env : Env) (current_thread : nat) (s : State) :
  db_connection_pool_lock s = false ->
  pool_inv s ->
  (forall th c thtime,
     db_connection_pool s !! th = Some c ->
     db_connection_activity s !! th = Some thtime ->
     stale env (time_now env - db_connection_timeout cfg) th thtime = true ->
     conn_close env c = None) ->
  exists s1,
    sweep env (time_now env - db_connection_timeout cfg)
      (map_to_list (db_connection_activity s)) (set_lock true s) = (Returns tt, s1) /\
    (forall th c thtime,
       db_connection_pool s !! th = Some c ->
       db_connection_activity s !! th = Some thtime ->
       isAlive env th = false \/
       (thtime < time_now env - db_connection_timeout cfg)%Z ->
       c ∈ closed_connections s1 /\
       db_connection_pool s1 !! th = None /\
       db_connection_activity s1 !! th = None) /\
    get_connection fuel cfg env current_thread s = resolve fuel env current_thread s1.
Proof.
  intros Hlock Hinv Hclose.
  destruct (get_connection_after_sweep fuel cfg env current_thread s Hlock Hinv Hclose)
    as (s1 & Hs1 & Hrest).
  exists s1. split; [exact Hs1|]. split; [|exact Hrest].
  intros th c thtime Hp Ha Hst. apply stale_true in Hst.
  destruct (sweep_evicts _ _ _ _ _ th thtime Hs1) as (H1 & H2 & c' & H3 & H4).
  { apply elem_of_map_to_list. exact Ha. }
  { exact Hst. }
  simpl in H3. rewrite Hp in H3. injection H3 as <-. auto.
Qed.

(** ** close_connections *)

Lemma close_all_total env items : forall s,
  (forall t c, (t, c) ∈ items -> conn_close env c = None) ->
  exists s', close_all env items s = (Returns tt, s') /\
             closed_connections s ⊆ closed_connections s' /\
             forall t c, (t, c) ∈ items -> c ∈ closed_connections s'.
Proof.
  induction items as [|[t0 c0] rest IH]; intros s Hok.
  - exists s. split; [reflexivity|]. split; [reflexivity|]. intros t c Hin. inversion Hin.
  - simpl. unfold bind, connection_close. rewrite (Hok t0 c0) by left. simpl.
    destruct (IH (set_closed (c0 :: closed_connections s) s)) as (s' & Hrun & Hmono & Hall).
    { intros t c Hin. apply (Hok t c). right. exact Hin. }
    exists s'. split; [exact Hrun|]. simpl in Hmono. split.
    + intros x Hx. apply Hmono. right. exact Hx.
    + intros t c Hin. apply elem_of_cons in Hin as [Heq|Hin].
      * injection Heq as -> ->. apply Hmono. left.
      * apply (Hall t c Hin).
Qed.

Lemma close_all_isAlive env alive items s :
  close_all (set_isAlive alive env) items s = close_all env items s.
Proof.
  revert s. induction items as [|[t c] rest IH]; intros s; [reflexivity|].
  simpl. unfold bind, connection_close. simpl.
  destruct (conn_close env c); simpl; [reflexivity|]. apply IH.
Qed.

(** C7: close_connections leaves the connection map and the activity map as
    they were, whatever happens; what it does is the same whichever threads
    are alive; and when no close fails it returns with every pooled connection
    closed. *)
Theorem close_connections_closes_all_keeps_maps (env : Env) (s : State) :
  (db_connection_pool (snd (close_connections env s)) = db_connection_pool s /\
   db_connection_activity (snd (close_connections env s)) = db_connection_activity s) /\
  (forall alive, close_connections (set_isAlive alive env) s = close_connections env s) /\
  ((forall th c, db_connection_pool s !! th = Some c -> conn_close env c = None) ->
   fst (close_connections env s) = Returns tt /\
   forall th c, db_connection_pool s !! th = Some c ->
                c ∈ closed_connections (snd (close_connections env s))).
Proof.
  split; [|split].
  - destruct (close_connections_frame env s) as (Hp & Ha & _). auto.
  - intros alive. unfold close_connections, bind, get_state. apply close_all_isAlive.
  - intros Hok. unfold close_connections, bind, get_state.
    destruct (close_all_total env (map_to_list (db_connection_pool s)) s)
      as (s' & Hrun & _ & Hall).
    { intros t c Hin. apply elem_of_map_to_list in Hin. eauto. }
    rewrite Hrun. split; [reflexivity|]. intros th c Hp. simpl.
    apply (Hall th c). apply elem_of_map_to_list. exact Hp.
Qed.

(** ** The lock *)

Lemma get_connection_blocks fuel cfg env th s :
  locked s -> get_connection fuel cfg env th s = (Blocks, s).
Proof.
  intros H. rewrite get_connection_unfold. unfold lock_acquire, bind at 1 2, get_state.
  rewrite H. reflexivity.
Qed.

Lemma get_connection_locked fuel cfg env th : preserves locked (get_connection fuel cfg env th).
Proof. intros s H. rewrite get_connection_blocks by exact H. exact H. Qed.

Lemma close_connections_locked env : preserves locked (close_connections env).
Proof.
  intros s H. destruct (close_connections_frame env s) as (_ & _ & Hl & _).
  unfold locked. rewrite Hl. exact H.
Qed.

Lemma evict_locked env th : preserves locked (evict env th).
Proof.
  unfold evict, getitem, connection_close, pool_delitem, activity_delitem.
  repeat first [apply preserves_modify; intros s H; exact H | preserves_step].
Qed.

Lemma sweep_locked env timeout items : preserves locked (sweep env timeout items).
Proof.
  induction items as [|[th thtime] rest IH].
  - apply preserves_ret.
  - rewrite sweep_step. apply preserves_bind; [|intros _; exact IH].
    destruct (stale env timeout th thtime);
      [apply evict_locked | apply preserves_ret].
Qed.

Lemma ping_loop_locked fuel env th i c : preserves locked (ping_loop fuel env th i c).
Proof.
  revert i c. induction fuel as [|fuel IH]; intros i c; simpl.
  - apply preserves_out_of_fuel.
  - destruct (conn_ping env c) as [[]|];
      try apply preserves_raise; try apply preserves_ret.
    apply preserves_bind; [apply preserves_new_connection|]. intros c'.
    apply preserves_bind; [|intros _; apply IH].
    apply preserves_modify. intros s H. exact H.
Qed.

(** An exception leaves [resolve] before the lock is released. *)
Lemma resolve_raises_locked fuel env th s e s' :
  locked s -> resolve fuel env th s = (Raises e, s') -> locked s'.
Proof.
  intros Hl. unfold resolve, bind at 1, get_state. intros H.
  apply bind_raises_inv in H as [H|(c & s1 & _ & H)].
  - destruct (db_connection_pool s !! th) as [c|].
    + pose proof (ping_loop_locked fuel env th 0 c s Hl) as Hp. rewrite H in Hp. exact Hp.
    + unfold bind, new_connection in H.
      destruct (connect env 0); simpl in H; try discriminate; congruence.
  - discriminate.
Qed.

Lemma get_connection_raises_locked fuel cfg env th s e s' :
  get_connection fuel cfg env th s = (Raises e, s') -> locked s'.
Proof.
  rewrite get_connection_unfold. unfold lock_acquire, bind at 1 2, get_state.
  destruct (db_connection_pool_lock s); [discriminate|]. simpl.
  unfold bind at 1, get_state. intros H.
  assert (locked (set_lock true s)) as Hl by reflexivity.
  apply bind_raises_inv in H as [H|([] & s1 & Hsw & H)].
  - eapply sweep_locked in Hl. rewrite H in Hl. exact Hl.
  - eapply sweep_locked in Hl. rewrite Hsw in Hl.
    eapply resolve_raises_locked; eassumption.
Qed.

Lemma run_calls_locked cfg calls : forall s, locked s -> locked (run_calls cfg calls s).
Proof.
  induction calls as [|[[[fuel env] th] c] rest IH]; intros s H; [exact H|].
  simpl. apply IH. apply run_call_preserves; try assumption.
  - apply locked_cursor_blind.
  - intros. apply get_connection_locked.
  - intros. apply close_connections_locked.
Qed.

(** C9: when an exception leaves get_connection (anything raised inside its
    critical section: a failing close in the sweep, a failing connect, ...)
    the pool lock is still held, and it stays held: whatever calls are made
    afterwards, every call of get_connection, from any thread, blocks on the
    lock and changes nothing. *)
Theorem get_connection_exception_keeps_lock
    (fuel : nat) (cfg : Config) (env : Env) (th : nat) (s s' : State) (e : Exn) :
  get_connection fuel cfg env th s = (Raises e, s') ->
  db_connection_pool_lock s' = true /\
  forall calls fuel' env' th',
    get_connection fuel' cfg env' th' (run_calls cfg calls s') =
    (Blocks, run_calls cfg calls s').
Proof.
  intros H. apply get_connection_raises_locked in H. split; [exact H|].
  intros calls fuel' env' th'. apply get_connection_blocks, run_calls_locked, H.
Qed.

(** ** Two calls in a row *)

Lemma ping_loop_returns fuel env th : forall i c s c' s',
  db_connection_pool s !! th = Some c ->
  ping_loop fuel env th i c s = (Returns c', s') ->
  db_connection_pool s' !! th = Some c'.
Proof.
  induction fuel as [|fuel IH]; intros i c s c' s' Hp H; [discriminate|].
  simpl in H. destruct (conn_ping env c) as [[]|]; try discriminate.
  - apply bind_returns_inv in H as (c1 & s1 & Hnew & H).
    apply bind_returns_inv in H as ([] & s2 & Hset & H).
    pose proof (new_connection_state env i s) as Hs. rewrite Hnew in Hs. simpl in Hs.
    subst s1. injection Hset as <-.
    eapply IH; [|exact H]. simpl. apply lookup_insert_eq.
  - injection H as <- <-. exact Hp.
Qed.

(** What a normal return of [resolve] leaves behind. *)
Lemma resolve_returns fuel env th s c s' :
  resolve fuel env th s = (Returns c, s') ->
  db_connection_pool_lock s' = false /\
  db_connection_pool s' !! th = Some c /\
  db_connection_activity s' !! th = Some (time_now env).
Proof.
  unfold resolve, bind at 1, get_state. intros H.
  apply bind_returns_inv in H as (c1 & s1 & Hfind & H).
  injection H as <- <-. simpl.
  split; [reflexivity|]. split; [|apply lookup_insert_eq].
  destruct (db_connection_pool s !! th) as [c0|] eqn:Hp.
  - eapply ping_loop_returns; eassumption.
  - apply bind_returns_inv in Hfind as (c2 & s2 & Hnew & Hfind).
    pose proof (new_connection_state env 0 s) as Hs. rewrite Hnew in Hs. simpl in Hs.
    subst s2. injection Hfind as <- <-. simpl. apply lookup_insert_eq.
Qed.

Lemma get_connection_returns fuel cfg env th s c s' :
  get_connection fuel cfg env th s = (Returns c, s') ->
  db_connection_pool_lock s' = false /\
  db_connection_pool s' !! th = Some c /\
  db_connection_activity s' !! th = Some (time_now env).
Proof.
  rewrite get_connection_unfold. intros H.
  apply bind_returns_inv in H as ([] & s1 & _ & H).
  apply bind_returns_inv in H as (s2 & s3 & _ & H).
  apply bind_returns_inv in H as ([] & s4 & _ & H).
  eapply resolve_returns, H.
Qed.

(** C4: after a call of get_connection that returned connection [c] to a
    thread, a second call from the same thread, which is alive, made before
    the idle timeout has elapsed and during which nothing fails (no close
    raises, the ping of [c] succeeds), returns [c] again. *)
Theorem get_connection_twice_same
    (fuel1 fuel2 : nat) (cfg : Config) (env1 env2 : Env) (th : nat)
    (s0 s1 : State) (c : nat) :
  pool_inv s0 ->
  get_connection fuel1 cfg env1 th s0 = (Returns c, s1) ->
  isAlive env2 th = true ->
  (time_now env2 - time_now env1 < db_connection_timeout cfg)%Z ->
  (forall c', conn_close env2 c' = None) ->
  conn_ping env2 c = None ->
  1 <= fuel2 ->
  exists s2, get_connection fuel2 cfg env2 th s1 = (Returns c, s2).
Proof.
  intros Hinv0 Hfirst Halive Htime Hclose Hping Hfuel.
  assert (pool_inv s1) as Hinv1.
  { pose proof (get_connection_pool_inv fuel1 cfg env1 th s0 Hinv0) as H.
    rewrite Hfirst in H. exact H. }
  destruct (get_connection_returns _ _ _ _ _ _ _ Hfirst) as (Hlock & Hpool & Hact).
  destruct (get_connection_after_sweep fuel2 cfg env2 th s1 Hlock Hinv1)
    as (s' & Hsweep & Hrest).
  { intros. apply Hclose. }
  rewrite Hrest.
  set (timeout := (time_now env2 - db_connection_timeout cfg)%Z) in *.
  assert (db_connection_pool s' !! th = Some c) as Hkept.
  { pose proof (sweep_keeps env2 timeout (map_to_list (db_connection_activity s1))
                  th (Some c) (Some (time_now env1))) as Hk.
    unfold preserves in Hk.
    assert (forall thtime, (th, thtime) ∈ map_to_list (db_connection_activity s1) ->
                           stale env2 timeout th thtime = false) as Hfresh.
    { intros thtime Hin. apply elem_of_map_to_list in Hin.
      rewrite Hact in Hin. injection Hin as <-.
      unfold stale. rewrite Halive. simpl. apply Z.ltb_ge. unfold timeout. lia. }
    specialize (Hk Hfresh (set_lock true s1)).
    rewrite Hsweep in Hk. apply Hk. split; assumption. }
  unfold resolve, bind at 1, get_state. rewrite Hkept.
  destruct fuel2 as [|fuel2]; [lia|]. simpl. rewrite Hping.
  eexists. reflexivity.
Qed.

(** ** Cursors of the helpers *)

Lemma get_connection_same_cursors s0 fuel cfg env th :
  preserves (same_cursors s0) (get_connection fuel cfg env th).
Proof.
  rewrite get_connection_unfold.
  assert (forall f, (forall s, cursor_table (f s) = cursor_table s /\
                               next_cursor (f s) = next_cursor s) ->
                    preserves (same_cursors s0) (modify f)) as Hmod.
  { intros f Hf. apply preserves_modify. intros s [H1 H2].
    destruct (Hf s) as [H3 H4]. split; congruence. }
  assert (forall th', preserves (same_cursors s0) (evict env th')) as Hev.
  { intros th'.
    unfold evict, getitem, connection_close, pool_delitem, activity_delitem.
    repeat first [apply Hmod; intros; split; reflexivity | preserves_step]. }
  apply preserves_bind; [|intros _; apply preserves_bind; [apply preserves_get|intros s1]].
  - unfold lock_acquire.
    repeat first [apply Hmod; intros; split; reflexivity | preserves_step].
  - apply preserves_bind; [|intros _].
    + induction (map_to_list (db_connection_activity s1)) as [|[th' t'] rest IH].
      * apply preserves_ret.
      * rewrite sweep_step. apply preserves_bind; [|intros _; exact IH].
        destruct (stale _ _ th' t'); [apply Hev|apply preserves_ret].
    + unfold resolve, activity_setitem, lock_release, pool_setitem.
      apply preserves_bind; [apply preserves_get|intros s2].
      apply preserves_bind;
        [|intros c; repeat first [apply Hmod; intros; split; reflexivity | preserves_step]].
      destruct (db_connection_pool s2 !! th) as [c|].
      * generalize 0 at 1. revert c. induction fuel as [|fuel IH]; intros c i; simpl.
        -- apply preserves_out_of_fuel.
        -- destruct (conn_ping env c) as [[]|];
             try apply preserves_raise; try apply preserves_ret.
           apply preserves_bind; [apply preserves_new_connection|intros c'].
           apply preserves_bind; [|intros _; apply IH].
           apply Hmod; intros; split; reflexivity.
      * apply preserves_bind; [apply preserves_new_connection|intros c'].
        repeat first [apply Hmod; intros; split; reflexivity | preserves_step].
Qed.

Lemma connection_cursor_eq env conn cc s :
  connection_cursor env conn cc s =
  (Returns (next_cursor s),
   set_cursors (<[next_cursor s := new_cursor conn (class_of env conn cc)]> (cursor_table s))
     (S (next_cursor s)) s).
Proof. destruct cc; reflexivity. Qed.

(** When the block [# get a cursor] returns, either the caller's cursor is
    used and nothing changed, or a new cursor was made. *)
Lemma get_a_cursor_returns fuel cfg env th cc kwargs s lc k kw' s1 :
  get_a_cursor fuel cfg env th cc kwargs s = (Returns (lc, k, kw'), s1) ->
  (lc = None /\ kw_connection kwargs = None /\ kw_cursor kwargs = Some k /\
   s1 = s /\ kw' = no_kwargs) \/
  (lc = Some k /\ owns_cursor kwargs /\ k = next_cursor s /\
   kw_connection kw' = None /\ kw_cursor kw' = kw_cursor kwargs /\
   exists conn, cursor_table s1 !! k = Some (new_cursor conn (class_of env conn cc))).
Proof.
  unfold get_a_cursor. destruct (kw_connection kwargs) as [conn|] eqn:Hc.
  - unfold bind. rewrite connection_cursor_eq. unfold ret. intros H.
    injection H as <- <- <- <-. right. unfold owns_cursor. rewrite Hc. simpl.
    repeat split; try discriminate. exists conn. apply lookup_insert_eq.
  - destruct (kw_cursor kwargs) as [k0|] eqn:Hk.
    + unfold ret. intros H. injection H as <- <- <- <-. left. auto.
    + intros H. apply bind_returns_inv in H as (conn & s2 & Hg & H).
      unfold bind in H. rewrite connection_cursor_eq in H. unfold ret in H.
      injection H as <- <- <- <-.
      pose proof (get_connection_same_cursors s fuel cfg env th s) as Hsame.
      rewrite Hg in Hsame. destruct Hsame as [Ht Hn]; [split; reflexivity|].
      simpl in *. right. unfold owns_cursor. rewrite Hn, Hc, Hk.
      repeat split; try reflexivity. exists conn. apply lookup_insert_eq.
Qed.

Lemma the_cursor_at k cs s :
  cursor_table s !! k = Some cs -> the_cursor k s = (Returns cs, s).
Proof. intros H. unfold the_cursor, bind, get_state. rewrite H. reflexivity. Qed.

Lemma put_cursor_at k cs s : cursor_table (put_cursor k cs s) !! k = Some cs.
Proof. simpl. apply lookup_insert_eq. Qed.

Lemma cursor_execute_ok env k args kw s cs count fetches :
  cursor_table s !! k = Some cs ->
  kwargs_empty kw = true ->
  run_statement env args = Executed count fetches ->
  cursor_execute env k args kw s =
  (Returns count, put_cursor k (set_pending fetches cs) s).
Proof.
  intros Hk Hkw Hrun. unfold cursor_execute, bind.
  rewrite (the_cursor_at k cs s Hk), Hkw, Hrun. reflexivity.
Qed.

Lemma cursor_fetchone_row k cs s r rest :
  cursor_table s !! k = Some cs ->
  cursor_pending cs = Fetched r :: rest ->
  cursor_fetchone k s =
  (Returns (shape_row (cursor_class cs) r), put_cursor k (set_pending rest cs) s).
Proof.
  intros Hk Hp. unfold cursor_fetchone, bind.
  rewrite (the_cursor_at k cs s Hk), Hp. reflexivity.
Qed.

Lemma close_local_ok lc k cs s :
  cursor_table s !! k = Some cs ->
  lc = None \/ lc = Some k ->
  exists s', close_local lc s = (Returns tt, s').
Proof.
  intros Hk [->| ->]; simpl; [eexists; reflexivity|].
  unfold cursor_close, bind. rewrite (the_cursor_at k cs s Hk). eexists. reflexivity.
Qed.

(** The loop of [fetch_all] and [fetch_n] on a cursor with enough rows. *)
Lemma fetch_rows_spec k j : forall rows more s cs,
  cursor_table s !! k = Some cs ->
  cursor_pending cs = map Fetched rows ++ more ->
  j <= length rows ->
  exists s' cs',
    fetch_rows j k s = (Returns (map (shape_row (cursor_class cs)) (firstn j rows)), s') /\
    cursor_table s' !! k = Some cs'.
Proof.
  induction j as [|j IH]; intros rows more s cs Hk Hp Hj.
  - exists s, cs. split; [reflexivity|exact Hk].
  - destruct rows as [|r rows]; [simpl in Hj; lia|]. simpl in Hp, Hj.
    destruct (IH rows more (put_cursor k (set_pending (map Fetched rows ++ more) cs) s)
                (set_pending (map Fetched rows ++ more) cs))
      as (s' & cs' & Hrun & Hk'); [apply put_cursor_at|reflexivity|lia|].
    exists s', cs'. split; [|exact Hk'].
    simpl. unfold bind at 1. rewrite (cursor_fetchone_row k cs s r _ Hk Hp).
    unfold bind at 1. rewrite Hrun. reflexivity.
Qed.

(** C5: when the statement reports [count] rows and these rows are there to
    fetch, fetch_n returns the first min(n, count) of them, in fetch order,
    as the cursor presents them; for a bound [n] that is not negative these
    are exactly min(n, count) rows, hence never more than [n]. *)
Theorem fetch_n_returns_min_rows
    (fuel : nat) (cfg : Config) (env : Env) (th : nat) (n : Z) (args : Args)
    (kwargs : Kwargs) (s s1 : State) (lc : option nat) (k : nat) (kw' : Kwargs)
    (cs : CursorState) (count : Z) (rows : list RawRow) :
  get_a_cursor fuel cfg env th (Some (db_cursor_class cfg)) kwargs s
    = (Returns (lc, k, kw'), s1) ->
  kwargs_empty kw' = true ->
  cursor_table s1 !! k = Some cs ->
  run_statement env args = Executed count (map Fetched rows) ->
  count = Z.of_nat (length rows) ->
  exists s' result,
    fetch_n fuel cfg env th n args kwargs s = (Returns result, s') /\
    result = map (shape_row (cursor_class cs)) (firstn (Z.to_nat (Z.min n count)) rows) /\
    ((0 <= n)%Z ->
     Z.of_nat (length result) = Z.min n count /\ (Z.of_nat (length result) <= n)%Z).
Proof.
  intros Hget Hkw Hk Hrun Hcount.
  assert (lc = None \/ lc = Some k) as Hlc.
  { apply get_a_cursor_returns in Hget as [(-> & _)|(-> & _)]; auto. }
  assert ((if (count >? n)%Z then n else count) = Z.min n count) as Hmin.
  { destruct (count >? n)%Z eqn:E; lia. }
  destruct (fetch_rows_spec k (Z.to_nat (Z.min n count)) rows []
              (put_cursor k (set_pending (map Fetched rows) cs) s1)
              (set_pending (map Fetched rows) cs))
    as (s2 & cs2 & Hfetch & Hk2).
  { apply put_cursor_at. }
  { simpl. rewrite app_nil_r. reflexivity. }
  { lia. }
  destruct (close_local_ok lc k cs2 s2 Hk2 Hlc) as [s3 Hclose].
  exists s3. eexists. split; [|split; [reflexivity|]].
  - unfold fetch_n. unfold bind at 1. rewrite Hget.
    unfold bind at 1. rewrite (cursor_execute_ok env k args kw' s1 cs count _ Hk Hkw Hrun).
    rewrite Hmin. unfold bind at 1. rewrite Hfetch.
    unfold bind at 1. rewrite Hclose. reflexivity.
  - intros Hn. rewrite length_map, length_firstn. lia.
Qed.

(** ** The value helpers *)

Lemma row_value_shape cls r s :
  cls = TupleCursor \/ length r <> 1 ->
  row_value (shape_row cls r) s = (Returns (scalar_or_row cls r), s).
Proof.
  intros H. destruct cls; simpl.
  - destruct r as [|[c v] [|]]; reflexivity.
  - destruct H as [H|H]; [discriminate|].
    destruct r as [|[c v] [|]]; try reflexivity. simpl in H. lia.
Qed.

Lemma fetch_row_values_spec k j : forall rows more s cs,
  cursor_table s !! k = Some cs ->
  cursor_pending cs = map Fetched rows ++ more ->
  cursor_class cs = TupleCursor \/ Forall (fun r => length r <> 1) rows ->
  j <= length rows ->
  exists s' cs',
    fetch_row_values j k s =
      (Returns (map (scalar_or_row (cursor_class cs)) (firstn j rows)), s') /\
    cursor_table s' !! k = Some cs'.
Proof.
  induction j as [|j IH]; intros rows more s cs Hk Hp Hcls Hj.
  - exists s, cs. split; [reflexivity|exact Hk].
  - destruct rows as [|r rows]; [simpl in Hj; lia|]. simpl in Hp, Hj.
    destruct (IH rows more (put_cursor k (set_pending (map Fetched rows ++ more) cs) s)
                (set_pending (map Fetched rows ++ more) cs))
      as (s' & cs' & Hrun & Hk'); [apply put_cursor_at|reflexivity| |lia|].
    { destruct Hcls as [H|H]; [left; exact H|right]. inversion H; assumption. }
    exists s', cs'. split; [|exact Hk'].
    simpl. unfold bind at 1. rewrite (cursor_fetchone_row k cs s r _ Hk Hp).
    unfold bind at 1. rewrite row_value_shape.
    + unfold bind at 1. simpl in Hrun. rewrite Hrun. reflexivity.
    + destruct Hcls as [H|H]; [left; exact H|right]. inversion H; assumption.
Qed.

(** Driving [yield_values] from a suspended state to its end. *)
Lemma consume_values_suspended fuel cfg env th k lc : forall rows s cs,
  cursor_table s !! k = Some cs ->
  cursor_pending cs = map Fetched rows ->
  cursor_class cs = TupleCursor \/ Forall (fun r => length r <> 1) rows ->
  lc = None \/ lc = Some k ->
  exists s',
    consume (yield_values_next fuel cfg env th) (S (length rows))
      (GenSuspended lc k (length rows)) s =
    (Returns (map (scalar_or_row (cursor_class cs)) rows), s').
Proof.
  induction rows as [|r rows IH]; intros s cs Hk Hp Hcls Hlc.
  - destruct (close_local_ok lc k cs s Hk Hlc) as [s' Hclose].
    exists s'. simpl. unfold bind at 1 2. rewrite Hclose. reflexivity.
  - simpl in Hp.
    destruct (IH (put_cursor k (set_pending (map Fetched rows) cs) s)
                (set_pending (map Fetched rows) cs))
      as (s' & Hrun); [apply put_cursor_at|reflexivity| |exact Hlc|].
    { destruct Hcls as [H|H]; [left; exact H|right]. inversion H; assumption. }
    exists s'.
    change (length (r :: rows)) with (S (length rows)).
    change (consume ?nx (S ?j) ?g) with
      (x <- nx g ;; match x with
                    | (Some v, g') => vs <- consume nx j g' ;; ret (v :: vs)
                    | (None, _) => ret []
                    end).
    unfold bind at 1. unfold yield_values_next at 1, generator_next, generator_loop.
    unfold bind at 1. rewrite (cursor_fetchone_row k cs s r _ Hk Hp).
    unfold bind at 1. rewrite row_value_shape.
    + unfold ret at 1. unfold bind at 1. rewrite Hrun. reflexivity.
    + destruct Hcls as [H|H]; [left; exact H|right]. inversion H; assumption.
Qed.

(** The three value helpers on a cursor whose rows [row_value] can take. *)
Lemma value_helpers_spec
    (fuel : nat) (cfg : Config) (env : Env) (th : nat) (args : Args)
    (kwargs : Kwargs) (s s1 : State) (lc : option nat) (k : nat) (kw' : Kwargs)
    (cs : CursorState) (count : Z) (rows : list RawRow) :
  get_a_cursor fuel cfg env th None kwargs s = (Returns (lc, k, kw'), s1) ->
  cursor_table s1 !! k = Some cs ->
  run_statement env args = Executed count (map Fetched rows) ->
  count = Z.of_nat (length rows) ->
  cursor_class cs = TupleCursor \/ Forall (fun r => length r <> 1) rows ->
  (exists s', fetch_value fuel cfg env th args kwargs s =
     (Returns match rows with
              | [] => VNone
              | r :: _ => scalar_or_row (cursor_class cs) r
              end, s')) /\
  (exists s', fetch_values fuel cfg env th args kwargs s =
     (Returns (map (scalar_or_row (cursor_class cs)) rows), s')) /\
  (kwargs_empty kw' = true ->
   exists s', consume (yield_values_next fuel cfg env th) (S (length rows))
                (yield_values args kwargs) s =
     (Returns (map (scalar_or_row (cursor_class cs)) rows), s')).
Proof.
  intros Hget Hk Hrun Hcount Hcls.
  assert (lc = None \/ lc = Some k) as Hlc.
  { apply get_a_cursor_returns in Hget as [(-> & _)|(-> & _)]; auto. }
  set (cs1 := set_pending (map Fetched rows) cs).
  set (s2 := put_cursor k cs1 s1).
  assert (cursor_table s2 !! k = Some cs1) as Hk2 by apply put_cursor_at.
  assert (forall kw, kwargs_empty kw = true ->
            cursor_execute env k args kw s1 = (Returns count, s2)) as Hexec.
  { intros kw Hkw. apply (cursor_execute_ok env k args kw s1 cs count _ Hk Hkw Hrun). }
  split; [|split].
  - unfold fetch_value. unfold bind at 1. rewrite Hget.
    unfold bind at 1. rewrite Hexec by reflexivity.
    destruct rows as [|r rows].
    + simpl in Hcount. subst count. simpl.
      destruct (close_local_ok lc k cs1 s2 Hk2 Hlc) as [s3 Hclose].
      exists s3. unfold bind at 1 2. unfold ret at 1. rewrite Hclose. reflexivity.
    + assert ((count =? 0)%Z = false) as Hnz.
      { apply Z.eqb_neq. simpl in Hcount. lia. }
      rewrite Hnz.
      destruct (close_local_ok lc k (set_pending (map Fetched rows) cs1)
                  (put_cursor k (set_pending (map Fetched rows) cs1) s2))
        as [s3 Hclose]; [apply put_cursor_at|exact Hlc|].
      exists s3. unfold bind at 1 2.
      rewrite (cursor_fetchone_row k cs1 s2 r (map Fetched rows) Hk2 eq_refl).
      rewrite row_value_shape.
      * unfold bind at 1. rewrite Hclose. reflexivity.
      * destruct Hcls as [H|H]; [left; exact H|right]. inversion H; assumption.
  - destruct (fetch_row_values_spec k (length rows) rows [] s2 cs1)
      as (s3 & cs3 & Hfetch & Hk3); [exact Hk2|simpl; symmetry; apply app_nil_r|exact Hcls|lia|].
    destruct (close_local_ok lc k cs3 s3 Hk3 Hlc) as [s4 Hclose].
    exists s4. unfold fetch_values. unfold bind at 1. rewrite Hget.
    unfold bind at 1. rewrite Hexec by reflexivity.
    rewrite Hcount, Nat2Z.id. unfold bind at 1. rewrite Hfetch.
    rewrite firstn_all. unfold bind at 1. rewrite Hclose. reflexivity.
  - intros Hkw.
    destruct (consume_values_suspended fuel cfg env th k lc rows s2 cs1 Hk2 eq_refl Hcls Hlc)
      as [s3 Hrest].
    exists s3. change (cursor_class cs1) with (cursor_class cs) in Hrest.
    rewrite <- Hrest.
    change (consume ?nx (S ?j) ?g) with
      (x <- nx g ;; match x with
                    | (Some v, g') => vs <- consume nx j g' ;; ret (v :: vs)
                    | (None, _) => ret []
                    end).
    unfold bind at 1. unfold yield_values, yield_values_next at 1, generator_next.
    unfold bind at 1. rewrite Hget. unfold bind at 1. rewrite (Hexec kw' Hkw).
    rewrite Hcount, Nat2Z.id. unfold bind at 2. reflexivity.
Qed.

(** C6, as the code has it: when the helper made the cursor itself on a
    connection that was opened with the client's default cursor class, or
    the cursor presents rows positionally, or no row has exactly one column,
    fetch_value returns None when no row is reported and otherwise the bare
    value of a one-column first row or the whole first row; fetch_values
    returns this for every row, and yield_values yields it for every row. *)
Theorem value_helpers_scalar_or_row
    (fuel : nat) (cfg : Config) (env : Env) (th : nat) (args : Args)
    (kwargs : Kwargs) (s s1 : State) (lc : option nat) (k : nat) (kw' : Kwargs)
    (cs : CursorState) (count : Z) (rows : list RawRow) :
  get_a_cursor fuel cfg env th None kwargs s = (Returns (lc, k, kw'), s1) ->
  cursor_table s1 !! k = Some cs ->
  run_statement env args = Executed count (map Fetched rows) ->
  count = Z.of_nat (length rows) ->
  (lc = Some k /\
   conn_cursorclass env (cursor_connection cs) = default_cursor_class) \/
  cursor_class cs = TupleCursor \/
  Forall (fun r => length r <> 1) rows ->
  (exists s', fetch_value fuel cfg env th args kwargs s =
     (Returns match rows with
              | [] => VNone
              | r :: _ => scalar_or_row (cursor_class cs) r
              end, s')) /\
  (exists s', fetch_values fuel cfg env th args kwargs s =
     (Returns (map (scalar_or_row (cursor_class cs)) rows), s')) /\
  (kwargs_empty kw' = true ->
   exists s', consume (yield_values_next fuel cfg env th) (S (length rows))
                (yield_values args kwargs) s =
     (Returns (map (scalar_or_row (cursor_class cs)) rows), s')).
Proof.
  intros Hget Hk Hrun Hcount Hcls.
  apply (value_helpers_spec fuel cfg env th args kwargs s s1 lc k kw' cs count rows
           Hget Hk Hrun Hcount).
  destruct Hcls as [[Hown Hdefault]|Hcls]; [left|exact Hcls].
  apply get_a_cursor_returns in Hget
    as [(Hnone & _)|(_ & _ & _ & _ & _ & conn & Hnew)].
  - rewrite Hnone in Hown. discriminate.
  - rewrite Hk in Hnew. injection Hnew as ->. exact Hdefault.
Qed.

(** ** Closing the local cursor *)

Lemma close_local_returns k s s' :
  close_local (Some k) s = (Returns tt, s') ->
  exists cs, cursor_table s' !! k = Some cs /\ cursor_closed cs = true.
Proof.
  simpl. unfold cursor_close, the_cursor, bind, get_state.
  destruct (cursor_table s !! k) as [cs|]; [|discriminate]. simpl.
  intros H. injection H as <-. exists (set_cursor_closed cs).
  split; [apply lookup_insert_eq|reflexivity].
Qed.

Ltac invert_returns H :=
  repeat (cbv beta iota zeta in H;
          let a := fresh "a" in let s := fresh "s" in let Hm := fresh "Hm" in
          apply bind_returns_inv in H as (a & s & Hm & H)).

Ltac own_cursor_closed :=
  let s := fresh "s" in let v := fresh "v" in let s' := fresh "s'" in
  let Hown := fresh "Hown" in let H := fresh "H" in
  let r := fresh "r" in let s1 := fresh "s1" in let Hget := fresh "Hget" in
  intros s v s' Hown H;
  apply bind_returns_inv in H as (r & s1 & Hget & H);
  destruct r as [[lc k] kw'];
  apply get_a_cursor_returns in Hget
    as [(_ & Hc & Hk & _)|(-> & _ & -> & _)];
  [ rewrite (Hown Hc) in Hk; discriminate
  | invert_returns H; injection H as _ <-;
    match goal with
    | Hc : close_local _ _ = (Returns ?u, _) |- _ =>
        destruct u; apply (close_local_returns _ _ _ Hc)
    end ].

(** ** What stays true of a cursor while a helper runs *)

Section CursorProperty.

Variables (Q : CursorState -> Prop) (k : nat).
Hypothesis Q_pending : forall l cs, Q cs -> Q (set_pending l cs).

Lemma cursor_has_put k' c c' s :
  cursor_has Q k s ->
  cursor_table s !! k' = Some c ->
  (Q c -> Q c') ->
  cursor_has Q k (put_cursor k' c' s).
Proof.
  intros (cs & Hl & Hc) Hk' Hsame. unfold cursor_has. simpl.
  destruct (decide (k' = k)) as [->|Hne].
  - exists c'. rewrite lookup_insert_eq. split; [reflexivity|].
    apply Hsame. congruence.
  - exists cs. rewrite lookup_insert_ne by exact Hne. auto.
Qed.

Lemma has_cursor_execute env k' args kw :
  preserves (cursor_has Q k) (cursor_execute env k' args kw).
Proof.
  intros s H. unfold cursor_execute, the_cursor, bind, get_state.
  destruct (cursor_table s !! k') as [c|] eqn:Hk'; simpl; [|exact H].
  destruct (kwargs_empty kw); simpl; [|exact H].
  destruct (run_statement env args); simpl; [|exact H].
  apply (cursor_has_put k' c _ s H Hk'). apply Q_pending.
Qed.

Lemma has_cursor_fetchone k' : preserves (cursor_has Q k) (cursor_fetchone k').
Proof.
  intros s H. unfold cursor_fetchone, the_cursor, bind, get_state.
  destruct (cursor_table s !! k') as [c|] eqn:Hk'; simpl; [|exact H].
  destruct (cursor_pending c) as [|[r|e] rest]; simpl; [exact H| |];
    apply (cursor_has_put k' c _ s H Hk'); apply Q_pending.
Qed.

Lemma has_fetch_rows j k' : preserves (cursor_has Q k) (fetch_rows j k').
Proof.
  induction j as [|j IH]; simpl;
    repeat first [apply has_cursor_fetchone | preserves_step].
Qed.

Lemma has_fetch_row_values j k' : preserves (cursor_has Q k) (fetch_row_values j k').
Proof.
  induction j as [|j IH]; simpl;
    repeat first [apply has_cursor_fetchone | apply preserves_row_value
                 | preserves_step].
Qed.

(** Closing keeps [Q] when [Q] does not look at the closed flag. *)
Lemma has_close_local lc :
  (forall cs, Q cs -> Q (set_cursor_closed cs)) ->
  preserves (cursor_has Q k) (close_local lc).
Proof.
  intros Q_closed. destruct lc as [k'|]; [|apply preserves_ret].
  intros s H. simpl. unfold cursor_close, the_cursor, bind, get_state.
  destruct (cursor_table s !! k') as [c|] eqn:Hk'; simpl; [|exact H].
  apply (cursor_has_put k' c _ s H Hk'). apply Q_closed.
Qed.

End CursorProperty.

Lemma get_a_cursor_no_return fuel cfg env th cc kwargs s o s1 :
  get_a_cursor fuel cfg env th cc kwargs s = (o, s1) ->
  (forall r, o <> Returns r) ->
  same_cursors s s1.
Proof.
  unfold get_a_cursor. intros Hget Hno.
  destruct (kw_connection kwargs).
  { unfold bind in Hget. rewrite connection_cursor_eq in Hget.
    injection Hget as <- _. destruct (Hno _ eq_refl). }
  destruct (kw_cursor kwargs).
  { injection Hget as <- _. destruct (Hno _ eq_refl). }
  unfold bind in Hget.
  pose proof (get_connection_same_cursors s fuel cfg env th s) as Hs.
  destruct (get_connection fuel cfg env th s) as [[conn| | |] s2]; simpl in Hs.
  - rewrite connection_cursor_eq in Hget. injection Hget as <- _.
    destruct (Hno _ eq_refl).
  - injection Hget as _ <-. apply Hs. split; reflexivity.
  - injection Hget as _ <-. apply Hs. split; reflexivity.
  - injection Hget as _ <-. apply Hs. split; reflexivity.
Qed.

Lemma own_cursor_class_bind {B} fuel cfg env th cls kwargs
    (body : option nat * nat * Kwargs -> M B) :
  (forall r k cls, preserves (has_class k cls) (body r)) ->
  own_cursor_class cls kwargs
    (bind (get_a_cursor fuel cfg env th (Some cls) kwargs) body).
Proof.
  intros Hbody s Hown. unfold bind.
  destruct (get_a_cursor fuel cfg env th (Some cls) kwargs s) as [o s1] eqn:Hget.
  destruct o as [[[lc k] kw']| | |];
    try (left; apply (get_a_cursor_no_return _ _ _ _ _ _ _ _ _ Hget); discriminate).
  apply get_a_cursor_returns in Hget
    as [(_ & Hc & Hk & _)|(_ & _ & -> & _ & _ & conn & Hnew)].
  - rewrite (Hown Hc) in Hk. discriminate.
  - right. apply Hbody. exists (new_cursor conn cls). auto.
Qed.

(** The connection of the cursor that the block [# get a cursor] makes. *)
Lemma get_a_cursor_connection fuel cfg env th cc kwargs s lc k kw' s1 :
  get_a_cursor fuel cfg env th cc kwargs s = (Returns (lc, k, kw'), s1) ->
  owns_cursor kwargs ->
  exists conn,
    connection_used fuel cfg env th kwargs s conn /\
    cursor_table s1 !! next_cursor s = Some (new_cursor conn (class_of env conn cc)).
Proof.
  unfold get_a_cursor, connection_used. intros Hget Hown.
  destruct (kw_connection kwargs) as [conn|] eqn:Hc.
  - unfold bind in Hget. rewrite connection_cursor_eq in Hget.
    injection Hget as _ _ _ <-. exists conn. split; [reflexivity|].
    apply lookup_insert_eq.
  - rewrite (Hown Hc) in Hget.
    apply bind_returns_inv in Hget as (conn & s2 & Hg & Hget).
    unfold bind in Hget. rewrite connection_cursor_eq in Hget.
    injection Hget as _ _ _ <-.
    pose proof (get_connection_same_cursors s fuel cfg env th s) as Hsame.
    rewrite Hg in Hsame. destruct Hsame as [Ht Hn]; [split; reflexivity|].
    simpl in Hn. exists conn. split; [exists s2; exact Hg|].
    simpl. rewrite Hn. apply lookup_insert_eq.
Qed.

Lemma own_cursor_connection_class_bind {B} fuel cfg env th kwargs
    (body : option nat * nat * Kwargs -> M B) :
  (forall r k, preserves (cursor_has (made_from env kwargs) k) (body r)) ->
  own_cursor_connection_class env kwargs
    (bind (get_a_cursor fuel cfg env th None kwargs) body).
Proof.
  intros Hbody s Hown. unfold bind.
  destruct (get_a_cursor fuel cfg env th None kwargs s) as [o s1] eqn:Hget.
  destruct o as [[[lc k] kw']| | |];
    try (left; apply (get_a_cursor_no_return _ _ _ _ _ _ _ _ _ Hget); discriminate).
  destruct (get_a_cursor_connection _ _ _ _ _ _ _ _ _ _ _ Hget Hown)
    as (conn & Hused & Hnew).
  right. apply Hbody. exists (new_cursor conn (class_of env conn None)).
  split; [exact Hnew|]. split; [reflexivity|].
  intros c Hc. unfold connection_used in Hused. rewrite Hc in Hused. exact Hused.
Qed.

(** A helper that owns its cursor makes it from the connection it works
    on. *)
Lemma get_a_cursor_from fuel cfg env th cc kwargs s conn :
  owns_cursor kwargs ->
  connection_used fuel cfg env th kwargs s conn ->
  exists k kw' s1,
    get_a_cursor fuel cfg env th cc kwargs s = (Returns (Some k, k, kw'), s1) /\
    cursor_table s1 !! k = Some (new_cursor conn (class_of env conn cc)) /\
    (kw_cursor kwargs = None -> kwargs_empty kw' = true).
Proof.
  intros Hown Hused. unfold get_a_cursor, connection_used in *.
  destruct (kw_connection kwargs) as [c|] eqn:Hc.
  - subst conn. unfold bind. rewrite connection_cursor_eq.
    eexists _, _, _. split; [reflexivity|]. split; [apply lookup_insert_eq|].
    intros ->. reflexivity.
  - rewrite (Hown Hc). destruct Hused as (s0 & Hg).
    unfold bind. rewrite Hg, connection_cursor_eq.
    eexists _, _, _. split; [reflexivity|]. split; [apply lookup_insert_eq|].
    intros _. unfold kwargs_empty. rewrite Hc, (Hown Hc). reflexivity.
Qed.

Ltac class_frame :=
  intros [[? ?] ?] ?; try intros ?;
  repeat first
    [ apply has_cursor_execute; auto | apply has_cursor_fetchone; auto
    | apply has_close_local; auto | apply has_fetch_rows; auto
    | apply has_fetch_row_values; auto | apply preserves_row_value
    | apply preserves_dict2obj_call | preserves_step ].

Lemma scalar_or_row_wide cls r :
  2 <= length r -> scalar_or_row cls r = shape_row cls r.
Proof. destruct r as [|[c v] [|]]; simpl; intros H; try lia; reflexivity. Qed.

(** C10, as the code has it: when they make their own cursor, fetch_value,
    fetch_values and yield_values call cursor() without a class, so the
    cursor has the cursor class of its connection, whatever db_cursor_class
    is, while execute, fetch_one, fetch_all, fetch_n, yield_rows and
    yield_objects make theirs of class db_cursor_class.  So, once a
    connection is at hand, the value helpers give every row of a result with
    two or more columns in the form of the connection's cursor class,
    whatever the configured row shape: in positional form on a connection
    that was opened with the client's default cursor class. *)
Theorem value_helpers_use_connection_cursor_class
    (fuel : nat) (cfg : Config) (env : Env) (th : nat) (args : Args) (kwargs : Kwargs) :
  (own_cursor_connection_class env kwargs
     (fetch_value fuel cfg env th args kwargs) /\
   own_cursor_connection_class env kwargs
     (fetch_values fuel cfg env th args kwargs) /\
   own_cursor_connection_class env kwargs
     (yield_values_next fuel cfg env th (yield_values args kwargs))) /\
  (own_cursor_class (db_cursor_class cfg) kwargs (execute fuel cfg env th args kwargs) /\
   own_cursor_class (db_cursor_class cfg) kwargs (fetch_one fuel cfg env th args kwargs) /\
   own_cursor_class (db_cursor_class cfg) kwargs (fetch_all fuel cfg env th args kwargs) /\
   (forall n,
      own_cursor_class (db_cursor_class cfg) kwargs
        (fetch_n fuel cfg env th n args kwargs)) /\
   own_cursor_class (db_cursor_class cfg) kwargs
     (yield_rows_next fuel cfg env th (yield_rows args kwargs)) /\
   own_cursor_class (db_cursor_class cfg) kwargs
     (yield_objects_next fuel cfg env th (yield_objects args kwargs))) /\
  (forall s conn count rows,
     owns_cursor kwargs ->
     connection_used fuel cfg env th kwargs s conn ->
     run_statement env args = Executed count (map Fetched rows) ->
     count = Z.of_nat (length rows) ->
     Forall (fun r => 2 <= length r) rows ->
     value_helpers_give fuel cfg env th args kwargs s
       (shape_row (conn_cursorclass env conn)) rows /\
     (conn_cursorclass env conn = default_cursor_class ->
      value_helpers_give fuel cfg env th args kwargs s positional rows)).
Proof.
  split; [|split].
  - split; [|split].
    + unfold fetch_value. apply own_cursor_connection_class_bind. class_frame.
    + unfold fetch_values. apply own_cursor_connection_class_bind. class_frame.
    + unfold yield_values_next, yield_values, generator_next, generator_loop.
      apply own_cursor_connection_class_bind. class_frame.
  - split; [|split; [|split; [|split; [intros n|split]]]].
    + unfold execute. apply own_cursor_class_bind. class_frame.
    + unfold fetch_one. apply own_cursor_class_bind. class_frame.
    + unfold fetch_all. apply own_cursor_class_bind. class_frame.
    + unfold fetch_n. apply own_cursor_class_bind. class_frame.
    + unfold yield_rows_next, yield_rows, generator_next, generator_loop.
      apply own_cursor_class_bind. class_frame.
    + unfold yield_objects_next, yield_objects, generator_next, generator_loop.
      apply own_cursor_class_bind. class_frame.
  - intros s conn count rows Hown Hused Hrun Hcount Hwide.
    destruct (get_a_cursor_from fuel cfg env th None kwargs s conn Hown Hused)
      as (k & kw' & s1 & Hget & Hk & Hkw).
    destruct (value_helpers_spec fuel cfg env th args kwargs s s1 (Some k) k kw'
                (new_cursor conn (class_of env conn None)) count rows
                Hget Hk Hrun Hcount)
      as (Hv & Hvs & Hy).
    { right. apply (Forall_impl _ _ _ Hwide). intros r Hr. lia. }
    change (cursor_class (new_cursor conn (class_of env conn None)))
      with (conn_cursorclass env conn) in Hv, Hvs, Hy.
    assert (map (scalar_or_row (conn_cursorclass env conn)) rows
            = map (shape_row (conn_cursorclass env conn)) rows) as Hmap.
    { apply map_ext_in. intros r Hin. apply scalar_or_row_wide.
      rewrite Forall_forall in Hwide. apply Hwide. apply list_elem_of_In. exact Hin. }
    rewrite Hmap in Hvs, Hy.
    assert (value_helpers_give fuel cfg env th args kwargs s
              (shape_row (conn_cursorclass env conn)) rows) as Hgive.
    { split; [|split].
      - destruct rows as [|r rows]; [exact Hv|].
        rewrite scalar_or_row_wide in Hv; [exact Hv|].
        inversion Hwide; assumption.
      - exact Hvs.
      - intros Hnone. apply Hy, Hkw, Hnone. }
    split; [exact Hgive|].
    intros Hdefault. rewrite Hdefault in Hgive. exact Hgive.
Qed.

(** ** A failing statement and the local cursor *)

Lemma open_on_raise_bind {A B} k (m : M A) (f : A -> M B) :
  preserves (is_open k) m ->
  (forall a, open_on_raise k (f a)) ->
  open_on_raise k (bind m f).
Proof.
  intros Hm Hf s e s' Hopen H.
  apply bind_raises_inv in H as [H|(a & s1 & Hret & H)].
  - specialize (Hm s Hopen). rewrite H in Hm. exact Hm.
  - specialize (Hm s Hopen). rewrite Hret in Hm. apply (Hf a s1 e s' Hm H).
Qed.

(** The last two statements of a helper raise nothing of their own. *)
Lemma open_on_raise_close {A} k lc (v : A) :
  open_on_raise k (close_local lc ;;; ret v).
Proof.
  intros s e s' Hopen H.
  apply bind_raises_inv in H as [H|(a & s1 & _ & H)]; [|discriminate].
  destruct lc as [k'|]; [|discriminate]. simpl in H.
  unfold cursor_close, the_cursor, bind, get_state in H.
  destruct (cursor_table s !! k'); [discriminate|].
  injection H as _ <-. exact Hopen.
Qed.

Lemma leaves_open_bind {B} fuel cfg env th cc kwargs
    (body : option nat * nat * Kwargs -> M B) :
  (forall r k, open_on_raise k (body r)) ->
  leaves_own_cursor_open kwargs (bind (get_a_cursor fuel cfg env th cc kwargs) body).
Proof.
  intros Hbody s e s' Hown H.
  apply bind_raises_inv in H as [H|([[lc k] kw'] & s1 & Hget & H)].
  - left. apply (get_a_cursor_no_return _ _ _ _ _ _ _ _ _ H). discriminate.
  - apply get_a_cursor_returns in Hget
      as [(_ & Hc & Hk & _)|(_ & _ & -> & _ & _ & conn & Hnew)].
    + rewrite (Hown Hc) in Hk. discriminate.
    + right. apply (Hbody (lc, next_cursor s, kw') (next_cursor s) s1 e s'); [|exact H].
      exists (new_cursor conn (class_of env conn cc)). auto.
Qed.

Ltac open_frame :=
  intros [[? ?] ?] ?; cbv zeta;
  repeat first
    [ apply open_on_raise_close
    | apply open_on_raise_bind;
      [ repeat first
          [ apply has_cursor_execute; auto | apply has_cursor_fetchone; auto
          | apply has_fetch_rows; auto | apply has_fetch_row_values; auto
          | apply preserves_row_value | preserves_step ]
      | intros ? ] ].

(** C2, as the code has it: each of execute, fetch_one, fetch_all, fetch_n,
    fetch_value and fetch_values, when it made its own cursor and returns
    normally, has closed that cursor by the time it returns; when instead an
    exception leaves the helper (from the statement, from a fetch), the
    cursor it made is still open. *)
Theorem helpers_close_own_cursor_on_return
    (fuel : nat) (cfg : Config) (env : Env) (th : nat) (args : Args) (kwargs : Kwargs) :
  (closes_own_cursor kwargs (execute fuel cfg env th args kwargs) /\
   closes_own_cursor kwargs (fetch_one fuel cfg env th args kwargs) /\
   closes_own_cursor kwargs (fetch_all fuel cfg env th args kwargs) /\
   (forall n, closes_own_cursor kwargs (fetch_n fuel cfg env th n args kwargs)) /\
   closes_own_cursor kwargs (fetch_value fuel cfg env th args kwargs) /\
   closes_own_cursor kwargs (fetch_values fuel cfg env th args kwargs)) /\
  (leaves_own_cursor_open kwargs (execute fuel cfg env th args kwargs) /\
   leaves_own_cursor_open kwargs (fetch_one fuel cfg env th args kwargs) /\
   leaves_own_cursor_open kwargs (fetch_all fuel cfg env th args kwargs) /\
   (forall n, leaves_own_cursor_open kwargs (fetch_n fuel cfg env th n args kwargs)) /\
   leaves_own_cursor_open kwargs (fetch_value fuel cfg env th args kwargs) /\
   leaves_own_cursor_open kwargs (fetch_values fuel cfg env th args kwargs)).
Proof.
  split.
  - split; [|split; [|split; [|split; [intros n|split]]]].
    + unfold execute. own_cursor_closed.
    + unfold fetch_one. own_cursor_closed.
    + unfold fetch_all. own_cursor_closed.
    + unfold fetch_n. own_cursor_closed.
    + unfold fetch_value. own_cursor_closed.
    + unfold fetch_values. own_cursor_closed.
  - split; [|split; [|split; [|split; [intros n|split]]]].
    + unfold execute. apply leaves_open_bind. open_frame.
    + unfold fetch_one. apply leaves_open_bind. open_frame.
    + unfold fetch_all. apply leaves_open_bind. open_frame.
    + unfold fetch_n. apply leaves_open_bind. open_frame.
    + unfold fetch_value. apply leaves_open_bind. open_frame.
    + unfold fetch_values. apply leaves_open_bind. open_frame.
Qed.

(** ** dict2obj *)

Lemma convert_element_eq sj : dict2obj_if_dict sj = convert_element sj.
Proof. destruct sj; reflexivity. Qed.

Lemma alist_get_setattr top k k' x :
  alist_get k (setattr top k' x) =
  if String.eqb k k' then Some x else alist_get k top.
Proof.
  induction top as [|[k0 v0] top IH]; simpl.
  - destruct (String.eqb k k'); reflexivity.
  - destruct (String.eqb k' k0) eqn:E0; simpl.
    + apply String.eqb_eq in E0 as ->. destruct (String.eqb k k0); reflexivity.
    + destruct (String.eqb k k0) eqn:E1.
      * apply String.eqb_eq in E1 as ->. rewrite String.eqb_sym, E0. reflexivity.
      * exact IH.
Qed.

Lemma setattr_keys top k x :
  In k (map fst top) -> map fst (setattr top k x) = map fst top.
Proof.
  induction top as [|[k0 v0] top IH]; simpl; [tauto|].
  intros Hin. destruct (String.eqb k k0) eqn:E; simpl.
  - apply String.eqb_eq in E as ->. reflexivity.
  - f_equal. apply IH. destruct Hin as [->|Hin]; [|exact Hin].
    rewrite String.eqb_refl in E. discriminate.
Qed.

Lemma alist_get_absent k l : ~ In k (map fst l) -> alist_get k l = None.
Proof.
  induction l as [|[k0 v0] l IH]; simpl; [reflexivity|]. intros Hn.
  destruct (String.eqb k k0) eqn:E.
  - apply String.eqb_eq in E as ->. tauto.
  - apply IH. tauto.
Qed.

Lemma set_loop_get f k : forall l top,
  List.NoDup (map fst l) ->
  alist_get k (set_loop f l top) =
  match alist_get k l with
  | Some v => Some (f v)
  | None => alist_get k top
  end.
Proof.
  induction l as [|[k0 v0] l IH]; intros top Hnd; [reflexivity|].
  simpl in Hnd. inversion Hnd as [|? ? Hnotin Hnd']; subst.
  unfold set_loop in *. simpl. rewrite (IH _ Hnd'). rewrite alist_get_setattr.
  destruct (String.eqb k k0) eqn:E.
  - apply String.eqb_eq in E as ->. rewrite (alist_get_absent k0 l Hnotin). reflexivity.
  - reflexivity.
Qed.

Lemma set_loop_keys f : forall l top,
  (forall k, In k (map fst l) -> In k (map fst top)) ->
  map fst (set_loop f l top) = map fst top.
Proof.
  induction l as [|[k0 v0] l IH]; intros top Hsub; [reflexivity|].
  unfold set_loop in *. simpl. rewrite IH.
  - apply setattr_keys. apply Hsub. left. reflexivity.
  - intros k Hin. rewrite setattr_keys by (apply Hsub; left; reflexivity).
    apply Hsub. right. exact Hin.
Qed.

Lemma dict2obj_unfold d : dict2obj d = VObj (set_loop expected_attribute d d).
Proof.
  unfold dict2obj. simpl. f_equal.
  assert (forall l top,
            fold_left
              (fun top kv =>
                 let '(k, v) := kv in
                 match v with
                 | VDict _ => setattr top k (dict2obj_if_dict v)
                 | VTuple xs => setattr top k (VTuple (map dict2obj_if_dict xs))
                 | VList xs => setattr top k (VList (map dict2obj_if_dict xs))
                 | VSet xs => setattr top k (VSet (map dict2obj_if_dict xs))
                 | VFrozenset xs => setattr top k (VFrozenset (map dict2obj_if_dict xs))
                 | _ => setattr top k v
                 end) l top
            = set_loop expected_attribute l top) as H.
  { induction l as [|[k v] l IH]; intros top; [reflexivity|].
    unfold set_loop in *. simpl. rewrite <- IH. f_equal.
    destruct v; simpl; try reflexivity; do 2 f_equal;
      apply map_ext; intros sj; apply convert_element_eq. }
  apply H.
Qed.

(** C8: for a dictionary [d] (its keys distinct), dict2obj(d) is an object
    with the keys of [d] as its attributes, and the attribute of key [k] is
    dict2obj of d[k] when d[k] is a mapping, a collection of the same kind
    with the mappings among its elements converted and the other elements as
    they are when d[k] is a tuple, list, set or frozenset, and d[k] itself
    otherwise. *)
Theorem dict2obj_attributes (d : list (string * value)) :
  List.NoDup (map fst d) ->
  exists attrs,
    dict2obj d = VObj attrs /\
    map fst attrs = map fst d /\
    forall k v, alist_get k d = Some v ->
                getattr (dict2obj d) k = Some (expected_attribute v).
Proof.
  intros Hnd. exists (set_loop expected_attribute d d).
  split; [apply dict2obj_unfold|]. split.
  - apply set_loop_keys. auto.
  - intros k v Hk. rewrite dict2obj_unfold. simpl.
    rewrite set_loop_get by exact Hnd. rewrite Hk. reflexivity.
Qed.

(** * Further properties of the code *)

(** ** More on get_connection *)

Lemma sweep_noop env timeout items : forall s,
  (forall th thtime, (th, thtime) ∈ items -> stale env timeout th thtime = false) ->
  sweep env timeout items s = (Returns tt, s).
Proof.
  induction items as [|[th thtime] rest IH]; intros s Hfresh; [reflexivity|].
  rewrite sweep_step, (Hfresh th thtime) by left.
  unfold bind, ret. apply IH. intros th' t' Hin. apply Hfresh. right. exact Hin.
Qed.

(** On a pool without stale entries [get_connection] is [resolve] under the
    lock. *)
Lemma get_connection_all_fresh fuel cfg env th s :
  db_connection_pool_lock s = false ->
  all_fresh env (time_now env - db_connection_timeout cfg) s ->
  get_connection fuel cfg env th s = resolve fuel env th (set_lock true s).
Proof.
  intros Hlock Hfresh. rewrite get_connection_unfold.
  unfold lock_acquire, bind at 1 2, get_state. rewrite Hlock. simpl.
  unfold bind at 1, get_state. unfold bind at 1.
  rewrite sweep_noop; [reflexivity|].
  intros th' t' Hin. apply elem_of_map_to_list in Hin. apply (Hfresh th' t' Hin).
Qed.

(** X1: the first call of a thread, on a pool with nothing to evict.  When
    connect gives a connection, it is returned, entered in both maps under
    the thread with the time of the call, and the lock is free again; when
    connect gives a false value the call ends in SystemExit(1), when connect
    raises, in that exception, and in both cases no entry has been added and
    the lock is still held. *)
Theorem get_connection_new_thread
    (fuel : nat) (cfg : Config) (env : Env) (th : nat) (s : State) :
  db_connection_pool_lock s = false ->
  all_fresh env (time_now env - db_connection_timeout cfg) s ->
  db_connection_pool s !! th = None ->
  get_connection fuel cfg env th s =
  match connect env 0 with
  | Connected c => (Returns c, installed th c (time_now env) s)
  | ConnectFalsy => (Raises (SystemExit 1), set_lock true s)
  | ConnectRaises e => (Raises e, set_lock true s)
  end.
Proof.
  intros Hlock Hfresh Hnone. rewrite get_connection_all_fresh by assumption.
  unfold resolve, bind at 1, get_state. simpl. rewrite Hnone.
  unfold new_connection, bind. destruct (connect env 0); reflexivity.
Qed.

(** X2: the pooled connection of the caller fails its ping with
    OperationalError, connect gives a replacement and the replacement answers
    its ping: the replacement is returned and takes the place of the old
    connection in the pool; the old connection is not closed. *)
Theorem get_connection_replaces_failed_connection
    (fuel : nat) (cfg : Config) (env : Env) (th : nat) (s : State) (c c' : nat) :
  db_connection_pool_lock s = false ->
  all_fresh env (time_now env - db_connection_timeout cfg) s ->
  db_connection_pool s !! th = Some c ->
  conn_ping env c = Some OperationalError ->
  connect env 0 = Connected c' ->
  conn_ping env c' = None ->
  2 <= fuel ->
  get_connection fuel cfg env th s = (Returns c', installed th c' (time_now env) s) /\
  closed_connections (installed th c' (time_now env) s) = closed_connections s.
Proof.
  intros Hlock Hfresh Hpool Hping Hconn Hping' Hfuel.
  split; [|reflexivity].
  rewrite get_connection_all_fresh by assumption.
  destruct fuel as [|[|fuel]]; try lia.
  unfold resolve, bind at 1, get_state. simpl db_connection_pool. rewrite Hpool.
  simpl ping_loop. rewrite Hping. unfold new_connection. rewrite Hconn.
  unfold bind, ret, pool_setitem, modify. rewrite Hping'. simpl.
  reflexivity.
Qed.

Lemma ping_loop_out_of_fuel fuel env th : forall i c s,
  (forall c0, conn_ping env c0 = Some OperationalError) ->
  (forall j, exists c1, connect env j = Connected c1) ->
  fst (ping_loop fuel env th i c s) = OutOfFuel.
Proof.
  induction fuel as [|fuel IH]; intros i c s Hping Hconn; [reflexivity|].
  simpl. rewrite Hping. destruct (Hconn i) as [c1 Hc1].
  unfold bind, new_connection. rewrite Hc1. simpl. apply IH; assumption.
Qed.

(** X3: when every ping fails with OperationalError and every connect
    succeeds, the loop of get_connection replaces the connection again and
    again: whatever the bound on its turns, the call has not returned, and
    the lock is held. *)
Theorem get_connection_ping_loop_never_ends
    (fuel : nat) (cfg : Config) (env : Env) (th : nat) (s : State) (c : nat) :
  db_connection_pool_lock s = false ->
  all_fresh env (time_now env - db_connection_timeout cfg) s ->
  db_connection_pool s !! th = Some c ->
  (forall c0, conn_ping env c0 = Some OperationalError) ->
  (forall j, exists c1, connect env j = Connected c1) ->
  fst (get_connection fuel cfg env th s) = OutOfFuel /\
  db_connection_pool_lock (snd (get_connection fuel cfg env th s)) = true.
Proof.
  intros Hlock Hfresh Hpool Hping Hconn.
  assert (exists s1, get_connection fuel cfg env th s = (OutOfFuel, s1) /\ locked s1)
    as (s1 & Hrun & Hl).
  { rewrite get_connection_all_fresh by assumption.
    unfold resolve, bind at 1, get_state. simpl db_connection_pool. rewrite Hpool.
    pose proof (ping_loop_out_of_fuel fuel env th 0 c (set_lock true s) Hping Hconn)
      as Hout.
    pose proof (ping_loop_locked fuel env th 0 c (set_lock true s) eq_refl) as Hl.
    unfold bind. destruct (ping_loop fuel env th 0 c (set_lock true s)) as [o s1].
    simpl in Hout. subst o. exists s1. split; [reflexivity|exact Hl]. }
  rewrite Hrun. split; [reflexivity|exact Hl].
Qed.

(** [resolve] works on the entry of the calling thread only. *)
Lemma resolve_other fuel env th th' (v : option nat) (w : option Z) :
  th' <> th ->
  preserves (fun s => db_connection_pool s !! th' = v /\
                      db_connection_activity s !! th' = w) (resolve fuel env th).
Proof.
  intros Hne.
  assert (forall c, preserves
            (fun s => db_connection_pool s !! th' = v /\
                      db_connection_activity s !! th' = w) (pool_setitem th c)) as Hset.
  { intros c. apply preserves_modify. intros s [Hp Ha]. simpl.
    rewrite lookup_insert_ne by congruence. auto. }
  unfold resolve. apply preserves_bind; [apply preserves_get|intros s0].
  apply preserves_bind; [|intros c; apply preserves_bind; [|intros _]].
  - destruct (db_connection_pool s0 !! th) as [c|].
    + generalize 0 at 1. revert c. induction fuel as [|fuel IH]; intros c i; simpl.
      * apply preserves_out_of_fuel.
      * destruct (conn_ping env c) as [[]|];
          try apply preserves_raise; try apply preserves_ret.
        apply preserves_bind; [apply preserves_new_connection|intros c'].
        apply preserves_bind; [apply Hset|intros _; apply IH].
    + apply preserves_bind; [apply preserves_new_connection|intros c'].
      apply preserves_bind; [apply Hset|intros _; apply preserves_ret].
  - apply preserves_modify. intros s [Hp Ha]. simpl.
    rewrite lookup_insert_ne by congruence. auto.
  - apply preserves_bind; [|intros _; apply preserves_ret].
    apply preserves_modify. intros s H. exact H.
Qed.

(** X4: whatever a call of get_connection does and however it ends, the
    entry of another thread that is alive and not idle is as it was: same
    connection, same time stamp. *)
Theorem get_connection_keeps_fresh_entries
    (fuel : nat) (cfg : Config) (env : Env) (th th' : nat) (s : State) :
  th' <> th ->
  (forall thtime,
     db_connection_activity s !! th' = Some thtime ->
     stale env (time_now env - db_connection_timeout cfg) th' thtime = false) ->
  db_connection_pool (snd (get_connection fuel cfg env th s)) !! th'
    = db_connection_pool s !! th' /\
  db_connection_activity (snd (get_connection fuel cfg env th s)) !! th'
    = db_connection_activity s !! th'.
Proof.
  intros Hne Hfresh.
  set (P := fun s0 => db_connection_pool s0 !! th' = db_connection_pool s !! th' /\
                      db_connection_activity s0 !! th' = db_connection_activity s !! th').
  change (P (snd (get_connection fuel cfg env th s))).
  rewrite get_connection_unfold.
  unfold lock_acquire, bind at 1 2, get_state.
  destruct (db_connection_pool_lock s); [split; reflexivity|]. simpl.
  unfold bind at 1, get_state.
  apply (preserves_bind P (sweep _ _ _) (fun _ => resolve fuel env th)).
  - apply sweep_keeps. intros thtime Hin. apply elem_of_map_to_list in Hin.
    apply Hfresh. exact Hin.
  - intros _. apply resolve_other. exact Hne.
  - split; reflexivity.
Qed.

(** A normal return of [get_connection], taken apart. *)
Lemma get_connection_returns_inv fuel cfg env th s c s' :
  get_connection fuel cfg env th s = (Returns c, s') ->
  exists s1,
    sweep env (time_now env - db_connection_timeout cfg)
      (map_to_list (db_connection_activity s)) (set_lock true s) = (Returns tt, s1) /\
    resolve fuel env th s1 = (Returns c, s').
Proof.
  rewrite get_connection_unfold. unfold lock_acquire, bind at 1 2, get_state.
  destruct (db_connection_pool_lock s); [discriminate|]. simpl.
  unfold bind at 1, get_state. intros H.
  apply bind_returns_inv in H as ([] & s1 & Hsweep & H).
  exists s1. split; assumption.
Qed.

(** X5: when get_connection returns, the entry of the caller holds the
    returned connection and the time of the call, the lock is free, and no
    entry of another thread is stale: each is an entry that was there before
    the call, of a thread that is alive and was used within the timeout. *)
Theorem get_connection_returns_clean_pool
    (fuel : nat) (cfg : Config) (env : Env) (th : nat) (s s' : State) (c : nat) :
  get_connection fuel cfg env th s = (Returns c, s') ->
  db_connection_pool_lock s' = false /\
  db_connection_pool s' !! th = Some c /\
  db_connection_activity s' !! th = Some (time_now env) /\
  forall th' thtime,
    th' <> th ->
    db_connection_activity s' !! th' = Some thtime ->
    db_connection_activity s !! th' = Some thtime /\
    isAlive env th' = true /\
    (time_now env - db_connection_timeout cfg <= thtime)%Z.
Proof.
  intros Hrun.
  destruct (get_connection_returns _ _ _ _ _ _ _ Hrun) as (Hl & Hp & Ha).
  split; [exact Hl|]. split; [exact Hp|]. split; [exact Ha|].
  intros th' thtime Hne Hin.
  apply get_connection_returns_inv in Hrun as (s1 & Hsweep & Hres).
  set (timeout := (time_now env - db_connection_timeout cfg)%Z) in *.
  assert (db_connection_activity s1 !! th' = Some thtime) as H1.
  { pose proof (resolve_other fuel env th th' (db_connection_pool s1 !! th')
                  (db_connection_activity s1 !! th') Hne s1 (conj eq_refl eq_refl)) as H.
    rewrite Hres in H. simpl in H. destruct H as [_ H]. rewrite <- H. exact Hin. }
  assert (db_connection_activity s !! th' = Some thtime) as H0.
  { pose proof (sweep_shrinks (set_lock true s) env timeout
                  (map_to_list (db_connection_activity s)) (set_lock true s)
                  (shrinks_refl _)) as Hsh.
    rewrite Hsweep in Hsh. destruct Hsh as (_ & Hsub & _). simpl in Hsub.
    eapply lookup_weaken; [exact H1|exact Hsub]. }
  split; [exact H0|].
  destruct (stale env timeout th' thtime) eqn:Hst.
  - destruct (sweep_evicts env timeout _ _ _ th' thtime Hsweep) as (_ & Hgone & _).
    + apply elem_of_map_to_list. exact H0.
    + exact Hst.
    + rewrite Hgone in H1. discriminate.
  - unfold stale in Hst. apply orb_false_iff in Hst as [Halive Hidle].
    apply negb_false_iff in Halive. apply Z.ltb_ge in Hidle. auto.
Qed.

(** X6: the caller's own entry is stale (the thread was idle past the
    timeout): its connection is closed by the sweep, no ping is made, and the
    call returns the connection that connect gives, entered under the thread
    with the time of the call. *)
Theorem get_connection_idle_caller_reconnects
    (fuel : nat) (cfg : Config) (env : Env) (th : nat) (s : State)
    (c c' : nat) (thtime : Z) :
  db_connection_pool_lock s = false ->
  pool_inv s ->
  (forall th0 c0 t0,
     db_connection_pool s !! th0 = Some c0 ->
     db_connection_activity s !! th0 = Some t0 ->
     stale env (time_now env - db_connection_timeout cfg) th0 t0 = true ->
     conn_close env c0 = None) ->
  db_connection_pool s !! th = Some c ->
  db_connection_activity s !! th = Some thtime ->
  (thtime < time_now env - db_connection_timeout cfg)%Z ->
  connect env 0 = Connected c' ->
  exists s',
    get_connection fuel cfg env th s = (Returns c', s') /\
    c ∈ closed_connections s' /\
    db_connection_pool s' !! th = Some c' /\
    db_connection_activity s' !! th = Some (time_now env).
Proof.
  intros Hlock Hinv Hclose Hp Ha Hidle Hconn.
  destruct (get_connection_after_sweep fuel cfg env th s Hlock Hinv Hclose)
    as (s1 & Hs1 & Hrest).
  destruct (sweep_evicts _ _ _ _ _ th thtime Hs1) as (H1 & H2 & c0 & H3 & H4).
  { apply elem_of_map_to_list. exact Ha. }
  { apply stale_true. right. exact Hidle. }
  simpl in H3. rewrite Hp in H3. injection H3 as <-.
  rewrite Hrest. unfold resolve, bind at 1, get_state. rewrite H1.
  unfold new_connection. rewrite Hconn.
  eexists. split; [reflexivity|]. simpl.
  split; [exact H4|]. split; apply lookup_insert_eq.
Qed.

(** ** Helpers that are given a connection or a cursor *)

Lemma settles_ret {A} (a : A) : settles (ret a).
Proof. intros s. left. eauto. Qed.

Lemma settles_raise {A} e : settles (@raise A e).
Proof. intros s. right. eauto. Qed.

Lemma settles_get : settles get_state.
Proof. intros s. left. eauto. Qed.

Lemma settles_modify f : settles (modify f).
Proof. intros s. left. eauto. Qed.

Lemma settles_bind {A B} (m : M A) (k : A -> M B) :
  settles m -> (forall a, settles (k a)) -> settles (bind m k).
Proof.
  intros Hm Hk s. unfold bind. destruct (Hm s) as [[a Ha]|[e He]];
    destruct (m s) as [o s1]; simpl in *; subst o.
  - apply Hk.
  - right. eauto.
Qed.

Ltac settles_step :=
  first
    [ apply settles_ret | apply settles_raise | apply settles_get
    | apply settles_modify
    | apply settles_bind; [|intros ?]
    | match goal with
      | |- settles (match ?x with _ => _ end) => destruct x
      end
    | assumption ].

Lemma settles_connection_cursor env conn cc : settles (connection_cursor env conn cc).
Proof. unfold connection_cursor. repeat settles_step. Qed.

Lemma settles_cursor_execute env k args kw : settles (cursor_execute env k args kw).
Proof. unfold cursor_execute, the_cursor, update_cursor. repeat settles_step. Qed.

Lemma settles_cursor_fetchone k : settles (cursor_fetchone k).
Proof. unfold cursor_fetchone, the_cursor, update_cursor. repeat settles_step. Qed.

Lemma settles_close_local lc : settles (close_local lc).
Proof.
  unfold close_local, cursor_close, the_cursor, update_cursor. repeat settles_step.
Qed.

Lemma settles_row_value row : settles (row_value row).
Proof.
  unfold row_value, py_len, py_getitem0. repeat settles_step.
Qed.

Lemma settles_dict2obj_call row : settles (dict2obj_call row).
Proof. unfold dict2obj_call. repeat settles_step. Qed.

Lemma settles_fetch_rows j k : settles (fetch_rows j k).
Proof.
  induction j as [|j IH]; simpl;
    repeat first [apply settles_cursor_fetchone | settles_step].
Qed.

Lemma settles_fetch_row_values j k : settles (fetch_row_values j k).
Proof.
  induction j as [|j IH]; simpl;
    repeat first [apply settles_cursor_fetchone | apply settles_row_value | settles_step].
Qed.

Lemma same_pool_cursor_blind s0 : cursor_blind (same_pool s0).
Proof. intros s t n H. exact H. Qed.

Lemma same_pool_refl s : same_pool s s.
Proof. repeat split. Qed.

(** With a connection or a cursor given, the block [# get a cursor] does not
    go to the pool. *)
Lemma get_a_cursor_bypasses fuel cfg env th cc kwargs :
  has_connection_or_cursor kwargs ->
  (forall s0, preserves (same_pool s0) (get_a_cursor fuel cfg env th cc kwargs)) /\
  settles (get_a_cursor fuel cfg env th cc kwargs).
Proof.
  intros Hgiven. unfold get_a_cursor, has_connection_or_cursor in *.
  destruct (kw_connection kwargs) as [conn|].
  - split.
    + intros s0. apply preserves_bind; [|intros; apply preserves_ret].
      apply preserves_connection_cursor, same_pool_cursor_blind.
    + apply settles_bind; [apply settles_connection_cursor|intros; apply settles_ret].
  - destruct (kw_cursor kwargs) as [k|].
    + split; [intros s0; apply preserves_ret|apply settles_ret].
    + destruct Hgiven as [[? H]|[? H]]; discriminate H.
Qed.

Ltac bypass_frame Hget :=
  split;
  [ intros s; apply preserves_bind;
    [ apply Hget
    | intros [[? ?] ?];
      repeat first
        [ apply preserves_cursor_execute; apply same_pool_cursor_blind
        | apply preserves_cursor_fetchone; apply same_pool_cursor_blind
        | apply preserves_close_local; apply same_pool_cursor_blind
        | apply preserves_fetch_rows; apply same_pool_cursor_blind
        | apply preserves_fetch_row_values; apply same_pool_cursor_blind
        | apply preserves_row_value
        | apply preserves_dict2obj_call
        | preserves_step ]
    | apply same_pool_refl ]
  | apply settles_bind;
    [ apply Hget
    | intros [[? ?] ?];
      repeat first
        [ apply settles_cursor_execute | apply settles_cursor_fetchone
        | apply settles_close_local | apply settles_fetch_rows
        | apply settles_fetch_row_values | apply settles_row_value
        | apply settles_dict2obj_call | settles_step ] ] ].

(** X7: a helper that is given [connection=...] or [cursor=...] does not go
    to the pool: whatever it does, the two maps, the lock and the closed
    connections are as before, and it never waits for the lock (it returns or
    raises), even when the lock is held for good. *)
Theorem helpers_with_connection_or_cursor_bypass_pool
    (fuel : nat) (cfg : Config) (env : Env) (th : nat) (args : Args) (kwargs : Kwargs) :
  has_connection_or_cursor kwargs ->
  bypasses_pool (execute fuel cfg env th args kwargs) /\
  bypasses_pool (fetch_one fuel cfg env th args kwargs) /\
  bypasses_pool (fetch_all fuel cfg env th args kwargs) /\
  (forall n, bypasses_pool (fetch_n fuel cfg env th n args kwargs)) /\
  bypasses_pool (fetch_value fuel cfg env th args kwargs) /\
  bypasses_pool (fetch_values fuel cfg env th args kwargs) /\
  bypasses_pool (yield_rows_next fuel cfg env th (yield_rows args kwargs)) /\
  bypasses_pool (yield_values_next fuel cfg env th (yield_values args kwargs)) /\
  bypasses_pool (yield_objects_next fuel cfg env th (yield_objects args kwargs)).
Proof.
  intros Hgiven.
  assert (forall cc,
            (forall s0, preserves (same_pool s0) (get_a_cursor fuel cfg env th cc kwargs)) /\
            settles (get_a_cursor fuel cfg env th cc kwargs)) as Hget.
  { intros cc. apply get_a_cursor_bypasses, Hgiven. }
  split; [|split; [|split; [|split; [intros n|split; [|split; [|split; [|split]]]]]]].
  - unfold execute. bypass_frame (Hget (Some (db_cursor_class cfg))).
  - unfold fetch_one. bypass_frame (Hget (Some (db_cursor_class cfg))).
  - unfold fetch_all. bypass_frame (Hget (Some (db_cursor_class cfg))).
  - unfold fetch_n. bypass_frame (Hget (Some (db_cursor_class cfg))).
  - unfold fetch_value. bypass_frame (Hget None).
  - unfold fetch_values. bypass_frame (Hget None).
  - unfold yield_rows_next, yield_rows, generator_next, generator_loop.
    bypass_frame (Hget (Some (db_cursor_class cfg))).
  - unfold yield_values_next, yield_values, generator_next, generator_loop.
    bypass_frame (Hget None).
  - unfold yield_objects_next, yield_objects, generator_next, generator_loop.
    bypass_frame (Hget (Some (db_cursor_class cfg))).
Qed.

Lemma cursors_kept_refl s : cursors_kept s s.
Proof. split; reflexivity. Qed.

Lemma cursors_kept_put s0 k c c' s :
  cursors_kept s0 s ->
  cursor_table s !! k = Some c ->
  cursor_closed c' = cursor_closed c ->
  cursors_kept s0 (put_cursor k c' s).
Proof.
  intros [Hn Hk] Hc Hsame. split; [exact Hn|]. intros k'. simpl.
  destruct (decide (k = k')) as [->|Hne].
  - rewrite lookup_insert_eq, <- Hk, Hc. simpl. congruence.
  - rewrite lookup_insert_ne by exact Hne. apply Hk.
Qed.

Lemma kept_cursor_execute s0 env k args kw :
  preserves (cursors_kept s0) (cursor_execute env k args kw).
Proof.
  intros s H. unfold cursor_execute, the_cursor, bind, get_state.
  destruct (cursor_table s !! k) as [c|] eqn:Hk; simpl; [|exact H].
  destruct (kwargs_empty kw); simpl; [|exact H].
  destruct (run_statement env args); simpl; [|exact H].
  apply (cursors_kept_put s0 k c _ s H Hk). reflexivity.
Qed.

Lemma kept_cursor_fetchone s0 k : preserves (cursors_kept s0) (cursor_fetchone k).
Proof.
  intros s H. unfold cursor_fetchone, the_cursor, bind, get_state.
  destruct (cursor_table s !! k) as [c|] eqn:Hk; simpl; [|exact H].
  destruct (cursor_pending c) as [|[r|e] rest]; simpl; [exact H| |];
    apply (cursors_kept_put s0 k c _ s H Hk); reflexivity.
Qed.

Lemma kept_fetch_rows s0 j k : preserves (cursors_kept s0) (fetch_rows j k).
Proof.
  induction j as [|j IH]; simpl;
    repeat first [apply kept_cursor_fetchone | preserves_step].
Qed.

Lemma kept_fetch_row_values s0 j k : preserves (cursors_kept s0) (fetch_row_values j k).
Proof.
  induction j as [|j IH]; simpl;
    repeat first [apply kept_cursor_fetchone | apply preserves_row_value
                 | preserves_step].
Qed.

Lemma get_a_cursor_only_cursor fuel cfg env th cc kwargs :
  only_cursor kwargs ->
  exists k, get_a_cursor fuel cfg env th cc kwargs = ret (None, k, no_kwargs).
Proof.
  intros [Hc [k Hk]]. exists k. unfold get_a_cursor. rewrite Hc, Hk. reflexivity.
Qed.

Ltac kept_frame :=
  intros s; unfold bind at 1, ret at 1; simpl;
  match goal with
  | |- cursors_kept ?s0 (snd (?m ?s0)) =>
      apply (fun H : preserves (cursors_kept s0) m => H s0 (cursors_kept_refl s0))
  end;
  repeat first
    [ apply kept_cursor_execute | apply kept_cursor_fetchone
    | apply kept_fetch_rows | apply kept_fetch_row_values
    | apply preserves_row_value | apply preserves_dict2obj_call
    | preserves_step ].

Lemma generator_next_keeps_cursors fuel cfg env th cc shape :
  (forall row P, preserves P (shape row)) ->
  next_keeps_cursors (generator_next fuel cfg env th cc shape).
Proof.
  intros Hshape g Hg. split.
  - destruct g as [args kwargs|lc k r|]; simpl in Hg.
    + destruct (get_a_cursor_only_cursor fuel cfg env th cc kwargs Hg) as [k Hget].
      unfold generator_next, generator_loop. rewrite Hget. kept_frame. all: apply Hshape.
    + subst lc. unfold generator_next, generator_loop. intros s.
      apply (fun H : preserves (cursors_kept s) _ => H s (cursors_kept_refl s)).
      repeat first [apply kept_cursor_fetchone | apply Hshape | preserves_step].
    + intros s. apply cursors_kept_refl.
  - intros s v g' s' Hrun. destruct g as [args kwargs|lc k r|]; simpl in Hg.
    + destruct (get_a_cursor_only_cursor fuel cfg env th cc kwargs Hg) as [k Hget].
      unfold generator_next in Hrun. rewrite Hget in Hrun.
      unfold bind at 1, ret at 1 in Hrun.
      apply bind_returns_inv in Hrun as (count & s1 & _ & Hrun).
      unfold generator_loop in Hrun. destruct (Z.to_nat count).
      * apply bind_returns_inv in Hrun as (? & ? & _ & Hrun). injection Hrun as _ <- _.
        exact I.
      * apply bind_returns_inv in Hrun as (? & ? & _ & Hrun).
        apply bind_returns_inv in Hrun as (? & ? & _ & Hrun). injection Hrun as _ <- _.
        reflexivity.
    + subst lc. unfold generator_next, generator_loop in Hrun. destruct r.
      * apply bind_returns_inv in Hrun as (? & ? & _ & Hrun). injection Hrun as _ <- _.
        exact I.
      * apply bind_returns_inv in Hrun as (? & ? & _ & Hrun).
        apply bind_returns_inv in Hrun as (? & ? & _ & Hrun). injection Hrun as _ <- _.
        reflexivity.
    + injection Hrun as _ <- _. exact I.
Qed.

(** X8: a helper that works on a cursor of the caller (cursor=... without
    connection=...) makes no cursor and closes none, however it ends: every
    cursor is closed or open as before the call.  The same holds for every
    call of next on a generator that works on a cursor of the caller, to the
    end of the iteration. *)
Theorem helpers_leave_caller_cursor_open
    (fuel : nat) (cfg : Config) (env : Env) (th : nat) (args : Args) (kwargs : Kwargs) :
  only_cursor kwargs ->
  keeps_cursors (execute fuel cfg env th args kwargs) /\
  keeps_cursors (fetch_one fuel cfg env th args kwargs) /\
  keeps_cursors (fetch_all fuel cfg env th args kwargs) /\
  (forall n, keeps_cursors (fetch_n fuel cfg env th n args kwargs)) /\
  keeps_cursors (fetch_value fuel cfg env th args kwargs) /\
  keeps_cursors (fetch_values fuel cfg env th args kwargs) /\
  next_keeps_cursors (yield_rows_next fuel cfg env th) /\
  next_keeps_cursors (yield_values_next fuel cfg env th) /\
  next_keeps_cursors (yield_objects_next fuel cfg env th).
Proof.
  intros Honly.
  assert (forall cc, exists k,
            get_a_cursor fuel cfg env th cc kwargs = ret (None, k, no_kwargs)) as Hget.
  { intros cc. apply get_a_cursor_only_cursor, Honly. }
  split; [|split; [|split; [|split; [intros n|split; [|split; [|split; [|split]]]]]]].
  - unfold execute. destruct (Hget (Some (db_cursor_class cfg))) as [k ->]. kept_frame.
  - unfold fetch_one. destruct (Hget (Some (db_cursor_class cfg))) as [k ->]. kept_frame.
  - unfold fetch_all. destruct (Hget (Some (db_cursor_class cfg))) as [k ->]. kept_frame.
  - unfold fetch_n. destruct (Hget (Some (db_cursor_class cfg))) as [k ->]. kept_frame.
  - unfold fetch_value. destruct (Hget None) as [k ->]. kept_frame.
  - unfold fetch_values. destruct (Hget None) as [k ->]. kept_frame.
  - apply generator_next_keeps_cursors. intros; apply preserves_ret.
  - apply generator_next_keeps_cursors. intros; apply preserves_row_value.
  - apply generator_next_keeps_cursors. intros; apply preserves_dict2obj_call.
Qed.

(** ** Helpers that go to the pool while the lock is held *)

Lemma get_a_cursor_blocks fuel cfg env th cc s :
  locked s -> get_a_cursor fuel cfg env th cc no_kwargs s = (Blocks, s).
Proof.
  intros H. unfold get_a_cursor, bind. simpl.
  rewrite get_connection_blocks by exact H. reflexivity.
Qed.

Ltac blocks_frame :=
  let s := fresh "s" in let H := fresh "H" in
  intros s H; unfold bind at 1; rewrite get_a_cursor_blocks by exact H; reflexivity.

(** X9: while the pool lock is held, every helper that is given neither a
    connection nor a cursor waits for the lock: it makes no cursor, executes
    nothing and changes nothing.  With the lock left held by an exception in
    get_connection, this is the end of every such call. *)
Theorem helpers_block_on_held_lock
    (fuel : nat) (cfg : Config) (env : Env) (th : nat) (args : Args) :
  blocks_on_lock (execute fuel cfg env th args no_kwargs) /\
  blocks_on_lock (fetch_one fuel cfg env th args no_kwargs) /\
  blocks_on_lock (fetch_all fuel cfg env th args no_kwargs) /\
  (forall n, blocks_on_lock (fetch_n fuel cfg env th n args no_kwargs)) /\
  blocks_on_lock (fetch_value fuel cfg env th args no_kwargs) /\
  blocks_on_lock (fetch_values fuel cfg env th args no_kwargs) /\
  blocks_on_lock (yield_rows_next fuel cfg env th (yield_rows args no_kwargs)) /\
  blocks_on_lock (yield_values_next fuel cfg env th (yield_values args no_kwargs)) /\
  blocks_on_lock (yield_objects_next fuel cfg env th (yield_objects args no_kwargs)).
Proof.
  split; [|split; [|split; [|split; [intros n|split; [|split; [|split; [|split]]]]]]].
  - unfold execute. blocks_frame.
  - unfold fetch_one. blocks_frame.
  - unfold fetch_all. blocks_frame.
  - unfold fetch_n. blocks_frame.
  - unfold fetch_value. blocks_frame.
  - unfold fetch_values. blocks_frame.
  - unfold yield_rows_next, yield_rows, generator_next. blocks_frame.
  - unfold yield_values_next, yield_values, generator_next. blocks_frame.
  - unfold yield_objects_next, yield_objects, generator_next. blocks_frame.
Qed.

(** ** Both keyword arguments at once *)

Lemma get_a_cursor_with_connection fuel cfg env th cc kwargs conn s :
  kw_connection kwargs = Some conn ->
  get_a_cursor fuel cfg env th cc kwargs s =
  (Returns (Some (next_cursor s), next_cursor s,
            {| kw_connection := None; kw_cursor := kw_cursor kwargs |}),
   cursor_made env conn cc s).
Proof.
  intros Hc. unfold get_a_cursor. rewrite Hc. unfold bind.
  rewrite connection_cursor_eq. reflexivity.
Qed.

Lemma cursor_execute_leftover env k args kw s cs :
  cursor_table s !! k = Some cs ->
  kwargs_empty kw = false ->
  cursor_execute env k args kw s = (Raises TypeError, s).
Proof.
  intros Hk Hkw. unfold cursor_execute, bind.
  rewrite (the_cursor_at k cs s Hk), Hkw. reflexivity.
Qed.

Lemma cursor_made_open env conn cc s :
  is_open (next_cursor s) (cursor_made env conn cc s).
Proof.
  exists (new_cursor conn (class_of env conn cc)). split; [apply lookup_insert_eq|reflexivity].
Qed.

Ltac refuses_frame conn Hc Hk :=
  let s := fresh "s" in
  intros s;
  match goal with
  | |- fst (?m s) = _ /\ _ =>
      let cc := fresh "cc" in
      let ev := fresh "ev" in
      assert (exists ev cc, m s = (Raises TypeError, cursor_made ev conn cc s))
        as (ev & cc & ->);
      [ eexists _, _; unfold bind at 1;
        rewrite (get_a_cursor_with_connection _ _ _ _ _ _ _ s Hc);
        unfold bind at 1;
        rewrite (cursor_execute_leftover _ _ _ _ _ _ (lookup_insert_eq _ _ _));
        [ reflexivity | unfold kwargs_empty; simpl; rewrite Hk; reflexivity ]
      | split; [reflexivity|apply cursor_made_open] ]
  end.

(** X10: with both connection=... and cursor=... the helper takes the
    connection and makes a cursor of its own; [cursor] stays among the keyword
    arguments.  execute, fetch_one, fetch_all, fetch_n and the three
    generators hand it to cursor.execute and end in TypeError with the cursor
    they made left open; fetch_value and fetch_values give cursor.execute no
    keyword arguments and do what they do with the connection alone. *)
Theorem helpers_with_connection_and_cursor
    (fuel : nat) (cfg : Config) (env : Env) (th : nat) (args : Args)
    (kwargs : Kwargs) (conn k : nat) :
  kw_connection kwargs = Some conn ->
  kw_cursor kwargs = Some k ->
  (refuses_cursor_keyword (execute fuel cfg env th args kwargs) /\
   refuses_cursor_keyword (fetch_one fuel cfg env th args kwargs) /\
   refuses_cursor_keyword (fetch_all fuel cfg env th args kwargs) /\
   (forall n, refuses_cursor_keyword (fetch_n fuel cfg env th n args kwargs)) /\
   refuses_cursor_keyword (yield_rows_next fuel cfg env th (yield_rows args kwargs)) /\
   refuses_cursor_keyword (yield_values_next fuel cfg env th (yield_values args kwargs)) /\
   refuses_cursor_keyword
     (yield_objects_next fuel cfg env th (yield_objects args kwargs))) /\
  (forall s, fetch_value fuel cfg env th args kwargs s
             = fetch_value fuel cfg env th args (with_connection conn) s) /\
  (forall s, fetch_values fuel cfg env th args kwargs s
             = fetch_values fuel cfg env th args (with_connection conn) s).
Proof.
  intros Hc Hk. split; [|split].
  - split; [|split; [|split; [|split; [intros n|split; [|split]]]]].
    + unfold execute. refuses_frame conn Hc Hk.
    + unfold fetch_one. refuses_frame conn Hc Hk.
    + unfold fetch_all. refuses_frame conn Hc Hk.
    + unfold fetch_n. refuses_frame conn Hc Hk.
    + unfold yield_rows_next, yield_rows, generator_next. refuses_frame conn Hc Hk.
    + unfold yield_values_next, yield_values, generator_next. refuses_frame conn Hc Hk.
    + unfold yield_objects_next, yield_objects, generator_next. refuses_frame conn Hc Hk.
  - intros s. unfold fetch_value. unfold bind at 1 6.
    rewrite (get_a_cursor_with_connection _ _ _ _ _ _ _ s Hc).
    rewrite (get_a_cursor_with_connection _ _ _ _ _ (with_connection conn) _ s eq_refl).
    reflexivity.
  - intros s. unfold fetch_values. unfold bind at 1 5.
    rewrite (get_a_cursor_with_connection _ _ _ _ _ _ _ s Hc).
    rewrite (get_a_cursor_with_connection _ _ _ _ _ (with_connection conn) _ s eq_refl).
    reflexivity.
Qed.

(** ** The rows the list helpers return *)

Lemma cursor_fetchone_none k cs s :
  cursor_table s !! k = Some cs ->
  cursor_pending cs = [] ->
  cursor_fetchone k s = (Returns VNone, s).
Proof.
  intros Hk Hp. unfold cursor_fetchone, bind.
  rewrite (the_cursor_at k cs s Hk), Hp. reflexivity.
Qed.

(** The loop of [fetch_all] for any number of turns: the rows there are,
    then [None] for every turn that finds no row. *)
Lemma fetch_rows_padded k j : forall rows s cs,
  cursor_table s !! k = Some cs ->
  cursor_pending cs = map Fetched rows ->
  exists s' cs',
    fetch_rows j k s =
      (Returns (map (shape_row (cursor_class cs)) (firstn j rows)
                ++ repeat VNone (j - length rows)), s') /\
    cursor_table s' !! k = Some cs'.
Proof.
  induction j as [|j IH]; intros rows s cs Hk Hp.
  - exists s, cs. split; [reflexivity|exact Hk].
  - destruct rows as [|r rows]; simpl in Hp.
    + destruct (IH [] s cs Hk Hp) as (s' & cs' & Hrun & Hk').
      exists s', cs'. split; [|exact Hk'].
      simpl. unfold bind at 1. rewrite (cursor_fetchone_none k cs s Hk Hp).
      unfold bind at 1. rewrite Hrun. rewrite firstn_nil. simpl.
      rewrite Nat.sub_0_r. reflexivity.
    + destruct (IH rows (put_cursor k (set_pending (map Fetched rows) cs) s)
                  (set_pending (map Fetched rows) cs))
        as (s' & cs' & Hrun & Hk'); [apply put_cursor_at|reflexivity|].
      exists s', cs'. split; [|exact Hk'].
      simpl. unfold bind at 1. rewrite (cursor_fetchone_row k cs s r _ Hk Hp).
      unfold bind at 1. rewrite Hrun. reflexivity.
Qed.

(** X11: fetch_all makes as many fetches as the statement reports rows: it
    returns the rows there are, in fetch order, followed by None for every
    reported row that is not there (a statement that changes rows reports a
    count and has no row to fetch); a count of zero or below gives the empty
    list.  When the count is the number of rows, the result is all the rows. *)
Theorem fetch_all_returns_count_rows
    (fuel : nat) (cfg : Config) (env : Env) (th : nat) (args : Args)
    (kwargs : Kwargs) (s s1 : State) (lc : option nat) (k : nat) (kw' : Kwargs)
    (cs : CursorState) (count : Z) (rows : list RawRow) :
  get_a_cursor fuel cfg env th (Some (db_cursor_class cfg)) kwargs s
    = (Returns (lc, k, kw'), s1) ->
  kwargs_empty kw' = true ->
  cursor_table s1 !! k = Some cs ->
  run_statement env args = Executed count (map Fetched rows) ->
  exists s' result,
    fetch_all fuel cfg env th args kwargs s = (Returns result, s') /\
    result = map (shape_row (cursor_class cs)) (firstn (Z.to_nat count) rows)
             ++ repeat VNone (Z.to_nat count - length rows) /\
    length result = Z.to_nat count /\
    (count = Z.of_nat (length rows) ->
     result = map (shape_row (cursor_class cs)) rows).
Proof.
  intros Hget Hkw Hk Hrun.
  assert (lc = None \/ lc = Some k) as Hlc.
  { apply get_a_cursor_returns in Hget as [(-> & _)|(-> & _)]; auto. }
  destruct (fetch_rows_padded k (Z.to_nat count) rows
              (put_cursor k (set_pending (map Fetched rows) cs) s1)
              (set_pending (map Fetched rows) cs))
    as (s2 & cs2 & Hfetch & Hk2); [apply put_cursor_at|reflexivity|].
  destruct (close_local_ok lc k cs2 s2 Hk2 Hlc) as [s3 Hclose].
  exists s3. eexists. split; [|split; [reflexivity|split]].
  - unfold fetch_all. unfold bind at 1. rewrite Hget.
    unfold bind at 1. rewrite (cursor_execute_ok env k args kw' s1 cs count _ Hk Hkw Hrun).
    unfold bind at 1. rewrite Hfetch.
    unfold bind at 1. rewrite Hclose. reflexivity.
  - rewrite length_app, length_map, length_firstn, repeat_length. lia.
  - intros ->. rewrite Nat2Z.id, firstn_all, Nat.sub_diag. simpl.
    apply app_nil_r.
Qed.

(** X12: fetch_one makes one fetch whatever count the statement reports: it
    returns the first row as the cursor presents it, or None when there is no
    row. *)
Theorem fetch_one_returns_first_row
    (fuel : nat) (cfg : Config) (env : Env) (th : nat) (args : Args)
    (kwargs : Kwargs) (s s1 : State) (lc : option nat) (k : nat) (kw' : Kwargs)
    (cs : CursorState) (count : Z) (rows : list RawRow) :
  get_a_cursor fuel cfg env th (Some (db_cursor_class cfg)) kwargs s
    = (Returns (lc, k, kw'), s1) ->
  kwargs_empty kw' = true ->
  cursor_table s1 !! k = Some cs ->
  run_statement env args = Executed count (map Fetched rows) ->
  exists s',
    fetch_one fuel cfg env th args kwargs s =
    (Returns match rows with
             | [] => VNone
             | r :: _ => shape_row (cursor_class cs) r
             end, s').
Proof.
  intros Hget Hkw Hk Hrun.
  assert (lc = None \/ lc = Some k) as Hlc.
  { apply get_a_cursor_returns in Hget as [(-> & _)|(-> & _)]; auto. }
  destruct (fetch_rows_padded k 1 rows
              (put_cursor k (set_pending (map Fetched rows) cs) s1)
              (set_pending (map Fetched rows) cs))
    as (s2 & cs2 & Hfetch & Hk2); [apply put_cursor_at|reflexivity|].
  simpl in Hfetch. apply bind_returns_inv in Hfetch as (row & s2' & Hone & Hrest).
  injection Hrest as Hrow <-.
  destruct (close_local_ok lc k cs2 s2' Hk2 Hlc) as [s3 Hclose].
  exists s3. unfold fetch_one. unfold bind at 1. rewrite Hget.
  unfold bind at 1. rewrite (cursor_execute_ok env k args kw' s1 cs count _ Hk Hkw Hrun).
  unfold bind at 1. rewrite Hone. unfold bind at 1. rewrite Hclose.
  destruct rows as [|r rows]; simpl in Hrow; injection Hrow as ->; reflexivity.
Qed.

Lemma cursor_execute_returns env k args kw s count s' :
  cursor_execute env k args kw s = (Returns count, s') ->
  exists fetches, run_statement env args = Executed count fetches.
Proof.
  unfold cursor_execute, the_cursor, bind, get_state.
  destruct (cursor_table s !! k) as [cs|]; [|discriminate]. simpl.
  destruct (kwargs_empty kw); [|discriminate].
  destruct (run_statement env args) as [cnt fs|e]; [|discriminate].
  simpl. intros H. injection H as <- _. eauto.
Qed.

(** X13: with a bound that is not below the count the statement reports,
    fetch_n is fetch_all: same outcome, same state, on every path. *)
Theorem fetch_n_large_bound_is_fetch_all
    (fuel : nat) (cfg : Config) (env : Env) (th : nat) (n : Z) (args : Args)
    (kwargs : Kwargs) (s : State) :
  (forall count fetches,
     run_statement env args = Executed count fetches -> (count <= n)%Z) ->
  fetch_n fuel cfg env th n args kwargs s = fetch_all fuel cfg env th args kwargs s.
Proof.
  intros Hbound. unfold fetch_n, fetch_all. unfold bind at 1 5.
  destruct (get_a_cursor fuel cfg env th (Some (db_cursor_class cfg)) kwargs s)
    as [[[[lc k] kw']| | |] s1]; try reflexivity.
  unfold bind at 1 4.
  destruct (cursor_execute env k args kw' s1) as [[count| | |] s2] eqn:Hexec;
    try reflexivity.
  apply cursor_execute_returns in Hexec as [fetches Hrun].
  specialize (Hbound count fetches Hrun).
  assert ((count >? n)%Z = false) as -> by lia. reflexivity.
Qed.

(** ** The generators *)

(** Driving a generator from a suspended state to its end, when the shaping
    of a row cannot fail. *)
Lemma consume_suspended fuel cfg env th cc shape (f : RawRow -> value) cls k lc :
  (forall r s, shape (shape_row cls r) s = (Returns (f r), s)) ->
  forall rows s cs,
    cursor_table s !! k = Some cs ->
    cursor_pending cs = map Fetched rows ->
    cursor_class cs = cls ->
    lc = None \/ lc = Some k ->
    exists s',
      consume (generator_next fuel cfg env th cc shape) (S (length rows))
        (GenSuspended lc k (length rows)) s = (Returns (map f rows), s').
Proof.
  intros Hshape. induction rows as [|r rows IH]; intros s cs Hk Hp Hcls Hlc.
  - destruct (close_local_ok lc k cs s Hk Hlc) as [s' Hclose].
    exists s'. simpl. unfold bind at 1 2. rewrite Hclose. reflexivity.
  - simpl in Hp.
    destruct (IH (put_cursor k (set_pending (map Fetched rows) cs) s)
                (set_pending (map Fetched rows) cs))
      as (s' & Hrun); [apply put_cursor_at|reflexivity|exact Hcls|exact Hlc|].
    exists s'.
    change (length (r :: rows)) with (S (length rows)).
    change (consume ?nx (S ?j) ?g) with
      (x <- nx g ;; match x with
                    | (Some v, g') => vs <- consume nx j g' ;; ret (v :: vs)
                    | (None, _) => ret []
                    end).
    unfold bind at 1. unfold generator_next at 1, generator_loop.
    unfold bind at 1. rewrite (cursor_fetchone_row k cs s r _ Hk Hp).
    unfold bind at 1. rewrite Hcls, Hshape.
    unfold ret at 1. unfold bind at 1. rewrite Hrun. reflexivity.
Qed.

Lemma consume_created fuel cfg env th cc shape (f : RawRow -> value)
    args kwargs s s1 lc k kw' cs rows :
  (forall r s, shape (shape_row (cursor_class cs) r) s = (Returns (f r), s)) ->
  get_a_cursor fuel cfg env th cc kwargs s = (Returns (lc, k, kw'), s1) ->
  kwargs_empty kw' = true ->
  cursor_table s1 !! k = Some cs ->
  run_statement env args = Executed (Z.of_nat (length rows)) (map Fetched rows) ->
  exists s',
    consume (generator_next fuel cfg env th cc shape) (S (length rows))
      (GenCreated args kwargs) s = (Returns (map f rows), s').
Proof.
  intros Hshape Hget Hkw Hk Hrun.
  assert (lc = None \/ lc = Some k) as Hlc.
  { apply get_a_cursor_returns in Hget as [(-> & _)|(-> & _)]; auto. }
  destruct (consume_suspended fuel cfg env th cc shape f (cursor_class cs) k lc Hshape
              rows (put_cursor k (set_pending (map Fetched rows) cs) s1)
              (set_pending (map Fetched rows) cs))
    as [s' Hrest]; [apply put_cursor_at|reflexivity|reflexivity|exact Hlc|].
  exists s'. rewrite <- Hrest.
  change (consume ?nx (S ?j) ?g) with
    (x <- nx g ;; match x with
                  | (Some v, g') => vs <- consume nx j g' ;; ret (v :: vs)
                  | (None, _) => ret []
                  end).
  unfold bind at 1. unfold generator_next at 1.
  unfold bind at 1. rewrite Hget. unfold bind at 1.
  rewrite (cursor_execute_ok env k args kw' s1 cs _ _ Hk Hkw Hrun).
  rewrite Nat2Z.id. unfold bind at 2. reflexivity.
Qed.

(** X14: when the statement's rows are there to fetch, iterating yield_rows
    to its end gives the rows fetch_all returns, in the same order and the
    same shape. *)
Theorem yield_rows_gives_fetch_all_rows
    (fuel : nat) (cfg : Config) (env : Env) (th : nat) (args : Args)
    (kwargs : Kwargs) (s s1 : State) (lc : option nat) (k : nat) (kw' : Kwargs)
    (cs : CursorState) (rows : list RawRow) :
  get_a_cursor fuel cfg env th (Some (db_cursor_class cfg)) kwargs s
    = (Returns (lc, k, kw'), s1) ->
  kwargs_empty kw' = true ->
  cursor_table s1 !! k = Some cs ->
  run_statement env args = Executed (Z.of_nat (length rows)) (map Fetched rows) ->
  exists result,
    fst (consume (yield_rows_next fuel cfg env th) (S (length rows))
           (yield_rows args kwargs) s) = Returns result /\
    fst (fetch_all fuel cfg env th args kwargs s) = Returns result /\
    result = map (shape_row (cursor_class cs)) rows.
Proof.
  intros Hget Hkw Hk Hrun.
  destruct (consume_created fuel cfg env th (Some (db_cursor_class cfg)) ret
              (shape_row (cursor_class cs)) args kwargs s s1 lc k kw' cs rows)
    as [s' Hgen]; try assumption; [reflexivity|].
  assert (lc = None \/ lc = Some k) as Hlc.
  { apply get_a_cursor_returns in Hget as [(-> & _)|(-> & _)]; auto. }
  destruct (fetch_rows_spec k (length rows) rows []
              (put_cursor k (set_pending (map Fetched rows) cs) s1)
              (set_pending (map Fetched rows) cs))
    as (s2 & cs2 & Hfetch & Hk2);
    [apply put_cursor_at|simpl; symmetry; apply app_nil_r|lia|].
  destruct (close_local_ok lc k cs2 s2 Hk2 Hlc) as [s3 Hclose].
  exists (map (shape_row (cursor_class cs)) rows).
  split; [|split; [|reflexivity]].
  - unfold yield_rows_next, yield_rows. rewrite Hgen. reflexivity.
  - unfold fetch_all. unfold bind at 1. rewrite Hget.
    unfold bind at 1. rewrite (cursor_execute_ok env k args kw' s1 cs _ _ Hk Hkw Hrun).
    rewrite Nat2Z.id. unfold bind at 1. rewrite Hfetch.
    rewrite firstn_all. unfold bind at 1. rewrite Hclose. reflexivity.
Qed.

(** X15: yield_objects needs rows keyed by column.  On a cursor of the
    dictionary class it yields dict2obj of every row; on a positional cursor
    (db_cursor_class set to the positional class) the first call of next
    raises TypeError as soon as there is a row. *)
Theorem yield_objects_needs_dict_rows
    (fuel : nat) (cfg : Config) (env : Env) (th : nat) (args : Args)
    (kwargs : Kwargs) (s s1 : State) (lc : option nat) (k : nat) (kw' : Kwargs)
    (cs : CursorState) (rows : list RawRow) :
  get_a_cursor fuel cfg env th (Some (db_cursor_class cfg)) kwargs s
    = (Returns (lc, k, kw'), s1) ->
  kwargs_empty kw' = true ->
  cursor_table s1 !! k = Some cs ->
  run_statement env args = Executed (Z.of_nat (length rows)) (map Fetched rows) ->
  (cursor_class cs = DictCursor ->
   fst (consume (yield_objects_next fuel cfg env th) (S (length rows))
          (yield_objects args kwargs) s) = Returns (map dict2obj rows)) /\
  (cursor_class cs = TupleCursor -> rows <> [] ->
   fst (yield_objects_next fuel cfg env th (yield_objects args kwargs) s)
     = Raises TypeError).
Proof.
  intros Hget Hkw Hk Hrun. split.
  - intros Hcls.
    destruct (consume_created fuel cfg env th (Some (db_cursor_class cfg)) dict2obj_call
                dict2obj args kwargs s s1 lc k kw' cs rows)
      as [s' Hgen]; try assumption.
    { intros r s0. rewrite Hcls. reflexivity. }
    unfold yield_objects_next, yield_objects. rewrite Hgen. reflexivity.
  - intros Hcls Hrows. destruct rows as [|r rows]; [congruence|].
    unfold yield_objects_next, yield_objects, generator_next.
    unfold bind at 1. rewrite Hget. unfold bind at 1.
    rewrite (cursor_execute_ok env k args kw' s1 cs _ _ Hk Hkw Hrun).
    rewrite Nat2Z.id. simpl length. unfold generator_loop. unfold bind at 1.
    rewrite (cursor_fetchone_row k (set_pending (map Fetched (r :: rows)) cs) _ r
               (map Fetched rows) (put_cursor_at _ _ _) eq_refl).
    simpl cursor_class. rewrite Hcls. reflexivity.
Qed.



(** ** A statement that reports rows and has none *)

(** X17: a statement that changes rows reports a count and has no row to
    fetch.  fetch_value (count not zero) and fetch_values (count at least
    one) then take the length of None and end in TypeError; with a count of
    zero fetch_value returns None and fetch_values the empty list. *)
Theorem value_helpers_without_rows
    (fuel : nat) (cfg : Config) (env : Env) (th : nat) (args : Args)
    (kwargs : Kwargs) (s s1 : State) (lc : option nat) (k : nat) (kw' : Kwargs)
    (cs : CursorState) (count : Z) :
  get_a_cursor fuel cfg env th None kwargs s = (Returns (lc, k, kw'), s1) ->
  cursor_table s1 !! k = Some cs ->
  run_statement env args = Executed count [] ->
  (count <> 0%Z ->
   fst (fetch_value fuel cfg env th args kwargs s) = Raises TypeError) /\
  ((1 <= count)%Z ->
   fst (fetch_values fuel cfg env th args kwargs s) = Raises TypeError) /\
  ((count = 0)%Z ->
   fst (fetch_value fuel cfg env th args kwargs s) = Returns VNone /\
   fst (fetch_values fuel cfg env th args kwargs s) = Returns []).
Proof.
  intros Hget Hk Hrun.
  assert (lc = None \/ lc = Some k) as Hlc.
  { apply get_a_cursor_returns in Hget as [(-> & _)|(-> & _)]; auto. }
  set (cs1 := set_pending [] cs).
  set (s2 := put_cursor k cs1 s1).
  assert (cursor_table s2 !! k = Some cs1) as Hk2 by apply put_cursor_at.
  assert (cursor_execute env k args no_kwargs s1 = (Returns count, s2)) as Hexec.
  { apply (cursor_execute_ok env k args no_kwargs s1 cs count _ Hk eq_refl Hrun). }
  assert (cursor_fetchone k s2 = (Returns VNone, s2)) as Hfetch.
  { apply (cursor_fetchone_none k cs1 s2 Hk2 eq_refl). }
  destruct (close_local_ok lc k cs1 s2 Hk2 Hlc) as [s3 Hclose].
  split; [|split].
  - intros Hnz. unfold fetch_value. unfold bind at 1. rewrite Hget.
    unfold bind at 1. rewrite Hexec.
    assert ((count =? 0)%Z = false) as -> by lia.
    unfold bind at 1 2. rewrite Hfetch. reflexivity.
  - intros Hpos. unfold fetch_values. unfold bind at 1. rewrite Hget.
    unfold bind at 1. rewrite Hexec.
    destruct (Z.to_nat count) as [|j] eqn:Hj; [lia|].
    simpl fetch_row_values. unfold bind at 1 2. rewrite Hfetch. reflexivity.
  - intros ->. split.
    + unfold fetch_value. unfold bind at 1. rewrite Hget.
      unfold bind at 1. rewrite Hexec. simpl Z.eqb. cbv iota.
      unfold bind at 1 2. unfold ret at 1. rewrite Hclose. reflexivity.
    + unfold fetch_values. unfold bind at 1. rewrite Hget.
      unfold bind at 1. rewrite Hexec. simpl fetch_row_values.
      unfold bind at 1 2. unfold ret at 1. rewrite Hclose. reflexivity.
Qed.

(** ** dict2obj on a row *)

Lemma setattr_same top k v : alist_get k top = Some v -> setattr top k v = top.
Proof.
  induction top as [|[k0 v0] top IH]; simpl; [discriminate|].
  destruct (String.eqb k k0) eqn:E.
  - apply String.eqb_eq in E as ->. intros H. injection H as ->. reflexivity.
  - intros H. rewrite (IH H). reflexivity.
Qed.

Lemma alist_get_elem k v l :
  List.NoDup (map fst l) -> In (k, v) l -> alist_get k l = Some v.
Proof.
  induction l as [|[k0 v0] l IH]; simpl; intros Hnd Hin; [tauto|].
  inversion Hnd as [|? ? Hnotin Hnd']; subst.
  destruct Hin as [Heq|Hin].
  - injection Heq as -> ->. rewrite String.eqb_refl. reflexivity.
  - destruct (String.eqb k k0) eqn:E.
    + apply String.eqb_eq in E as ->. exfalso. apply Hnotin.
      apply in_map_iff. exists (k0, v). auto.
    + apply IH; assumption.
Qed.

Lemma expected_attribute_plain v : plain v -> expected_attribute v = v.
Proof. destruct v; simpl; tauto. Qed.

Lemma set_loop_same f top : forall l,
  (forall k v, In (k, v) l -> alist_get k top = Some v /\ f v = v) ->
  set_loop f l top = top.
Proof.
  induction l as [|[k v] l IH]; intros H; [reflexivity|].
  unfold set_loop in *. simpl.
  destruct (H k v) as [Hget Hf]; [left; reflexivity|].
  rewrite Hf, (setattr_same top k v Hget). apply IH.
  intros k' v' Hin. apply H. right. exact Hin.
Qed.

(** X18: on a row whose values are all plain (no mapping, no collection),
    as the rows of a result are, the attributes that dict2obj sets are the
    columns of the row, one for each, in the order of the row and with the
    value of the column as it is; reading the attribute of a column gives
    the value of that column. *)
Theorem dict2obj_plain_row (d : list (string * value)) :
  List.NoDup (map fst d) ->
  Forall (fun kv => plain (snd kv)) d ->
  dict2obj d = VObj d /\
  forall k v, (k, v) ∈ d -> getattr (dict2obj d) k = Some v.
Proof.
  intros Hnd Hplain.
  assert (dict2obj d = VObj d) as Heq.
  { rewrite dict2obj_unfold. f_equal. apply set_loop_same.
    intros k v Hin. split; [apply alist_get_elem; assumption|].
    apply expected_attribute_plain.
    rewrite Forall_forall in Hplain. apply (Hplain (k, v)).
    apply list_elem_of_In. exact Hin. }
  split; [exact Heq|]. intros k v Hin. rewrite Heq. simpl.
  apply alist_get_elem; [exact Hnd|]. apply list_elem_of_In. exact Hin.
Qed.

(** ** Which connections get closed *)

Lemma evict_closed env th s :
  closed_connections (snd (evict env th s)) = closed_connections s \/
  exists c, db_connection_pool s !! th = Some c /\
            closed_connections (snd (evict env th s)) = c :: closed_connections s.
Proof.
  unfold evict, bind, get_state, getitem.
  destruct (db_connection_pool s !! th) as [c|] eqn:Hp; [|left; reflexivity].
  unfold ret, connection_close.
  destruct (conn_close env c); [left; reflexivity|].
  right. exists c. split; [reflexivity|].
  unfold modify, pool_delitem, activity_delitem, bind, get_state, modify. simpl.
  rewrite Hp. simpl. destruct (db_connection_activity s !! th); reflexivity.
Qed.

Lemma sweep_closed_only_stale env timeout s0 items :
  (forall th thtime, (th, thtime) ∈ items ->
     db_connection_activity s0 !! th = Some thtime) ->
  preserves (closed_only_stale env timeout s0) (sweep env timeout items).
Proof.
  induction items as [|[th thtime] rest IH]; intros Hitems.
  - apply preserves_ret.
  - rewrite sweep_step. apply preserves_bind.
    + destruct (stale env timeout th thtime) eqn:Hst; [|apply preserves_ret].
      intros s [Hsh Hcl]. split; [apply evict_shrinks, Hsh|].
      intros c Hc. destruct (evict_closed env th s) as [Heq|(c0 & Hp & Heq)];
        rewrite Heq in Hc.
      * apply Hcl, Hc.
      * apply elem_of_cons in Hc as [->|Hc]; [|apply Hcl, Hc].
        right. exists th, thtime. destruct Hsh as (Hsub & _).
        split; [eapply lookup_weaken; eassumption|].
        split; [apply Hitems; left|exact Hst].
    + intros _. apply IH. intros th' t' Hin. apply Hitems. right. exact Hin.
Qed.

Lemma resolve_closed fuel env th (l : list nat) :
  preserves (fun s => closed_connections s = l) (resolve fuel env th).
Proof.
  assert (forall f, (forall s, closed_connections (f s) = closed_connections s) ->
                    preserves (fun s => closed_connections s = l) (modify f)) as Hmod.
  { intros f Hf. apply preserves_modify. intros s H. rewrite Hf. exact H. }
  unfold resolve, activity_setitem, lock_release, pool_setitem.
  apply preserves_bind; [apply preserves_get|intros s0].
  apply preserves_bind;
    [|intros c; repeat first [apply Hmod; intros; reflexivity | preserves_step]].
  destruct (db_connection_pool s0 !! th) as [c|].
  - generalize 0 at 1. revert c. induction fuel as [|fuel IH]; intros c i; simpl.
    + apply preserves_out_of_fuel.
    + destruct (conn_ping env c) as [[]|];
        try apply preserves_raise; try apply preserves_ret.
      apply preserves_bind; [apply preserves_new_connection|intros c'].
      apply preserves_bind; [|intros _; apply IH].
      apply Hmod; intros; reflexivity.
  - apply preserves_bind; [apply preserves_new_connection|intros c'].
    repeat first [apply Hmod; intros; reflexivity | preserves_step].
Qed.

(** X19: get_connection closes connections of stale entries only: however
    the call ends, a connection that is closed after it was closed before it
    or was the pooled connection of a thread that is dead or was idle past
    the timeout.  A connection that is in no such entry is not closed by
    the call, whether it answers its ping or not. *)
Theorem get_connection_closes_only_stale
    (fuel : nat) (cfg : Config) (env : Env) (th : nat) (s : State) (c : nat) :
  c ∈ closed_connections (snd (get_connection fuel cfg env th s)) ->
  c ∈ closed_connections s \/
  exists th0 thtime,
    db_connection_pool s !! th0 = Some c /\
    db_connection_activity s !! th0 = Some thtime /\
    (isAlive env th0 = false \/
     (thtime < time_now env - db_connection_timeout cfg)%Z).
Proof.
  set (timeout := (time_now env - db_connection_timeout cfg)%Z).
  assert (forall s1, closed_only_stale env timeout (set_lock true s) s1 ->
            c ∈ closed_connections s1 ->
            c ∈ closed_connections s \/
            exists th0 thtime,
              db_connection_pool s !! th0 = Some c /\
              db_connection_activity s !! th0 = Some thtime /\
              (isAlive env th0 = false \/ (thtime < timeout)%Z)) as Hdone.
  { intros s1 [_ Hcl] Hc. destruct (Hcl c Hc) as [H|(th0 & t0 & Hp & Ha & Hst)].
    - left. exact H.
    - right. exists th0, t0. apply stale_true in Hst. auto. }
  rewrite get_connection_unfold. unfold lock_acquire, bind at 1 2, get_state.
  destruct (db_connection_pool_lock s); [simpl; auto|]. simpl.
  unfold bind at 1, get_state. unfold bind.
  pose proof (sweep_closed_only_stale env timeout (set_lock true s)
                (map_to_list (db_connection_activity s))) as Hsweep.
  specialize (Hsweep ltac:(intros th0 t0 Hin; apply elem_of_map_to_list in Hin; exact Hin)
                (set_lock true s)).
  change (db_connection_activity (set_lock true s)) with (db_connection_activity s).
  fold timeout.
  destruct (sweep env timeout (map_to_list (db_connection_activity s)) (set_lock true s))
    as [[[]| | |] s1]; simpl in Hsweep; cbv beta iota.
  - pose proof (resolve_closed fuel env th (closed_connections s1) s1 eq_refl) as Hres.
    intros Hc. rewrite Hres in Hc. apply (Hdone s1); [|exact Hc].
    apply Hsweep. split; [apply shrinks_refl|]. intros c0 Hc0. left. exact Hc0.
  - intros Hc. apply (Hdone s1); [|exact Hc].
    apply Hsweep. split; [apply shrinks_refl|]. intros c0 Hc0. left. exact Hc0.
  - intros Hc. apply (Hdone s1); [|exact Hc].
    apply Hsweep. split; [apply shrinks_refl|]. intros c0 Hc0. left. exact Hc0.
  - intros Hc. apply (Hdone s1); [|exact Hc].
    apply Hsweep. split; [apply shrinks_refl|]. intros c0 Hc0. left. exact Hc0.
Qed.

(** The loop of close_connections up to the first close that raises. *)
Lemma close_all_stops env th c e post : forall pre s,
  Forall (fun tc => conn_close env (snd tc) = None) pre ->
  conn_close env c = Some e ->
  close_all env (pre ++ (th, c) :: post) s =
  (Raises e, set_closed (rev (map snd pre) ++ closed_connections s) s).
Proof.
  induction pre as [|[t0 c0] pre IH]; intros s Hpre Hfail.
  - simpl. unfold bind, connection_close. rewrite Hfail. simpl.
    destruct s; reflexivity.
  - inversion Hpre as [|? ? Hc0 Hrest]; subst. simpl in Hc0.
    change (close_all env (((t0, c0) :: pre) ++ (th, c) :: post))
      with (connection_close env c0 ;;; close_all env (pre ++ (th, c) :: post)).
    unfold bind at 1. unfold connection_close at 1. rewrite Hc0.
    unfold modify. rewrite (IH _ Hrest Hfail). simpl.
    rewrite <- app_assoc. reflexivity.
Qed.

(** X20: close_connections stops at the first close that fails.  With the
    pool entries in the order the loop visits them, when the closes before
    the entry of connection c return and the close of c raises, the call
    ends in that exception with the connections before c closed and no
    other: the connections after c are not reached and stay as they were,
    and both maps are as before. *)
Theorem close_connections_stops_at_failing_close
    (env : Env) (s : State) (pre : list (nat * nat)) (th c : nat) (e : Exn)
    (post : list (nat * nat)) :
  map_to_list (db_connection_pool s) = pre ++ (th, c) :: post ->
  Forall (fun tc => conn_close env (snd tc) = None) pre ->
  conn_close env c = Some e ->
  close_connections env s =
    (Raises e, set_closed (rev (map snd pre) ++ closed_connections s) s) /\
  forall c',
    c' ∈ closed_connections (snd (close_connections env s)) <->
    c' ∈ map snd pre \/ c' ∈ closed_connections s.
Proof.
  intros Hitems Hpre Hfail.
  assert (close_connections env s =
          (Raises e, set_closed (rev (map snd pre) ++ closed_connections s) s)) as Heq.
  { unfold close_connections, bind, get_state. rewrite Hitems.
    apply close_all_stops; assumption. }
  split; [exact Heq|]. intros c'. rewrite Heq. simpl.
  rewrite elem_of_app, !list_elem_of_In, <- in_rev. reflexivity.
Qed.

(** ** Checking freshness by computation *)

Lemma all_fresh_check env timeout s :
  forallb (fun p => negb (stale env timeout (fst p) (snd p)))
    (map_to_list (db_connection_activity s)) = true ->
  all_fresh env timeout s.
Proof.
  intros Hall th thtime Hin. apply elem_of_map_to_list in Hin.
  rewrite forallb_forall in Hall. apply list_elem_of_In in Hin.
  specialize (Hall (th, thtime) Hin). simpl in Hall.
  apply negb_true_iff in Hall. exact Hall.
Qed.

(** * Concrete runs *)

Example get_connection_first :
  fst (get_connection 1 default_config (quiet_env 1000) 7 initial_state) = Returns 100.
Proof. vm_compute. reflexivity. Qed.

Lemma get_connection_evicts_first_witness :
  exists s1,
    sweep thread_2_dead (time_now thread_2_dead - db_connection_timeout default_config)
      (map_to_list (db_connection_activity two_threads)) (set_lock true two_threads)
      = (Returns tt, s1) /\
    (forall th c thtime,
       db_connection_pool two_threads !! th = Some c ->
       db_connection_activity two_threads !! th = Some thtime ->
       isAlive thread_2_dead th = false \/
       (thtime < time_now thread_2_dead - db_connection_timeout default_config)%Z ->
       c ∈ closed_connections s1 /\
       db_connection_pool s1 !! th = None /\
       db_connection_activity s1 !! th = None) /\
    get_connection 1 default_config thread_2_dead 3 two_threads
      = resolve 1 thread_2_dead 3 s1.
Proof.
  apply (get_connection_evicts_first 1 default_config thread_2_dead 3 two_threads).
  - reflexivity.
  - vm_compute. reflexivity.
  - intros. reflexivity.
Defined.

(** Both entries are gone after the sweep and the caller gets a new
    connection. *)
Example sweep_two_threads :
  let r := get_connection 1 default_config thread_2_dead 3 two_threads in
  fst r = Returns 300 /\
  map_to_list (db_connection_pool (snd r)) = [(3, 300)] /\
  In 100 (closed_connections (snd r)) /\ In 200 (closed_connections (snd r)).
Proof. vm_compute. auto 6. Qed.

Lemma pool_invariant_reachable_witness :
  (forall th : nat,
     th ∈ dom (db_connection_activity two_threads) <->
     th ∈ dom (db_connection_pool two_threads)) /\
  (forall fuel env th,
     pool_inv (snd (get_connection fuel default_config env th two_threads))) /\
  (forall env, pool_inv (snd (close_connections env two_threads))).
Proof.
  apply (pool_invariant_reachable default_config two_threads).
  apply (reach_step default_config _ 1 _ 2 CallGetConnection).
  apply (reach_step default_config _ 1 (quiet_env 0) 1 CallGetConnection).
  apply reach_init.
Defined.

Lemma get_connection_twice_same_witness :
  exists s2,
    get_connection 1 default_config (quiet_env 1200) 7
      (snd (get_connection 1 default_config (quiet_env 1000) 7 initial_state))
    = (Returns 100, s2).
Proof.
  apply (get_connection_twice_same 1 1 default_config (quiet_env 1000) (quiet_env 1200)
           7 initial_state).
  - reflexivity.
  - vm_compute. reflexivity.
  - reflexivity.
  - simpl. lia.
  - intros. reflexivity.
  - reflexivity.
  - lia.
Defined.

(** Past the timeout the thread gets another connection. *)
Example get_connection_after_timeout :
  fst (get_connection 1 default_config
         {| time_now := 1601; isAlive := fun _ => true; conn_close := fun _ => None;
            conn_ping := fun _ => None;
            conn_cursorclass := fun _ => default_cursor_class;
            connect := fun i => Connected (300 + i);
            run_statement := fun _ => Executed 0 [] |} 7
         (snd (get_connection 1 default_config (quiet_env 1000) 7 initial_state)))
  = Returns 300.
Proof. vm_compute. reflexivity. Qed.

Lemma fetch_n_returns_min_rows_witness :
  exists s' result,
    fetch_n 1 default_config test_rows_env 7 2 select_all (with_connection 5) initial_state
      = (Returns result, s') /\
    result = map (shape_row DictCursor) (firstn (Z.to_nat (Z.min 2 3)) test_rows) /\
    ((0 <= 2)%Z ->
     Z.of_nat (length result) = Z.min 2 3 /\ (Z.of_nat (length result) <= 2)%Z).
Proof.
  apply (fetch_n_returns_min_rows 1 default_config test_rows_env 7 2 select_all
           (with_connection 5) initial_state
           (snd (get_a_cursor 1 default_config test_rows_env 7 (Some DictCursor)
                   (with_connection 5) initial_state))
           (Some 0) 0 no_kwargs (new_cursor 5 DictCursor) 3 test_rows).
  - vm_compute. reflexivity.
  - reflexivity.
  - vm_compute. reflexivity.
  - reflexivity.
  - reflexivity.
Defined.

Example fetch_n_two_of_three :
  fst (fetch_n 1 default_config test_rows_env 7 2 select_all no_kwargs initial_state)
  = Returns [ VDict [("row_int", VInt 100); ("row_str", VStr "a")];
              VDict [("row_int", VInt 110); ("row_str", VStr "aa")] ]%string.
Proof. vm_compute. reflexivity. Qed.

(** A bound below zero gives no row at all. *)
Example fetch_n_negative_bound :
  fst (fetch_n 1 default_config test_rows_env 7 (-1) select_all no_kwargs initial_state)
  = Returns [].
Proof. vm_compute. reflexivity. Qed.

Lemma value_helpers_scalar_or_row_witness :
  (exists s', fetch_value 1 default_config test_ints_env 7 select_row_int no_kwargs
                initial_state = (Returns (VInt 100), s')) /\
  (exists s', fetch_values 1 default_config test_ints_env 7 select_row_int no_kwargs
                initial_state
     = (Returns [VInt 100; VInt 110; VInt 111; VInt 112; VInt 120], s')) /\
  (kwargs_empty no_kwargs = true ->
   exists s', consume (yield_values_next 1 default_config test_ints_env 7) 6
                (yield_values select_row_int no_kwargs) initial_state
     = (Returns [VInt 100; VInt 110; VInt 111; VInt 112; VInt 120], s')).
Proof.
  apply (value_helpers_scalar_or_row 1 default_config test_ints_env 7 select_row_int
           no_kwargs initial_state
           (snd (get_a_cursor 1 default_config test_ints_env 7 None no_kwargs
                   initial_state))
           (Some 0) 0 no_kwargs (new_cursor 100 TupleCursor) 5 test_ints).
  - vm_compute. reflexivity.
  - vm_compute. reflexivity.
  - reflexivity.
  - reflexivity.
  - left. split; reflexivity.
Defined.

(** C6 fails as stated: the row has exactly one column, and fetch_value,
    fetch_values and yield_values raise KeyError instead of giving its value. *)
Lemma value_helpers_dict_row_key_error :
  fst (fetch_value 1 default_config one_row_env 7 select_row_int (with_cursor 0)
         dict_cursor_state) = Raises KeyError /\
  fst (fetch_values 1 default_config one_row_env 7 select_row_int (with_cursor 0)
         dict_cursor_state) = Raises KeyError /\
  fst (consume (yield_values_next 1 default_config one_row_env 7) 2
         (yield_values select_row_int (with_cursor 0)) dict_cursor_state)
    = Raises KeyError.
Proof. vm_compute. auto. Qed.

(** The same statement through the helper's own cursor gives the value. *)
Example fetch_value_own_cursor :
  fst (fetch_value 1 default_config one_row_env 7 select_row_int no_kwargs
         initial_state) = Returns (VInt 100).
Proof. vm_compute. reflexivity. Qed.

Lemma close_connections_closes_all_keeps_maps_witness :
  fst (close_connections (quiet_env 2000) two_threads) = Returns tt /\
  forall th c,
    db_connection_pool two_threads !! th = Some c ->
    c ∈ closed_connections (snd (close_connections (quiet_env 2000) two_threads)).
Proof.
  apply (proj2 (proj2 (close_connections_closes_all_keeps_maps (quiet_env 2000)
                         two_threads))).
  intros. reflexivity.
Defined.

(** The maps still hold both threads after close_connections. *)
Example close_connections_two_threads :
  let s' := snd (close_connections (quiet_env 2000) two_threads) in
  map_to_list (db_connection_pool s') = map_to_list (db_connection_pool two_threads) /\
  db_connection_pool s' !! 1 = Some 100 /\
  db_connection_pool s' !! 2 = Some 200 /\
  In 100 (closed_connections s') /\ In 200 (closed_connections s').
Proof. vm_compute. auto 7. Qed.

Lemma dict2obj_attributes_witness :
  exists attrs,
    dict2obj sample_dict = VObj attrs /\
    map fst attrs = map fst sample_dict /\
    forall k v, alist_get k sample_dict = Some v ->
                getattr (dict2obj sample_dict) k = Some (expected_attribute v).
Proof.
  apply (dict2obj_attributes sample_dict).
  repeat (constructor;
          [simpl; intros H; repeat (destruct H as [H|H]; [discriminate|]); exact H|]).
  constructor.
Defined.

Example dict2obj_sample :
  dict2obj sample_dict =
  VObj [ ("row_int", VInt 100);
         ("tags", VList [VObj [("a", VInt 1)]; VInt 2]);
         ("owner", VObj [("name", VStr "x"); ("ids", VTuple [VInt 1; VObj []])]) ]%string.
Proof. vm_compute. reflexivity. Qed.

(** A collection inside a collection is not entered. *)
Example dict2obj_nested_list :
  dict2obj [("m"%string, VList [VList [VDict []]])]
  = VObj [("m"%string, VList [VList [VDict []]])].
Proof. vm_compute. reflexivity. Qed.

Lemma get_connection_exception_keeps_lock_witness :
  db_connection_pool_lock (set_lock true initial_state) = true /\
  forall calls fuel' env' th',
    get_connection fuel' default_config env' th'
      (run_calls default_config calls (set_lock true initial_state)) =
    (Blocks, run_calls default_config calls (set_lock true initial_state)).
Proof.
  apply (get_connection_exception_keeps_lock 1 default_config no_server 7
           initial_state (set_lock true initial_state) OperationalError).
  vm_compute. reflexivity.
Defined.

(** Closing the connection of a dead thread fails: the exception leaves
    get_connection with the lock held, and the next call blocks. *)
Example close_fails_in_sweep :
  let env := set_isAlive (fun th => negb (Nat.eqb th 2))
               {| time_now := 600; isAlive := fun _ => true;
                  conn_close := fun _ => Some (ClientError 2006);
                  conn_ping := fun _ => None;
                  conn_cursorclass := fun _ => default_cursor_class;
                  connect := fun i => Connected (300 + i);
                  run_statement := fun _ => Executed 0 [] |} in
  let r := get_connection 1 default_config env 1 two_threads in
  fst r = Raises (ClientError 2006) /\
  db_connection_pool_lock (snd r) = true /\
  fst (get_connection 1 default_config (quiet_env 700) 1 (snd r)) = Blocks.
Proof. vm_compute. auto. Qed.

(** The ping of the pooled connection fails and the replacement cannot be
    made: same end. *)
Example replacement_fails_after_ping :
  let env := {| time_now := 600; isAlive := fun _ => true;
                conn_close := fun _ => None;
                conn_ping := fun _ => Some OperationalError;
                conn_cursorclass := fun _ => default_cursor_class;
                connect := fun _ => ConnectRaises OperationalError;
                run_statement := fun _ => Executed 0 [] |} in
  let r := get_connection 1 default_config env 1 two_threads in
  fst r = Raises OperationalError /\
  db_connection_pool_lock (snd r) = true /\
  fst (get_connection 1 default_config (quiet_env 700) 2 (snd r)) = Blocks.
Proof. vm_compute. auto. Qed.

Lemma value_helpers_use_connection_cursor_class_witness :
  value_helpers_give 1 default_config test_rows_env 7 select_all no_kwargs
    initial_state positional test_rows.
Proof.
  apply (proj2 (proj2 (proj2 (value_helpers_use_connection_cursor_class 1 default_config
                                test_rows_env 7 select_all no_kwargs))
                  initial_state 100 3%Z test_rows
                  ltac:(intros _; reflexivity)
                  ltac:(exists (snd (get_connection 1 default_config test_rows_env 7
                                       initial_state));
                        vm_compute; reflexivity)
                  ltac:(reflexivity) ltac:(reflexivity)
                  ltac:(repeat constructor))).
  reflexivity.
Defined.

(** C10 fails as stated: on a connection that was opened with
    cursorclass=DictCursor, given by the caller or taken from the pool,
    fetch_value and fetch_values return rows of two columns keyed by column,
    not in positional form. *)
Lemma value_helpers_dict_connection_rows :
  fst (fetch_value 1 default_config (dict_connections test_rows_env) 7 select_all
         (with_connection 5) initial_state)
  = Returns (VDict [("row_int", VInt 100); ("row_str", VStr "a")])%string /\
  fst (fetch_value 1 default_config (dict_connections test_rows_env) 7 select_all
         no_kwargs initial_state)
  = Returns (VDict [("row_int", VInt 100); ("row_str", VStr "a")])%string /\
  fst (fetch_values 1 default_config (dict_connections test_rows_env) 7 select_all
         (with_connection 5) initial_state)
  = Returns (map VDict test_rows) /\
  VDict [("row_int", VInt 100); ("row_str", VStr "a")]%string
  <> positional [("row_int", VInt 100); ("row_str", VStr "a")]%string.
Proof.
  split; [vm_compute; reflexivity|].
  split; [vm_compute; reflexivity|].
  split; [vm_compute; reflexivity|].
  discriminate.
Qed.

(** A row of one column on such a connection: the helper made the cursor
    itself and the value cannot be taken. *)
Example fetch_value_dict_connection_key_error :
  fst (fetch_value 1 default_config (dict_connections one_row_env) 7 select_row_int
         (with_connection 5) initial_state) = Raises KeyError /\
  fst (fetch_values 1 default_config (dict_connections one_row_env) 7 select_row_int
         no_kwargs initial_state) = Raises KeyError.
Proof. vm_compute. auto. Qed.

(** With db_cursor_class set to the dictionary class, fetch_one gives the row
    keyed by column and fetch_value gives the same row positionally. *)
Example fetch_one_and_fetch_value_shapes :
  fst (fetch_one 1 default_config test_rows_env 7 select_all no_kwargs initial_state)
    = Returns (VDict [("row_int", VInt 100); ("row_str", VStr "a")])%string /\
  fst (fetch_value 1 default_config test_rows_env 7 select_all no_kwargs initial_state)
    = Returns (VTuple [VInt 100; VStr "a"]).
Proof. vm_compute. auto. Qed.

Lemma helpers_close_own_cursor_on_return_witness :
  exists cs,
    cursor_table
      (snd (fetch_all 1 default_config test_rows_env 7 select_all no_kwargs
              initial_state)) !! next_cursor initial_state = Some cs /\
    cursor_closed cs = true.
Proof.
  apply (proj1 (proj2 (proj2 (proj1
           (helpers_close_own_cursor_on_return 1 default_config test_rows_env 7
              select_all no_kwargs))))
           initial_state (map (shape_row DictCursor) test_rows)).
  - intros _. reflexivity.
  - vm_compute. reflexivity.
Defined.

(** C2 fails as stated: the helper made its own cursor (number 0, from the
    pooled connection), the statement or a fetch raises, and the exception
    leaves the helper with that cursor still open. *)
Lemma execute_error_leaves_cursor_open :
  (fst (execute 1 default_config failing_statement_env 7 select_all no_kwargs
          initial_state) = Raises (ClientError 1064) /\
   cursor_closed <$>
     cursor_table (snd (execute 1 default_config failing_statement_env 7 select_all
                          no_kwargs initial_state)) !! 0 = Some false) /\
  (fst (fetch_all 1 default_config failing_fetch_env 7 select_all no_kwargs
          initial_state) = Raises (ClientError 2013) /\
   cursor_closed <$>
     cursor_table (snd (fetch_all 1 default_config failing_fetch_env 7 select_all
                          no_kwargs initial_state)) !! 0 = Some false).
Proof. vm_compute. auto. Qed.

(** Both keyword arguments at once: the cursor made from the connection is
    used, [cursor] stays among the keyword arguments, [cursor.execute]
    refuses it, and the cursor made is left open. *)
Example execute_connection_and_cursor :
  let kw := {| kw_connection := Some 5; kw_cursor := Some 0 |} in
  let r := execute 1 default_config test_rows_env 7 select_all kw dict_cursor_state in
  fst r = Raises TypeError /\
  cursor_closed <$> cursor_table (snd r) !! 1 = Some false.
Proof. vm_compute. auto. Qed.

(** ** Runs for the further properties *)

Lemma get_connection_new_thread_witness :
  get_connection 1 default_config (quiet_env 1100) 8 one_thread
  = (Returns 100, installed 8 100 1100 one_thread).
Proof.
  apply (get_connection_new_thread 1 default_config (quiet_env 1100) 8 one_thread).
  - reflexivity.
  - apply all_fresh_check. vm_compute. reflexivity.
  - vm_compute. reflexivity.
Defined.

(** The server gives nothing: SystemExit, the thread is not entered. *)
Example get_connection_connect_falsy :
  let env := {| time_now := 1100; isAlive := fun _ => true; conn_close := fun _ => None;
                conn_ping := fun _ => None;
                conn_cursorclass := fun _ => default_cursor_class;
                connect := fun _ => ConnectFalsy;
                run_statement := fun _ => Executed 0 [] |} in
  let r := get_connection 1 default_config env 8 one_thread in
  fst r = Raises (SystemExit 1) /\
  db_connection_pool (snd r) !! 8 = None /\
  db_connection_activity (snd r) !! 8 = None /\
  db_connection_pool_lock (snd r) = true.
Proof. vm_compute. auto. Qed.

Lemma get_connection_replaces_failed_connection_witness :
  get_connection 2 default_config connection_lost 7 one_thread
    = (Returns 300, installed 7 300 1100 one_thread) /\
  closed_connections (installed 7 300 1100 one_thread) = closed_connections one_thread.
Proof.
  apply (get_connection_replaces_failed_connection 2 default_config connection_lost 7
           one_thread 100 300).
  - reflexivity.
  - apply all_fresh_check. vm_compute. reflexivity.
  - vm_compute. reflexivity.
  - reflexivity.
  - reflexivity.
  - reflexivity.
  - lia.
Defined.

Lemma get_connection_ping_loop_never_ends_witness :
  fst (get_connection 50 default_config every_ping_fails 7 one_thread) = OutOfFuel /\
  db_connection_pool_lock
    (snd (get_connection 50 default_config every_ping_fails 7 one_thread)) = true.
Proof.
  apply (get_connection_ping_loop_never_ends 50 default_config every_ping_fails 7
           one_thread 100).
  - reflexivity.
  - apply all_fresh_check. vm_compute. reflexivity.
  - vm_compute. reflexivity.
  - intros. reflexivity.
  - intros j. exists (300 + j). reflexivity.
Defined.

Lemma get_connection_keeps_fresh_entries_witness :
  db_connection_pool
    (snd (get_connection 1 default_config thread_2_dead 3
            (installed 4 400 900 two_threads))) !! 4
    = db_connection_pool (installed 4 400 900 two_threads) !! 4 /\
  db_connection_activity
    (snd (get_connection 1 default_config thread_2_dead 3
            (installed 4 400 900 two_threads))) !! 4
    = db_connection_activity (installed 4 400 900 two_threads) !! 4.
Proof.
  apply (get_connection_keeps_fresh_entries 1 default_config thread_2_dead 3 4
           (installed 4 400 900 two_threads)).
  - lia.
  - intros thtime H. vm_compute in H. injection H as <-. reflexivity.
Defined.

Lemma get_connection_returns_clean_pool_witness :
  let s := installed 4 400 900 two_threads in
  let s' := snd (get_connection 1 default_config thread_2_dead 3 s) in
  db_connection_pool_lock s' = false /\
  db_connection_pool s' !! 3 = Some 300 /\
  db_connection_activity s' !! 3 = Some (time_now thread_2_dead) /\
  forall th' thtime,
    th' <> 3 ->
    db_connection_activity s' !! th' = Some thtime ->
    db_connection_activity s !! th' = Some thtime /\
    isAlive thread_2_dead th' = true /\
    (time_now thread_2_dead - db_connection_timeout default_config <= thtime)%Z.
Proof.
  apply (get_connection_returns_clean_pool 1 default_config thread_2_dead 3
           (installed 4 400 900 two_threads)
           (snd (get_connection 1 default_config thread_2_dead 3
                   (installed 4 400 900 two_threads))) 300).
  vm_compute. reflexivity.
Defined.

(** Threads 1 and 2 are swept, thread 4 stays, thread 3 comes in. *)
Example get_connection_sweeps_and_keeps :
  let s' := snd (get_connection 1 default_config thread_2_dead 3
                   (installed 4 400 900 two_threads)) in
  db_connection_pool s' !! 1 = None /\
  db_connection_pool s' !! 2 = None /\
  db_connection_pool s' !! 3 = Some 300 /\
  db_connection_pool s' !! 4 = Some 400.
Proof. vm_compute. auto. Qed.

Lemma get_connection_idle_caller_reconnects_witness :
  exists s',
    get_connection 1 default_config thread_2_dead 1 two_threads = (Returns 300, s') /\
    100 ∈ closed_connections s' /\
    db_connection_pool s' !! 1 = Some 300 /\
    db_connection_activity s' !! 1 = Some (time_now thread_2_dead).
Proof.
  apply (get_connection_idle_caller_reconnects 1 default_config thread_2_dead 1
           two_threads 100 300 0).
  - reflexivity.
  - vm_compute. reflexivity.
  - intros. reflexivity.
  - vm_compute. reflexivity.
  - vm_compute. reflexivity.
  - simpl. lia.
  - reflexivity.
Defined.

Lemma helpers_with_connection_or_cursor_bypass_pool_witness :
  bypasses_pool (execute 1 default_config test_rows_env 7 select_all (with_connection 5)) /\
  bypasses_pool (fetch_one 1 default_config test_rows_env 7 select_all (with_connection 5)) /\
  bypasses_pool (fetch_all 1 default_config test_rows_env 7 select_all (with_connection 5)) /\
  (forall n,
     bypasses_pool
       (fetch_n 1 default_config test_rows_env 7 n select_all (with_connection 5))) /\
  bypasses_pool
    (fetch_value 1 default_config test_rows_env 7 select_all (with_connection 5)) /\
  bypasses_pool
    (fetch_values 1 default_config test_rows_env 7 select_all (with_connection 5)) /\
  bypasses_pool
    (yield_rows_next 1 default_config test_rows_env 7
       (yield_rows select_all (with_connection 5))) /\
  bypasses_pool
    (yield_values_next 1 default_config test_rows_env 7
       (yield_values select_all (with_connection 5))) /\
  bypasses_pool
    (yield_objects_next 1 default_config test_rows_env 7
       (yield_objects select_all (with_connection 5))).
Proof.
  apply (helpers_with_connection_or_cursor_bypass_pool 1 default_config test_rows_env 7
           select_all (with_connection 5)).
  left. exists 5. reflexivity.
Defined.

(** With the lock held for good, a helper that is given a connection still
    does its work. *)
Example fetch_all_with_connection_under_held_lock :
  let r := fetch_all 1 default_config test_rows_env 7 select_all (with_connection 5)
             (set_lock true two_threads) in
  fst r = Returns (map (shape_row DictCursor) test_rows) /\
  db_connection_pool_lock (snd r) = true.
Proof. vm_compute. auto. Qed.

Lemma helpers_leave_caller_cursor_open_witness :
  keeps_cursors (execute 1 default_config test_rows_env 7 select_all (with_cursor 0)) /\
  keeps_cursors (fetch_one 1 default_config test_rows_env 7 select_all (with_cursor 0)) /\
  keeps_cursors (fetch_all 1 default_config test_rows_env 7 select_all (with_cursor 0)) /\
  (forall n,
     keeps_cursors (fetch_n 1 default_config test_rows_env 7 n select_all (with_cursor 0))) /\
  keeps_cursors (fetch_value 1 default_config test_rows_env 7 select_all (with_cursor 0)) /\
  keeps_cursors (fetch_values 1 default_config test_rows_env 7 select_all (with_cursor 0)) /\
  next_keeps_cursors (yield_rows_next 1 default_config test_rows_env 7) /\
  next_keeps_cursors (yield_values_next 1 default_config test_rows_env 7) /\
  next_keeps_cursors (yield_objects_next 1 default_config test_rows_env 7).
Proof.
  apply (helpers_leave_caller_cursor_open 1 default_config test_rows_env 7 select_all
           (with_cursor 0)).
  split; [reflexivity|]. exists 0. reflexivity.
Defined.

(** The caller's cursor 0 after fetch_all on it: open, and no other cursor. *)
Example fetch_all_on_caller_cursor :
  let r := fetch_all 1 default_config test_rows_env 7 select_all (with_cursor 0)
             dict_cursor_state in
  fst r = Returns (map (shape_row DictCursor) test_rows) /\
  cursor_closed <$> cursor_table (snd r) !! 0 = Some false /\
  next_cursor (snd r) = 1.
Proof. vm_compute. auto. Qed.

Lemma helpers_block_on_held_lock_witness :
  fetch_one 1 default_config test_rows_env 7 select_all no_kwargs
    (set_lock true two_threads)
  = (Blocks, set_lock true two_threads).
Proof.
  apply (proj1 (proj2 (helpers_block_on_held_lock 1 default_config test_rows_env 7
                         select_all))).
  reflexivity.
Defined.

Lemma helpers_with_connection_and_cursor_witness :
  (refuses_cursor_keyword
     (execute 1 default_config test_rows_env 7 select_all
        (with_connection_and_cursor 5 0)) /\
   refuses_cursor_keyword
     (fetch_one 1 default_config test_rows_env 7 select_all
        (with_connection_and_cursor 5 0)) /\
   refuses_cursor_keyword
     (fetch_all 1 default_config test_rows_env 7 select_all
        (with_connection_and_cursor 5 0)) /\
   (forall n,
      refuses_cursor_keyword
        (fetch_n 1 default_config test_rows_env 7 n select_all
           (with_connection_and_cursor 5 0))) /\
   refuses_cursor_keyword
     (yield_rows_next 1 default_config test_rows_env 7
        (yield_rows select_all (with_connection_and_cursor 5 0))) /\
   refuses_cursor_keyword
     (yield_values_next 1 default_config test_rows_env 7
        (yield_values select_all (with_connection_and_cursor 5 0))) /\
   refuses_cursor_keyword
     (yield_objects_next 1 default_config test_rows_env 7
        (yield_objects select_all (with_connection_and_cursor 5 0)))) /\
  (forall s,
     fetch_value 1 default_config test_rows_env 7 select_all
       (with_connection_and_cursor 5 0) s
     = fetch_value 1 default_config test_rows_env 7 select_all (with_connection 5) s) /\
  (forall s,
     fetch_values 1 default_config test_rows_env 7 select_all
       (with_connection_and_cursor 5 0) s
     = fetch_values 1 default_config test_rows_env 7 select_all (with_connection 5) s).
Proof.
  apply (helpers_with_connection_and_cursor 1 default_config test_rows_env 7 select_all
           (with_connection_and_cursor 5 0) 5 0); reflexivity.
Defined.

Lemma fetch_all_returns_count_rows_witness :
  exists s' result,
    fetch_all 1 default_config update_env 7 update_rows (with_connection 5) initial_state
      = (Returns result, s') /\
    result = map (shape_row DictCursor) (firstn (Z.to_nat 2) [])
             ++ repeat VNone (Z.to_nat 2 - length (@nil RawRow)) /\
    length result = Z.to_nat 2 /\
    (2%Z = Z.of_nat (length (@nil RawRow)) -> result = map (shape_row DictCursor) []).
Proof.
  apply (fetch_all_returns_count_rows 1 default_config update_env 7 update_rows
           (with_connection 5) initial_state
           (snd (get_a_cursor 1 default_config update_env 7 (Some DictCursor)
                   (with_connection 5) initial_state))
           (Some 0) 0 no_kwargs (new_cursor 5 DictCursor) 2 []).
  - vm_compute. reflexivity.
  - reflexivity.
  - vm_compute. reflexivity.
  - reflexivity.
Defined.

(** fetch_all on a statement that changes two rows. *)
Example fetch_all_update :
  fst (fetch_all 1 default_config update_env 7 update_rows no_kwargs initial_state)
  = Returns [VNone; VNone].
Proof. vm_compute. reflexivity. Qed.

Lemma fetch_one_returns_first_row_witness :
  exists s',
    fetch_one 1 default_config test_rows_env 7 select_all (with_connection 5)
      initial_state
    = (Returns (VDict [("row_int", VInt 100); ("row_str", VStr "a")])%string, s').
Proof.
  apply (fetch_one_returns_first_row 1 default_config test_rows_env 7 select_all
           (with_connection 5) initial_state
           (snd (get_a_cursor 1 default_config test_rows_env 7 (Some DictCursor)
                   (with_connection 5) initial_state))
           (Some 0) 0 no_kwargs (new_cursor 5 DictCursor) 3 test_rows).
  - vm_compute. reflexivity.
  - reflexivity.
  - vm_compute. reflexivity.
  - reflexivity.
Defined.

Lemma fetch_n_large_bound_is_fetch_all_witness :
  fetch_n 1 default_config test_rows_env 7 5 select_all no_kwargs initial_state
  = fetch_all 1 default_config test_rows_env 7 select_all no_kwargs initial_state.
Proof.
  apply (fetch_n_large_bound_is_fetch_all 1 default_config test_rows_env 7 5 select_all
           no_kwargs initial_state).
  intros count fetches H. simpl in H. injection H as <- _. lia.
Defined.

Lemma yield_rows_gives_fetch_all_rows_witness :
  exists result,
    fst (consume (yield_rows_next 1 default_config test_rows_env 7) (S (length test_rows))
           (yield_rows select_all (with_connection 5)) initial_state) = Returns result /\
    fst (fetch_all 1 default_config test_rows_env 7 select_all (with_connection 5)
           initial_state) = Returns result /\
    result = map (shape_row DictCursor) test_rows.
Proof.
  apply (yield_rows_gives_fetch_all_rows 1 default_config test_rows_env 7 select_all
           (with_connection 5) initial_state
           (snd (get_a_cursor 1 default_config test_rows_env 7 (Some DictCursor)
                   (with_connection 5) initial_state))
           (Some 0) 0 no_kwargs (new_cursor 5 DictCursor) test_rows).
  - vm_compute. reflexivity.
  - reflexivity.
  - vm_compute. reflexivity.
  - reflexivity.
Defined.

Lemma yield_objects_needs_dict_rows_witness :
  fst (consume (yield_objects_next 1 default_config test_rows_env 7)
         (S (length test_rows)) (yield_objects select_all (with_connection 5))
         initial_state)
  = Returns (map dict2obj test_rows).
Proof.
  apply (proj1 (yield_objects_needs_dict_rows 1 default_config test_rows_env 7 select_all
                  (with_connection 5) initial_state
                  (snd (get_a_cursor 1 default_config test_rows_env 7 (Some DictCursor)
                          (with_connection 5) initial_state))
                  (Some 0) 0 no_kwargs (new_cursor 5 DictCursor) test_rows
                  ltac:(vm_compute; reflexivity) ltac:(reflexivity)
                  ltac:(vm_compute; reflexivity) ltac:(reflexivity))).
  reflexivity.
Defined.

(** yield_objects on a caller's cursor that presents rows positionally. *)
Example yield_objects_on_tuple_cursor :
  fst (yield_objects_next 1 default_config test_rows_env 7
         (yield_objects select_all (with_cursor 0))
         (set_cursors (<[0 := new_cursor 5 TupleCursor]> ∅) 1 initial_state))
  = Raises TypeError.
Proof. vm_compute. reflexivity. Qed.


Lemma value_helpers_without_rows_witness :
  fst (fetch_value 1 default_config update_env 7 update_rows (with_connection 5)
         initial_state)
  = Raises TypeError.
Proof.
  apply (proj1 (value_helpers_without_rows 1 default_config update_env 7 update_rows
                  (with_connection 5) initial_state
                  (snd (get_a_cursor 1 default_config update_env 7 None
                          (with_connection 5) initial_state))
                  (Some 0) 0 no_kwargs (new_cursor 5 TupleCursor) 2
                  ltac:(vm_compute; reflexivity) ltac:(vm_compute; reflexivity)
                  ltac:(reflexivity))).
  lia.
Defined.

Lemma dict2obj_plain_row_witness :
  dict2obj test_row = VObj test_row /\
  forall k v, (k, v) ∈ test_row -> getattr (dict2obj test_row) k = Some v.
Proof.
  apply (dict2obj_plain_row test_row).
  - repeat constructor; simpl; intuition discriminate.
  - repeat constructor.
Defined.

Lemma get_connection_closes_only_stale_witness :
  100 ∈ closed_connections two_threads \/
  exists th0 thtime,
    db_connection_pool two_threads !! th0 = Some 100 /\
    db_connection_activity two_threads !! th0 = Some thtime /\
    (isAlive thread_2_dead th0 = false \/
     (thtime < time_now thread_2_dead - db_connection_timeout default_config)%Z).
Proof.
  apply (get_connection_closes_only_stale 1 default_config thread_2_dead 3 two_threads 100).
  apply list_elem_of_In. vm_compute. auto.
Defined.

Lemma close_connections_stops_at_failing_close_witness :
  close_connections close_200_fails two_threads =
    (Raises (ClientError 2006), two_threads) /\
  forall c',
    c' ∈ closed_connections (snd (close_connections close_200_fails two_threads)) <->
    c' ∈ map snd (@nil (nat * nat)) \/ c' ∈ closed_connections two_threads.
Proof.
  apply (close_connections_stops_at_failing_close close_200_fails two_threads
           [] 2 200 (ClientError 2006) [(1, 100)]).
  - vm_compute. reflexivity.
  - constructor.
  - reflexivity.
Defined.

(** The close of the connection visited first fails: the other one is not
    closed, although its close would return. *)
Example close_connections_other_left_open :
  let r := close_connections close_200_fails two_threads in
  fst r = Raises (ClientError 2006) /\
  closed_connections (snd r) = [] /\
  conn_close close_200_fails 100 = None.
Proof. vm_compute. auto. Qed.
